(** * Sales ingestion: a shallow embedding of the three [processFile] variants

    The repository holds three versions of one program that loads CSV sales
    files into a SQLite table [sales], keyed by [id]:

    - [src/main.go]: INSERT OR IGNORE followed by a conditional UPDATE
      (module [Refresh]);
    - [src/unnamed/part_000]: INSERT OR IGNORE, then DELETE of every id whose
      insert affected no row (module [Purge]);
    - [src/test_4/main.go]: in-memory deduplication, a chunked concurrent
      filter, INSERT OR REPLACE (module [Pipeline]).

    The Go standard library and the SQLite driver are not part of the
    repository.  Text parsing ([strconv], [time], [strings.TrimSpace]) is a
    parameter of the development (class [GoLib]); the CSV reader is the
    sequence of results its [Read] method returns; the table is a finite map
    from id to row, and a transaction carries the number of statement
    executions the store will still accept before it reports a failure
    (preparing a statement is taken to succeed). *)

From Stdlib Require Import ZArith List String Ascii Bool Lia Permutation.
From stdpp Require Import gmap.
Import ListNotations.
Local Open Scope string_scope.
Local Open Scope list_scope.

(** ** Errors and results *)

Inductive error : Type :=
| emptyRecordError   (* var emptyRecordError = errors.New("Empty record") *)
| csvError           (* an error of csv.Reader.Read other than io.EOF *)
| numError           (* strconv.Atoi / strconv.ParseInt *)
| timeError          (* time.Parse *)
| storeError.        (* sql.Stmt.Exec *)

(** A Go call either returns normally, returns a non-nil [error], or panics
    (an index out of range on a short record). *)
Inductive result (A : Type) : Type :=
| Ok (a : A)
| Err (e : error)
| Panic.
Arguments Ok {A} a.
Arguments Err {A} e.
Arguments Panic {A}.

Definition bind {A B} (c : result A) (k : A -> result B) : result B :=
  match c with
  | Ok a => k a
  | Err e => Err e
  | Panic => Panic
  end.

Notation "'let!' x ':=' c 'in' k" := (bind c (fun x => k))
  (at level 10, x name, c at level 100, k at level 200).

Definition orErr {A} (e : error) (o : option A) : result A :=
  match o with
  | Some a => Ok a
  | None => Err e
  end.

(** [record[i]]: panics when [i] is out of range. *)
Definition index (record : list string) (i : nat) : result string :=
  match nth_error record i with
  | Some s => Ok s
  | None => Panic
  end.

Definition isOk {A} (c : result A) : bool :=
  match c with
  | Ok _ => true
  | _ => false
  end.

(** ** Dates

    [time.Parse("1/2/06", s)] yields midnight UTC of a calendar day; the driver
    stores it as the text [YYYY-MM-DD 00:00:00+00:00], which SQLite compares
    bytewise: the order of year, month, day. *)

Record Time : Type := mkTime { year : Z; month : Z; day : Z }.

Definition Time_leb (a b : Time) : bool :=
  if (year a <? year b)%Z then true
  else if (year b <? year a)%Z then false
  else if (month a <? month b)%Z then true
  else if (month b <? month a)%Z then false
  else (day a <=? day b)%Z.

(** ** The library functions the program calls *)

Class GoLib : Type := {
  Atoi : string -> option Z;          (* strconv.Atoi(s) *)
  ParseInt : string -> option Z;      (* strconv.ParseInt(s, 0, 64) *)
  time_Parse : string -> option Time; (* time.Parse(dateLayout, s) *)
  TrimSpace : string -> string        (* strings.TrimSpace(s) *)
}.

(** ** The CSV reader: what successive calls of [r.Read()] return.  After the
    last element [Read] returns [io.EOF]. *)

Inductive readResult : Type :=
| Fields (record : list string)
| ReadError.

Definition Reader : Type := list readResult.

(** [isEmptyRecord]: true if all strings in a slice are empty strings. *)
Fixpoint isEmptyRecord (record : list string) : bool :=
  match record with
  | [] => true
  | val :: rest =>
      if String.eqb val EmptyString then isEmptyRecord rest else false
  end.

(** ** The table and a transaction on it *)

Record Row (V : Type) : Type := mkRow {
  Address : string;
  Suburb : string;
  Date : Time;
  Value : V
}.
Arguments mkRow {V} _ _ _ _.
Arguments Address {V} _.
Arguments Suburb {V} _.
Arguments Date {V} _.
Arguments Value {V} _.

Record Tx (V : Type) : Type := mkTx {
  rows : gmap Z (Row V);
  budget : option nat   (* executions accepted before the store fails *)
}.
Arguments mkTx {V} _ _.
Arguments rows {V} _.
Arguments budget {V} _.

(** One statement execution: fails, without effect, when the budget is used
    up; otherwise applies [f] to the table. *)
Definition Exec {V} (f : gmap Z (Row V) -> gmap Z (Row V)) (tx : Tx V)
  : result (Tx V) :=
  match budget tx with
  | Some O => Err storeError
  | Some (S k) => Ok (mkTx (f (rows tx)) (Some k))
  | None => Ok (mkTx (f (rows tx)) None)
  end.

(** [INSERT OR IGNORE INTO sales VALUES(?, ?, ?, ?, ?)] *)
Definition sqlInsertOrIgnore {V} (id : Z) (r : Row V) (m : gmap Z (Row V))
  : gmap Z (Row V) :=
  match m !! id with
  | Some _ => m
  | None => <[id := r]> m
  end.

(** [sql.Result.RowsAffected] of the statement above. *)
Definition insertAffected {V} (id : Z) (m : gmap Z (Row V)) : Z :=
  match m !! id with
  | Some _ => 0%Z
  | None => 1%Z
  end.

(** [UPDATE sales SET address=?, suburb=?, Date=?, Value=? WHERE id=? AND Date<=?] *)
Definition sqlUpdate {V} (r : Row V) (id : Z) (d : Time) (m : gmap Z (Row V))
  : gmap Z (Row V) :=
  match m !! id with
  | Some old => if Time_leb (Date old) d then <[id := r]> m else m
  | None => m
  end.

(** [INSERT OR REPLACE INTO sales VALUES(?, ?, ?, ?, ?)] *)
Definition sqlInsertOrReplace {V} (id : Z) (r : Row V) (m : gmap Z (Row V))
  : gmap Z (Row V) :=
  <[id := r]> m.

(** [DELETE FROM sales WHERE id=?] *)
Definition sqlDelete {V} (id : Z) (m : gmap Z (Row V)) : gmap Z (Row V) :=
  delete id m.

(** ** [main]: one transaction per file

    [db.Begin()]; [processFile]; on an error [tx.Rollback()] and [log.Fatal],
    otherwise [tx.Commit()] and on to the next file.  A panic ends the process
    with the transaction neither committed nor rolled back: the table keeps its
    last committed state. *)

Inductive outcome : Type :=
| Finished
| Fatal (e : error)
| Crashed.

Section Main.
Context {F V : Type}.
Variable processFile : F -> Tx V -> result (Tx V).

Definition Begin (db : gmap Z (Row V)) (b : option nat) : Tx V := mkTx db b.
Definition Commit (tx : Tx V) : gmap Z (Row V) := rows tx.

Fixpoint mainLoop (db : gmap Z (Row V)) (files : list (F * option nat))
  : gmap Z (Row V) * outcome :=
  match files with
  | [] => (db, Finished)
  | (file, b) :: rest =>
      match processFile file (Begin db b) with
      | Ok tx => mainLoop (Commit tx) rest
      | Err e => (db, Fatal e)
      | Panic => (db, Crashed)
      end
  end.

(** The table after a run over one file. *)
Definition ingest (file : F) (b : option nat) (db : gmap Z (Row V))
  : gmap Z (Row V) :=
  fst (mainLoop db [(file, b)]).
End Main.

(** * [src/main.go]: insert or ignore, then conditional update *)

Module Refresh.
Section WithLib.
Context {lib : GoLib}.

Definition stmtInsert_Exec (id : Z) (address suburb : string) (date : Time)
    (value : string) (tx : Tx string) : result (Tx string) :=
  Exec (sqlInsertOrIgnore id (mkRow address suburb date value)) tx.

Definition stmtUpdate_Exec (address suburb : string) (date : Time)
    (value : string) (id : Z) (date' : Time) (tx : Tx string)
  : result (Tx string) :=
  Exec (sqlUpdate (mkRow address suburb date value) id date') tx.

(** The two executions at the end of the loop body. *)
Definition insertThenUpdate (id : Z) (address suburb : string) (date : Time)
    (value : string) (tx : Tx string) : result (Tx string) :=
  let! tx1 := stmtInsert_Exec id address suburb date value tx in
  stmtUpdate_Exec address suburb date value id date tx1.

(** The body of the [for] loop for one non-empty record. *)
Definition processRecord (record : list string) (tx : Tx string)
  : result (Tx string) :=
  let! s0 := index record 0 in
  let! id := orErr numError (ParseInt s0) in
  let! s3 := index record 3 in
  let! date := orErr timeError (time_Parse s3) in
  let! address := index record 1 in
  let! suburb := index record 2 in
  let! value := index record 4 in
  insertThenUpdate id address suburb date value tx.

Fixpoint readLoop (r : Reader) (tx : Tx string) : result (Tx string) :=
  match r with
  | [] => Ok tx                        (* io.EOF: break; return nil *)
  | ReadError :: _ => Err csvError
  | Fields record :: r' =>
      if isEmptyRecord record then readLoop r' tx
      else let! tx' := processRecord record tx in readLoop r' tx'
  end.

Definition processFile (r : Reader) (tx : Tx string) : result (Tx string) :=
  match r with
  | [] => Ok tx                        (* io.EOF on the header: return nil *)
  | ReadError :: _ => Err csvError
  | Fields _ :: r' => readLoop r' tx   (* skip the first line *)
  end.

Definition main := mainLoop processFile.
End WithLib.
End Refresh.

(** * [src/unnamed/part_000]: insert or ignore, then delete the conflicting ids *)

Module Purge.
Section WithLib.
Context {lib : GoLib}.

(** [stmt.Exec] together with [res.RowsAffected()]. *)
Definition stmt_Exec (id : Z) (address suburb : string) (date : Time)
    (value : string) (tx : Tx string) : result (Tx string * Z) :=
  let! tx' := Exec (sqlInsertOrIgnore id (mkRow address suburb date value)) tx in
  Ok (tx', insertAffected id (rows tx)).

(** The body of the [for] loop for one non-empty record; [duplicates] is the
    set of keys of the Go map [map[int64]struct{}]. *)
Definition processRecord (record : list string)
    (st : Tx string * gset Z) : result (Tx string * gset Z) :=
  let '(tx, duplicates) := st in
  let! s0 := index record 0 in
  let! id := orErr numError (ParseInt s0) in
  let! s3 := index record 3 in
  let! date := orErr timeError (time_Parse s3) in
  let! address := index record 1 in
  let! suburb := index record 2 in
  let! value := index record 4 in
  let! res := stmt_Exec id address suburb date value tx in
  let '(tx', affected) := res in
  if (affected =? 0)%Z then Ok (tx', {[id]} ∪ duplicates)
  else Ok (tx', duplicates).

Fixpoint readLoop (r : Reader) (st : Tx string * gset Z)
  : result (Tx string * gset Z) :=
  match r with
  | [] => Ok st
  | ReadError :: _ => Err csvError
  | Fields record :: r' =>
      if isEmptyRecord record then readLoop r' st
      else let! st' := processRecord record st in readLoop r' st'
  end.

(** [for id, _ := range ids { stmt.Exec(id) }], over the keys in the order
    the range yields them. *)
Fixpoint removeLoop (ids : list Z) (tx : Tx string) : result (Tx string) :=
  match ids with
  | [] => Ok tx
  | id :: rest => let! tx' := Exec (sqlDelete id) tx in removeLoop rest tx'
  end.

Definition removeSalesWithIds (ids : gset Z) (tx : Tx string)
  : result (Tx string) :=
  removeLoop (elements ids) tx.

Definition processFile (r : Reader) (tx : Tx string) : result (Tx string) :=
  match r with
  | [] => Ok tx
  | ReadError :: _ => Err csvError
  | Fields _ :: r' =>
      let! st := readLoop r' (tx, ∅) in
      removeSalesWithIds (snd st) (fst st)
  end.

Definition main := mainLoop processFile.
End WithLib.
End Purge.

(** * [src/test_4/main.go]: deduplicate, filter in chunks, insert or replace

    Go's [int] is read as an integer of [Z]: the program adds one to counters
    bounded by the number of records and adds a chunk size to an index, so no
    operation leaves the range of a 64-bit [int]. *)

Module Pipeline.

Record record : Type := mkRecord {
  id : Z;
  address : string;
  suburb : string;
  date : Time;
  value : Z
}.

(** [strings.HasSuffix(s, suffix)] *)
Definition HasSuffix (s suffix : string) : bool :=
  (String.length suffix <=? String.length s)%nat &&
  String.eqb
    (substring (String.length s - String.length suffix) (String.length suffix) s)
    suffix.

Definition max (a b : Z) : Z := if (a >? b)%Z then a else b.
Definition min (a b : Z) : Z := if (a <? b)%Z then a else b.

(** [inserts[k]] on a Go [map[int]int]: zero for a missing key. *)
Definition count (inserts : gmap Z Z) (k : Z) : Z := default 0%Z (inserts !! k).

(** [recordsDedup[chunkStart:chunkEnd]] *)
Definition slice {A} (l : list A) (lo hi : Z) : list A :=
  firstn (Z.to_nat hi - Z.to_nat lo) (skipn (Z.to_nat lo) l).

Section WithLib.
Context {lib : GoLib}.

Definition NewRecordFromStrings (strings : list string) : result record :=
  if isEmptyRecord strings then Err emptyRecordError
  else
    let! s0 := index strings 0 in
    let! id := orErr numError (Atoi s0) in
    let! address := index strings 1 in
    let! suburb := index strings 2 in
    let! s3 := index strings 3 in
    let! date := orErr timeError (time_Parse s3) in
    let! s4 := index strings 4 in
    let! value := orErr numError (Atoi s4) in
    Ok (mkRecord id address suburb date value).

(** filterDuplicates filters out records inserted more than once;
    parameter inserts is a map[id]n_inserts *)
Definition filterDuplicates (records : list record) (inserts : gmap Z Z)
  : list record :=
  fold_left
    (fun output rec =>
       if (count inserts (id rec) =? 1)%Z then output ++ [rec] else output)
    records [].

(** The reading loop of [loadAndDeduplicateRecords], on the variables
    [records] and [duplicates]. *)
Fixpoint loadLoop (r : Reader) (records : list record)
    (duplicates : gmap Z Z) : result (list record * gmap Z Z) :=
  match r with
  | [] => Ok (records, duplicates)
  | ReadError :: _ => Err csvError
  | Fields strings :: r' =>
      match NewRecordFromStrings strings with
      | Ok rec =>
          let inserts := count duplicates (id rec) in
          let inserts := (inserts + 1)%Z in
          loadLoop r' (records ++ [rec]) (<[id rec := inserts]> duplicates)
      | Err emptyRecordError => loadLoop r' records duplicates
      | Err e => Err e
      | Panic => Panic
      end
  end.

Definition loadAndDeduplicateRecords (r : Reader) : result (list record) :=
  match r with
  | [] => Ok []
  | ReadError :: _ => Err csvError
  | Fields _ :: r' =>
      let! st := loadLoop r' [] ∅ in
      Ok (filterDuplicates (fst st) (snd st))
  end.

(** One iteration of the loop of [filter], on the variables [out] and [i]. *)
Definition filterStep (st : list record * Z) (rec : record)
  : list record * Z :=
  let '(out, i) := st in
  if (value rec <? 400000)%Z then (out, i)
  else
    let addrTrim := TrimSpace (address rec) in
    if HasSuffix addrTrim "AVE" || HasSuffix addrTrim "CRES"
       || HasSuffix addrTrim "PL"
    then (out, i)
    else
      let i := (i + 1)%Z in
      if (i =? 10)%Z then (out, 0%Z) else (out ++ [rec], i).

Definition filter (records : list record) : list record :=
  fst (fold_left filterStep records ([], 0%Z)).
End WithLib.

(** The chunking loop of [processFile]: the pairs [(chunkStart, chunkEnd)] of
    the slices handed to the goroutines, in the order they are started.
    [fuel] bounds the number of iterations; [None] when it runs out. *)
Fixpoint chunkLoop (fuel : nat) (chunkSize dedupEnd chunkStart chunkEnd : Z)
  : option (list (Z * Z)) :=
  match fuel with
  | O => None
  | S fuel' =>
      if (chunkEnd =? dedupEnd)%Z then Some [(chunkStart, chunkEnd)]
      else
        match chunkLoop fuel' chunkSize dedupEnd chunkEnd
                (min (chunkEnd + chunkSize) dedupEnd) with
        | Some rest => Some ((chunkStart, chunkEnd) :: rest)
        | None => None
        end
  end.

(** The bounds for [n] records and [goroutinesNumber] workers. *)
Definition chunkBounds (n goroutinesNumber : Z) : option (list (Z * Z)) :=
  let chunkSize := max (Z.quot n goroutinesNumber) 1 in
  let dedupEnd := n in
  let chunkStart := 0%Z in
  let chunkEnd := min chunkSize dedupEnd in
  chunkLoop (S (Z.to_nat n)) chunkSize dedupEnd chunkStart chunkEnd.

Definition chunks {A} (goroutinesNumber : Z) (recordsDedup : list A)
  : option (list (list A)) :=
  match chunkBounds (Z.of_nat (length recordsDedup)) goroutinesNumber with
  | Some bounds => Some (map (fun b => slice recordsDedup (fst b) (snd b)) bounds)
  | None => None
  end.

(** [stmt.Exec(rec.id, rec.address, rec.suburb, rec.date, rec.value)] *)
Definition stmt_Exec (rec : record) (tx : Tx Z) : result (Tx Z) :=
  Exec (sqlInsertOrReplace (id rec)
          (mkRow (address rec) (suburb rec) (date rec) (value rec))) tx.

(** ** The goroutines of [processFile]

    One worker per chunk sends its filtered records on the unbuffered channel
    [ch] and then calls [wg.Done()]; one goroutine waits for the group and then
    sends on [doneCh]; [processFile] itself selects on both channels.  A send
    on an unbuffered channel completes together with the matching receive.
    All [wg.Add(1)] happen before the waiting goroutine is started, so the
    system is observed from the point where every worker has been counted. *)

Inductive worker : Type :=
| Sending (pending : list record)   (* [Sending []]: at [wg.Done()] *)
| Exited.

Inductive waiter : Type :=
| Waiting          (* in [wg.Wait()] *)
| Signalling       (* at [doneCh <- struct{}{}] *)
| WaiterExited.

Inductive writer : Type :=
| Selecting (tx : Tx Z)             (* in the [select], [done] is false *)
| Returned (res : result (Tx Z)).   (* [processFile] has returned *)

Record state : Type := mkState {
  workers : list worker;
  wg : nat;
  waiterSt : waiter;
  writerSt : writer;
  received : list record   (* what [case rec := <-ch] has received so far *)
}.

Inductive label : Type :=
| Recv (k : nat)     (* worker [k] sends, the select receives and executes *)
| WgDone (k : nat)   (* worker [k] calls [wg.Done()] and ends *)
| WaitReturns        (* [wg.Wait()] returns *)
| RecvDone.          (* the send on [doneCh] meets [case <-doneCh] *)

Definition step (l : label) (s : state) : option state :=
  match l with
  | Recv k =>
      match workers s !! k, writerSt s with
      | Some (Sending (rec :: rest)), Selecting tx =>
          Some (mkState (<[k := Sending rest]> (workers s)) (wg s) (waiterSt s)
                  (match stmt_Exec rec tx with
                   | Ok tx' => Selecting tx'
                   | Err e => Returned (Err e)
                   | Panic => Returned Panic
                   end)
                  (received s ++ [rec]))
      | _, _ => None
      end
  | WgDone k =>
      match workers s !! k with
      | Some (Sending []) =>
          Some (mkState (<[k := Exited]> (workers s)) (pred (wg s)) (waiterSt s)
                  (writerSt s) (received s))
      | _ => None
      end
  | WaitReturns =>
      match waiterSt s, wg s with
      | Waiting, O =>
          Some (mkState (workers s) (wg s) Signalling (writerSt s) (received s))
      | _, _ => None
      end
  | RecvDone =>
      match waiterSt s, writerSt s with
      | Signalling, Selecting tx =>
          Some (mkState (workers s) (wg s) WaiterExited (Returned (Ok tx))
                  (received s))
      | _, _ => None
      end
  end.

Fixpoint run (trace : list label) (s : state) : option state :=
  match trace with
  | [] => Some s
  | l :: trace' =>
      match step l s with
      | Some s' => run trace' s'
      | None => None
      end
  end.

(** The system once the workers for the filtered chunks [outs] are counted. *)
Definition spawned (outs : list (list record)) (tx : Tx Z) : state :=
  mkState (map Sending outs) (length outs) Waiting (Selecting tx) [].

(** ** [processFile] as a function of the order of reception

    The only choice the system has is which pending send the select takes
    next.  [sched] lists these choices; an entry naming a worker with nothing
    to send falls back on the first worker that has. *)

Definition takeFrom (k : nat) (outs : list (list record))
  : option (record * list (list record)) :=
  match outs !! k with
  | Some (rec :: rest) => Some (rec, <[k := rest]> outs)
  | _ => None
  end.

Fixpoint takeFirst (outs : list (list record))
  : option (record * list (list record)) :=
  match outs with
  | [] => None
  | [] :: others =>
      match takeFirst others with
      | Some (rec, others') => Some (rec, [] :: others')
      | None => None
      end
  | (rec :: rest) :: others => Some (rec, rest :: others)
  end.

Fixpoint interleaveN (n : nat) (sched : list nat) (outs : list (list record))
  : list record :=
  match n with
  | O => []
  | S n' =>
      match takeFrom (hd O sched) outs with
      | Some (rec, outs') => rec :: interleaveN n' (tl sched) outs'
      | None =>
          match takeFirst outs with
          | Some (rec, outs') => rec :: interleaveN n' (tl sched) outs'
          | None => []
          end
      end
  end.

Definition interleave (sched : list nat) (outs : list (list record))
  : list record :=
  interleaveN (length (concat outs)) sched outs.

(** The select loop over the records in the order received. *)
Fixpoint writeAll (recs : list record) (tx : Tx Z) : result (Tx Z) :=
  match recs with
  | [] => Ok tx
  | rec :: rest => let! tx' := stmt_Exec rec tx in writeAll rest tx'
  end.

Section WithLib.
Context {lib : GoLib}.

(** [goroutinesNumber] is the flag as [main] has set it; dividing by it
    panics when it is zero.  The chunking loop always ends (lemma
    [chunks_total]), so the last branch is never taken. *)
Definition processFile (goroutinesNumber : Z) (file : Reader * list nat)
    (tx : Tx Z) : result (Tx Z) :=
  let! recordsDedup := loadAndDeduplicateRecords (fst file) in
  if (goroutinesNumber =? 0)%Z then Panic
  else
    match chunks goroutinesNumber recordsDedup with
    | Some cs => writeAll (interleave (snd file) (map filter cs)) tx
    | None => Panic
    end.

(** The goroutines [processFile] has started when it enters the select loop:
    one worker per chunk, holding what [filter] kept of its own chunk. *)
Definition start (goroutinesNumber : Z) (recordsDedup : list record)
    (tx : Tx Z) : option state :=
  if (goroutinesNumber =? 0)%Z then None
  else
    match chunks goroutinesNumber recordsDedup with
    | Some cs => Some (spawned (map filter cs) tx)
    | None => None
    end.

(** [main] replaces the flag [-g] by its maximum with 1 before the loop. *)
Definition main (flag_g : Z) := mainLoop (processFile (max flag_g 1)).
End WithLib.

End Pipeline.

(** * A decimal instance of the library functions

    Enough of [strconv] and [time] to run the program on concrete files:
    optionally signed decimal integers, dates [M/D/YY] with the two-digit year
    read as Go does (69 to 99 in 1900, 00 to 68 in 2000), and trimming of
    spaces.  The theorems below hold for every instance; this one is used to
    evaluate the program at concrete inputs. *)

Module Decimal.

Definition digit (c : ascii) : option Z :=
  let n := nat_of_ascii c in
  if (48 <=? n)%nat && (n <=? 57)%nat then Some (Z.of_nat (n - 48)) else None.

Fixpoint digits (acc : Z) (s : string) : option Z :=
  match s with
  | EmptyString => Some acc
  | String c s' =>
      match digit c with
      | Some d => digits (10 * acc + d)%Z s'
      | None => None
      end
  end.

Definition natural (s : string) : option Z :=
  match s with
  | EmptyString => None
  | _ => digits 0%Z s
  end.

Definition integer (s : string) : option Z :=
  match s with
  | String "-"%char s' => option_map Z.opp (natural s')
  | String "+"%char s' => natural s'
  | _ => natural s
  end.

(** Splits at the first [sep]. *)
Fixpoint cut (sep : ascii) (s : string) : string * option string :=
  match s with
  | EmptyString => (EmptyString, None)
  | String c s' =>
      if Ascii.eqb c sep then (EmptyString, Some s')
      else let '(a, b) := cut sep s' in (String c a, b)
  end.

Definition parseDate (s : string) : option Time :=
  match cut "/"%char s with
  | (m, Some rest) =>
      match cut "/"%char rest with
      | (d, Some y) =>
          match natural m, natural d, natural y with
          | Some m', Some d', Some y' =>
              if ((1 <=? m') && (m' <=? 12) && (1 <=? d') && (d' <=? 31)
                  && (String.length y =? 2)%nat)%Z
              then Some (mkTime (if (69 <=? y')%Z then 1900 + y' else 2000 + y')%Z
                           m' d')
              else None
          | _, _, _ => None
          end
      | _ => None
      end
  | _ => None
  end.

Fixpoint trimLeft (s : string) : string :=
  match s with
  | String " "%char s' => trimLeft s'
  | _ => s
  end.

Fixpoint rev (acc s : string) : string :=
  match s with
  | EmptyString => acc
  | String c s' => rev (String c acc) s'
  end.

Definition trim (s : string) : string :=
  rev EmptyString (trimLeft (rev EmptyString (trimLeft s))).

Definition lib : GoLib :=
  {| Atoi := integer; ParseInt := integer; time_Parse := parseDate;
     TrimSpace := trim |}.

End Decimal.

(** * Vocabulary of the statements *)

(** A chain of bounds [(lo, b1); (b1, b2); ...; (bk, hi)]. *)
Fixpoint contiguous (lo : Z) (bounds : list (Z * Z)) (hi : Z) : Prop :=
  match bounds with
  | [] => lo = hi
  | (a, b) :: rest => a = lo /\ (a <= b)%Z /\ contiguous b rest hi
  end.

(** The number of records of [records] whose id is [k]. *)
Definition occurrences (k : Z) (records : list Pipeline.record) : nat :=
  length (List.filter (fun rec => (Pipeline.id rec =? k)%Z) records).

Section Vocabulary.
Context {lib : GoLib}.

(** The valid records of the data rows, in the order of the rows. *)
Fixpoint parsedRecords (r : Reader) : list Pipeline.record :=
  match r with
  | [] => []
  | Fields strings :: r' =>
      match Pipeline.NewRecordFromStrings strings with
      | Ok rec => rec :: parsedRecords r'
      | _ => parsedRecords r'
      end
  | ReadError :: r' => parsedRecords r'
  end.

(** The two tests of the business filter that look at the record alone. *)
Definition belowThreshold (rec : Pipeline.record) : bool :=
  (Pipeline.value rec <? 400000)%Z.

Definition excludedStreet (rec : Pipeline.record) : bool :=
  let trimmed := TrimSpace (Pipeline.address rec) in
  Pipeline.HasSuffix trimmed "AVE" || Pipeline.HasSuffix trimmed "CRES"
  || Pipeline.HasSuffix trimmed "PL".

Definition eligible (rec : Pipeline.record) : bool :=
  negb (belowThreshold rec) && negb (excludedStreet rec).

(** How many records of [records] pass the two tests. *)
Definition rank (records : list Pipeline.record) : nat :=
  length (List.filter eligible records).
End Vocabulary.

(** The budget after one execution. *)
Definition spend (b : option nat) : result (option nat) :=
  match b with
  | Some O => Err storeError
  | Some (S k) => Ok (Some k)
  | None => Ok None
  end.

(** [src/main.go] seen as parsing followed by table updates: what the loop
    does to the table does not influence what it reads or whether it fails. *)
Module RefreshPlan.
Section WithLib.
Context {lib : GoLib}.

(** The id and the row a non-empty record stands for. *)
Definition parseRecord (record : list string) : result (Z * Row string) :=
  let! s0 := index record 0 in
  let! id := orErr numError (ParseInt s0) in
  let! s3 := index record 3 in
  let! date := orErr timeError (time_Parse s3) in
  let! address := index record 1 in
  let! suburb := index record 2 in
  let! value := index record 4 in
  Ok (id, mkRow address suburb date value).

(** The rows a reader yields before the loop ends, with the budget left. *)
Fixpoint plan (r : Reader) (b : option nat)
  : result (list (Z * Row string) * option nat) :=
  match r with
  | [] => Ok ([], b)
  | ReadError :: _ => Err csvError
  | Fields record :: r' =>
      if isEmptyRecord record then plan r' b
      else
        let! p := parseRecord record in
        let! b1 := spend b in
        let! b2 := spend b1 in
        let! rest := plan r' b2 in
        Ok (p :: fst rest, snd rest)
  end.
End WithLib.

(** The effect of the two statements for one row on the table. *)
Definition upsert (m : gmap Z (Row string)) (p : Z * Row string)
  : gmap Z (Row string) :=
  sqlUpdate (snd p) (fst p) (Date (snd p)) (sqlInsertOrIgnore (fst p) (snd p) m).

(** The same on the entry of one id [k]. *)
Definition upsertAt (k : Z) (x : option (Row string)) (p : Z * Row string)
  : option (Row string) :=
  if (fst p =? k)%Z then
    match x with
    | None => Some (snd p)
    | Some old => if Time_leb (Date old) (Date (snd p)) then Some (snd p) else Some old
    end
  else x.
End RefreshPlan.

(** A record that is not blank and whose id, date or (where the program reads
    it as a number) value does not parse. *)
Definition malformed (parseId : string -> option Z)
    (parseDate : string -> option Time) (parseValue : option (string -> option Z))
    (strings : list string) : Prop :=
  isEmptyRecord strings = false
  /\ ((exists s0, nth_error strings 0 = Some s0 /\ parseId s0 = None)
      \/ (exists s3, nth_error strings 3 = Some s3 /\ parseDate s3 = None)
      \/ (exists parse s4, parseValue = Some parse
                           /\ nth_error strings 4 = Some s4 /\ parse s4 = None)).

(** A file with a malformed record among its data rows. *)
Definition hasMalformedRow (parseId : string -> option Z)
    (parseDate : string -> option Time) (parseValue : option (string -> option Z))
    (file : Reader) : Prop :=
  exists header rows0 strings rows1,
    file = header :: rows0 ++ Fields strings :: rows1
    /\ malformed parseId parseDate parseValue strings.

(** The number of records that are not blank. *)
Fixpoint nonBlank (r : Reader) : nat :=
  match r with
  | [] => O
  | Fields record :: r' =>
      if isEmptyRecord record then nonBlank r' else S (nonBlank r')
  | ReadError :: r' => nonBlank r'
  end.

(** A record that is not blank and whose first field parses to [k]. *)
Definition hasId (parseId : string -> option Z) (k : Z) (strings : list string)
  : Prop :=
  isEmptyRecord strings = false
  /\ exists s0, nth_error strings 0 = Some s0 /\ parseId s0 = Some k.

(** Two data rows of the file carry the identifier [k]. *)
Definition appearsTwice (parseId : string -> option Z) (k : Z) (r : Reader)
  : Prop :=
  exists rows0 ri rows1 rj rows2,
    r = rows0 ++ Fields ri :: rows1 ++ Fields rj :: rows2
    /\ hasId parseId k ri /\ hasId parseId k rj.

(** What a worker has still to send. *)
Definition pendingOf (w : Pipeline.worker) : list Pipeline.record :=
  match w with
  | Pipeline.Sending pending => pending
  | Pipeline.Exited => []
  end.

Definition pendings (s : Pipeline.state) : list (list Pipeline.record) :=
  map pendingOf (Pipeline.workers s).

(** The workers that have not called [wg.Done()] yet. *)
Definition live (ws : list Pipeline.worker) : nat :=
  length (List.filter (fun w => match w with
                                | Pipeline.Sending _ => true
                                | Pipeline.Exited => false
                                end) ws).

(** The steps the system can still take. *)
Definition workerSteps (w : Pipeline.worker) : nat :=
  match w with
  | Pipeline.Sending pending => S (length pending)
  | Pipeline.Exited => O
  end.

Definition waiterSteps (w : Pipeline.waiter) : nat :=
  match w with
  | Pipeline.Waiting => 2
  | Pipeline.Signalling => 1
  | Pipeline.WaiterExited => 0
  end.

Definition stepsLeft (s : Pipeline.state) : nat :=
  list_sum (map workerSteps (Pipeline.workers s))
  + waiterSteps (Pipeline.waiterSt s).

(** What the select loop has made of the transaction [tx0] it started with. *)
Definition writerResult (s : Pipeline.state) : result (Tx Z) :=
  match Pipeline.writerSt s with
  | Pipeline.Selecting tx => Ok tx
  | Pipeline.Returned res => res
  end.

(** The invariant of the system started on [outs] and [tx0]. *)
Record consistent (outs : list (list Pipeline.record)) (tx0 : Tx Z)
    (s : Pipeline.state) : Prop := {
  wg_counts : Pipeline.wg s = live (Pipeline.workers s);
  nothing_lost :
    Permutation (Pipeline.received s ++ concat (pendings s)) (concat outs);
  waiter_passed :
    Pipeline.waiterSt s <> Pipeline.Waiting -> Pipeline.wg s = O;
  done_means_signal :
    Pipeline.waiterSt s = Pipeline.WaiterExited
    <-> exists tx, Pipeline.writerSt s = Pipeline.Returned (Ok tx);
  writes_follow_receipts :
    Pipeline.writeAll (Pipeline.received s) tx0 = writerResult s
}.

(** The order of dates that [Time_leb] decides. *)
Definition Time_le (a b : Time) : Prop :=
  (year a < year b \/ (year a = year b /\
     (month a < month b \/ (month a = month b /\ day a <= day b))))%Z.

(** The row [stmt.Exec] writes for a record of [test_4]. *)
Definition rowOf (rec : Pipeline.record) : Row Z :=
  mkRow (Pipeline.address rec) (Pipeline.suburb rec) (Pipeline.date rec)
    (Pipeline.value rec).

(** The table after the writes for the records [recs], in that order. *)
Definition putAll (recs : list Pipeline.record) (m : gmap Z (Row Z))
  : gmap Z (Row Z) :=
  fold_left (fun m rec => sqlInsertOrReplace (Pipeline.id rec) (rowOf rec) m)
    recs m.

(** Some data row carries the identifier [k]. *)
Definition mentions (parseId : string -> option Z) (k : Z) (r : Reader) : Prop :=
  exists record, In (Fields record) r /\ hasId parseId k record.

(** A small file and a small table, for the examples of the last part. *)
Module Sample.
Definition header : readResult :=
  Fields ["id"; "address"; "suburb"; "date"; "value"].

Definition dataRows : Reader :=
  [Fields ["1"; "2 New RD"; "Newtown"; "1/10/20"; "200"];
   Fields [""; ""; ""; ""; ""];
   Fields ["2"; "3 Elm ST"; "Newtown"; "1/5/20"; "300"]].

Definition oldRow : Row string :=
  mkRow "1 Old ST" "Oldtown" (mkTime 2020 1 5) "100".

Definition farRow : Row string :=
  mkRow "9 Far LN" "Bowen" (mkTime 2019 5 6) "900".

Definition before : gmap Z (Row string) :=
  <[9%Z := farRow]> {[1%Z := oldRow]}.

(** The table [src/main.go] makes of [before] and the file. *)
Definition afterRefresh : gmap Z (Row string) :=
  <[2%Z := mkRow "3 Elm ST" "Newtown" (mkTime 2020 1 5) "300"]>
    (<[1%Z := mkRow "2 New RD" "Newtown" (mkTime 2020 1 10) "200"]> before).

(** The table [part_000] makes of [before] and the file. *)
Definition afterPurge : gmap Z (Row string) :=
  <[2%Z := mkRow "3 Elm ST" "Newtown" (mkTime 2020 1 5) "300"]>
    {[9%Z := farRow]}.
End Sample.

(** * Theorems *)

(** ** The empty stream and blank rows *)

Section Skips.
Context {lib : GoLib}.

Lemma Refresh_readLoop_blank (strings : list string) (pre post : Reader)
    (tx : Tx string) :
  isEmptyRecord strings = true ->
  Refresh.readLoop (pre ++ Fields strings :: post) tx
  = Refresh.readLoop (pre ++ post) tx.
Proof.
  intros Hblank. revert tx.
  induction pre as [|[record|] pre IH]; intros tx; simpl.
  - now rewrite Hblank.
  - destruct (isEmptyRecord record); [apply IH|].
    destruct (Refresh.processRecord record tx); simpl; auto.
  - reflexivity.
Qed.

Lemma Purge_readLoop_blank (strings : list string) (pre post : Reader)
    (st : Tx string * gset Z) :
  isEmptyRecord strings = true ->
  Purge.readLoop (pre ++ Fields strings :: post) st
  = Purge.readLoop (pre ++ post) st.
Proof.
  intros Hblank. revert st.
  induction pre as [|[record|] pre IH]; intros st; simpl.
  - now rewrite Hblank.
  - destruct (isEmptyRecord record); [apply IH|].
    destruct (Purge.processRecord record st); simpl; auto.
  - reflexivity.
Qed.

Lemma Pipeline_NewRecord_blank (strings : list string) :
  isEmptyRecord strings = true ->
  Pipeline.NewRecordFromStrings strings = Err emptyRecordError.
Proof. intros H. unfold Pipeline.NewRecordFromStrings. now rewrite H. Qed.

Lemma Pipeline_loadLoop_blank (strings : list string) (pre post : Reader)
    (records : list Pipeline.record) (duplicates : gmap Z Z) :
  isEmptyRecord strings = true ->
  Pipeline.loadLoop (pre ++ Fields strings :: post) records duplicates
  = Pipeline.loadLoop (pre ++ post) records duplicates.
Proof.
  intros Hblank. revert records duplicates.
  induction pre as [|[record|] pre IH]; intros records duplicates; simpl.
  - now rewrite (Pipeline_NewRecord_blank _ Hblank).
  - destruct (Pipeline.NewRecordFromStrings record) as [rec|[]|]; auto.
  - reflexivity.
Qed.

(** C9.  A row whose fields are all empty strings is skipped: the parser of
    [test_4] answers with the sentinel [emptyRecordError], never with a
    record or another error, and in all three programs a file with such a
    row among its data rows is processed exactly as the file without it:
    same result, same table, same records loaded. *)
Theorem blank_row_skipped (strings : list string) :
  isEmptyRecord strings = true ->
  Pipeline.NewRecordFromStrings strings = Err emptyRecordError
  /\ (forall header pre post,
        Pipeline.loadAndDeduplicateRecords
          (header :: pre ++ Fields strings :: post)
        = Pipeline.loadAndDeduplicateRecords (header :: pre ++ post))
  /\ (forall g header pre post sched tx,
        Pipeline.processFile g (header :: pre ++ Fields strings :: post, sched) tx
        = Pipeline.processFile g (header :: pre ++ post, sched) tx)
  /\ (forall header pre post tx,
        Refresh.processFile (header :: pre ++ Fields strings :: post) tx
        = Refresh.processFile (header :: pre ++ post) tx)
  /\ (forall header pre post tx,
        Purge.processFile (header :: pre ++ Fields strings :: post) tx
        = Purge.processFile (header :: pre ++ post) tx).
Proof.
  intros Hblank.
  assert (Hload : forall header pre post,
    Pipeline.loadAndDeduplicateRecords
      (header :: pre ++ Fields strings :: post)
    = Pipeline.loadAndDeduplicateRecords (header :: pre ++ post)).
  { intros [h|] pre post; simpl; [|reflexivity].
    now rewrite Pipeline_loadLoop_blank. }
  split; [now apply Pipeline_NewRecord_blank|].
  split; [exact Hload|].
  split.
  { intros g header pre post sched tx. unfold Pipeline.processFile.
    cbn [fst snd]. now rewrite Hload. }
  split.
  - intros [h|] pre post tx; simpl; [|reflexivity].
    now apply Refresh_readLoop_blank.
  - intros [h|] pre post tx; simpl; [|reflexivity].
    now rewrite Purge_readLoop_blank.
Qed.

(** C10.  On an empty stream (the read of the header meets the end of the
    input) every [processFile] returns nil and leaves the transaction as it
    was, budget included: no statement was executed. *)
Theorem empty_stream_is_success :
  (forall tx, Refresh.processFile [] tx = Ok tx)
  /\ (forall tx, Purge.processFile [] tx = Ok tx)
  /\ Pipeline.loadAndDeduplicateRecords [] = Ok []
  /\ (forall flag_g sched tx,
        Pipeline.processFile (Pipeline.max flag_g 1) ([], sched) tx = Ok tx).
Proof.
  repeat split. intros flag_g sched tx.
  unfold Pipeline.processFile, Pipeline.max. simpl.
  destruct (flag_g >? 1)%Z eqn:E; [|reflexivity].
  destruct flag_g; try discriminate. reflexivity.
Qed.
End Skips.

Lemma blank_row_skipped_witness :
  isEmptyRecord [""; ""; ""; ""; ""]%string = true
  /\ Pipeline.NewRecordFromStrings (lib := Decimal.lib)
       [""; ""; ""; ""; ""]%string = Err emptyRecordError.
Proof.
  split; [reflexivity|].
  apply (blank_row_skipped (lib := Decimal.lib) [""; ""; ""; ""; ""]%string).
  reflexivity.
Defined.

(** ** The conditional update of [src/main.go] *)

Lemma Exec_Ok {V} (f : gmap Z (Row V) -> gmap Z (Row V)) (tx tx' : Tx V) :
  Exec f tx = Ok tx' -> rows tx' = f (rows tx).
Proof.
  unfold Exec. destruct (budget tx) as [[|k]|]; intros H; inversion H; reflexivity.
Qed.

Lemma insertThenUpdate_rows id a s d v (tx tx' : Tx string) :
  Refresh.insertThenUpdate id a s d v tx = Ok tx' ->
  rows tx' = sqlUpdate (mkRow a s d v) id d
               (sqlInsertOrIgnore id (mkRow a s d v) (rows tx)).
Proof.
  unfold Refresh.insertThenUpdate, Refresh.stmtInsert_Exec,
    Refresh.stmtUpdate_Exec.
  destruct (Exec _ tx) as [tx1| |] eqn:E1; simpl; try discriminate.
  intros E2. apply Exec_Ok in E1. apply Exec_Ok in E2. now rewrite E2, E1.
Qed.

(** C1, as the code has it.  When the table already holds a row [old] for the
    id, the insert is ignored and the update replaces address, suburb, date
    and value exactly when the stored date is less than or equal to the
    incoming date ([WHERE id=? AND Date<=?], "in case the date is newer or
    equal"): the row with the latest date is kept, and an incoming row that is
    older than the stored one changes nothing. *)
Theorem refresh_updates_iff_stored_not_later
    (id : Z) (a s : string) (d : Time) (v : string)
    (tx tx' : Tx string) (old : Row string) :
  rows tx !! id = Some old ->
  Refresh.insertThenUpdate id a s d v tx = Ok tx' ->
  rows tx' = if Time_leb (Date old) d
             then <[id := mkRow a s d v]> (rows tx)
             else rows tx.
Proof.
  intros Hold Hexec. rewrite (insertThenUpdate_rows _ _ _ _ _ _ _ Hexec).
  unfold sqlInsertOrIgnore, sqlUpdate. now rewrite Hold, Hold.
Qed.

Lemma refresh_updates_iff_stored_not_later_witness :
  let old := mkRow "1 Old ST" "Oldtown" (mkTime 2020 1 10) "100" in
  let new := mkRow "2 New RD" "Newtown" (mkTime 2020 1 15) "200" in
  let tx := mkTx {[ 7%Z := old ]} None in
  let tx' := mkTx (<[ 7%Z := new ]> {[ 7%Z := old ]}) None in
  rows tx !! 7%Z = Some old
  /\ Refresh.insertThenUpdate 7 "2 New RD" "Newtown" (mkTime 2020 1 15) "200" tx
     = Ok tx'
  /\ rows tx' = if Time_leb (Date old) (mkTime 2020 1 15)
                then <[ 7%Z := new ]> (rows tx) else rows tx.
Proof.
  cbv zeta. split; [reflexivity|]. split; [reflexivity|].
  exact (refresh_updates_iff_stored_not_later 7 "2 New RD" "Newtown"
           (mkTime 2020 1 15) "200"
           (mkTx {[ 7%Z := mkRow "1 Old ST" "Oldtown" (mkTime 2020 1 10) "100" ]}
              None)
           (mkTx (<[ 7%Z := mkRow "2 New RD" "Newtown" (mkTime 2020 1 15) "200" ]>
                    {[ 7%Z := mkRow "1 Old ST" "Oldtown" (mkTime 2020 1 10) "100" ]})
              None)
           (mkRow "1 Old ST" "Oldtown" (mkTime 2020 1 10) "100")
           eq_refl eq_refl).
Defined.

(** C1 as the specification words it fails on the program: with a stored row
    dated 2020-01-10, a file whose row has the same id and the date 1/5/20
    leaves the table as it was, and a file whose row has the date 1/15/20
    replaces the stored row. *)
Lemma refresh_example_contradicts_spec :
  let stored : gmap Z (Row string) :=
    {[ 7%Z := mkRow "1 Old ST" "Oldtown" (mkTime 2020 1 10) "100" ]} in
  let header := Fields ["id"; "address"; "suburb"; "date"; "value"]%string in
  Refresh.processFile (lib := Decimal.lib)
    [header; Fields ["7"; "2 New RD"; "Newtown"; "1/5/20"; "200"]%string]
    (mkTx stored None)
  = Ok (mkTx stored None)
  /\ Refresh.processFile (lib := Decimal.lib)
       [header; Fields ["7"; "2 New RD"; "Newtown"; "1/15/20"; "200"]%string]
       (mkTx stored None)
     = Ok (mkTx {[ 7%Z := mkRow "2 New RD" "Newtown" (mkTime 2020 1 15) "200" ]}
             None)
  /\ ({[ 7%Z := mkRow "2 New RD" "Newtown" (mkTime 2020 1 15) "200" ]}
      : gmap Z (Row string)) <> stored.
Proof.
  cbv zeta. split; [vm_compute; reflexivity|].
  split; [vm_compute; reflexivity|].
  intros H.
  assert (H7 := f_equal (fun m : gmap Z (Row string) => m !! 7%Z) H).
  vm_compute in H7. discriminate H7.
Qed.

(** ** The chunks of [processFile] in [test_4] *)

Lemma max_Zmax (a b : Z) : Pipeline.max a b = Z.max a b.
Proof. unfold Pipeline.max. destruct (Z.gtb_spec a b); lia. Qed.

Lemma min_Zmin (a b : Z) : Pipeline.min a b = Z.min a b.
Proof. unfold Pipeline.min. destruct (Z.ltb_spec a b); lia. Qed.

Lemma chunkLoop_spec (chunkSize dedupEnd : Z) :
  (0 < chunkSize)%Z ->
  forall (fuel : nat) (chunkStart chunkEnd : Z),
    (0 <= chunkStart)%Z -> (chunkStart <= chunkEnd)%Z ->
    (chunkEnd <= dedupEnd)%Z ->
    (chunkEnd - chunkStart <= chunkSize)%Z ->
    (chunkEnd = dedupEnd \/ chunkEnd - chunkStart = chunkSize)%Z ->
    (Z.to_nat (dedupEnd - chunkEnd) < fuel)%nat ->
    exists bounds,
      Pipeline.chunkLoop fuel chunkSize dedupEnd chunkStart chunkEnd
      = Some bounds
      /\ contiguous chunkStart bounds dedupEnd
      /\ length bounds
         = Z.to_nat (1 + (dedupEnd - chunkEnd + chunkSize - 1) / chunkSize)
      /\ forall (i : nat) (a b : Z), bounds !! i = Some (a, b) ->
           (0 <= a)%Z /\ (b <= dedupEnd)%Z /\ (b - a <= chunkSize)%Z
           /\ ((S i < length bounds)%nat -> (b - a = chunkSize)%Z)
           /\ ((chunkStart < chunkEnd)%Z -> (a < b)%Z).
Proof.
  intros Hpos. induction fuel as [|fuel IH];
    intros s e Hs Hse Hed Hsz Hfull Hfuel; [lia|].
  simpl. destruct (Z.eqb_spec e dedupEnd) as [->|Hne].
  - eexists; split; [reflexivity|]. split; [simpl; auto|]. split.
    + replace (dedupEnd - dedupEnd + chunkSize - 1)%Z with (chunkSize - 1)%Z by lia.
      rewrite Z.div_small by lia. reflexivity.
    + intros [|i] a b Hi; simpl in Hi; [|discriminate].
      inversion Hi; subst a b. simpl. repeat split; try lia.
  - destruct Hfull as [|Hfull]; [contradiction|].
    rewrite min_Zmin.
    destruct (IH e (Z.min (e + chunkSize) dedupEnd)) as (rest & -> & Hc & Hl & Hall);
      try lia.
    eexists; split; [reflexivity|]. split; [simpl; auto|]. split.
    + simpl. rewrite Hl.
      destruct (Z.le_gt_cases (e + chunkSize) dedupEnd) as [Hle|Hgt].
      * rewrite Z.min_l by lia.
        replace (dedupEnd - e + chunkSize - 1)%Z
          with ((dedupEnd - (e + chunkSize) + chunkSize - 1) + 1 * chunkSize)%Z
          by lia.
        rewrite Z.div_add by lia.
        assert (0 <= (dedupEnd - (e + chunkSize) + chunkSize - 1) / chunkSize)%Z
          by (apply Z.div_pos; lia).
        lia.
      * rewrite Z.min_r by lia.
        replace (dedupEnd - dedupEnd + chunkSize - 1)%Z with (chunkSize - 1)%Z
          by lia.
        rewrite Z.div_small by lia.
        replace (dedupEnd - e + chunkSize - 1)%Z
          with ((dedupEnd - e - 1) + 1 * chunkSize)%Z by lia.
        rewrite Z.div_add by lia. rewrite Z.div_small by lia. reflexivity.
    + intros [|i] a b Hi; simpl in Hi.
      * inversion Hi; subst a b. repeat split; try lia.
      * destruct (Hall i a b Hi) as (Ha & Hb & Hsz' & Hfull' & Hne').
        simpl length. repeat split; lia.
Qed.

(** The chunking loop ends within the fuel it is given, whatever the flag. *)
Lemma chunks_total {A} (g : Z) (recordsDedup : list A) :
  exists cs, Pipeline.chunks g recordsDedup = Some cs.
Proof.
  unfold Pipeline.chunks, Pipeline.chunkBounds.
  set (n := Z.of_nat (length recordsDedup)).
  rewrite max_Zmax, min_Zmin.
  destruct (chunkLoop_spec (Z.max (Z.quot n g) 1) n ltac:(lia)
              (S (Z.to_nat n)) 0 (Z.min (Z.max (Z.quot n g) 1) n))
    as (bounds & -> & _); try lia.
  eauto.
Qed.

Lemma firstn_skipn_app {A} (n m : nat) (l : list A) :
  firstn n l ++ firstn m (skipn n l) = firstn (n + m) l.
Proof.
  revert l. induction n as [|n IH]; intros [|x l]; simpl; auto.
  - now rewrite firstn_nil.
  - now rewrite IH.
Qed.

Lemma slice_app {A} (l : list A) (a b c : Z) :
  (0 <= a)%Z -> (a <= b)%Z -> (b <= c)%Z ->
  Pipeline.slice l a b ++ Pipeline.slice l b c = Pipeline.slice l a c.
Proof.
  intros Ha Hab Hbc. unfold Pipeline.slice.
  replace (skipn (Z.to_nat b) l)
    with (skipn (Z.to_nat b - Z.to_nat a) (skipn (Z.to_nat a) l)).
  - rewrite firstn_skipn_app. f_equal. lia.
  - rewrite skipn_skipn. f_equal. lia.
Qed.

Lemma slice_all {A} (l : list A) :
  Pipeline.slice l 0 (Z.of_nat (length l)) = l.
Proof.
  unfold Pipeline.slice. simpl. rewrite Nat.sub_0_r, Nat2Z.id.
  apply firstn_all.
Qed.

Lemma slice_length {A} (l : list A) (a b : Z) :
  (0 <= a)%Z -> (a <= b)%Z -> (b <= Z.of_nat (length l))%Z ->
  length (Pipeline.slice l a b) = Z.to_nat (b - a).
Proof.
  intros Ha Hab Hb. unfold Pipeline.slice.
  rewrite length_firstn, length_skipn. lia.
Qed.

Lemma contiguous_le (lo hi : Z) (bounds : list (Z * Z)) :
  contiguous lo bounds hi -> (lo <= hi)%Z.
Proof.
  revert lo. induction bounds as [|[a b] rest IH]; simpl; intros lo H; [lia|].
  destruct H as (-> & Hab & Hrest). specialize (IH _ Hrest). lia.
Qed.

Lemma concat_contiguous {A} (l : list A) (bounds : list (Z * Z)) (lo hi : Z) :
  (0 <= lo)%Z -> contiguous lo bounds hi ->
  concat (map (fun b => Pipeline.slice l (fst b) (snd b)) bounds)
  = Pipeline.slice l lo hi.
Proof.
  revert lo. induction bounds as [|[a b] rest IH]; simpl; intros lo Hlo H.
  - subst hi. unfold Pipeline.slice. now rewrite Nat.sub_diag.
  - destruct H as (-> & Hab & Hrest).
    rewrite (IH b) by (auto; lia).
    apply slice_app; auto. now apply contiguous_le in Hrest.
Qed.

(** The number of chunks where the remainder of [n] by [W] is at most the
    quotient: [W] of them when the division is exact, one more otherwise. *)
Lemma chunk_count_exact (n W : Z) :
  (1 <= W)%Z -> (0 < n)%Z -> (n mod W = 0)%Z ->
  let chunkSize := Z.max (n / W) 1 in
  Z.to_nat (1 + (n - Z.min chunkSize n + chunkSize - 1) / chunkSize)
  = Z.to_nat W.
Proof.
  intros HW Hn Hr chunkSize.
  pose proof (Z.div_mod n W ltac:(lia)) as Hdm. rewrite Hr in Hdm.
  subst chunkSize. set (q := (n / W)%Z) in *.
  assert (Hq : (1 <= q)%Z) by nia.
  rewrite Z.max_l by lia. rewrite Z.min_l by nia.
  replace (n - q + q - 1)%Z with (n - 1)%Z by lia.
  assert (Hlo : (W - 1 <= (n - 1) / q)%Z)
    by (apply Z.div_le_lower_bound; nia).
  assert (Hhi : ((n - 1) / q < W)%Z)
    by (apply Z.div_lt_upper_bound; nia).
  lia.
Qed.

Lemma chunk_count_one_higher (n W : Z) :
  (1 <= W)%Z -> (0 < n mod W <= n / W)%Z ->
  let chunkSize := Z.max (n / W) 1 in
  Z.to_nat (1 + (n - Z.min chunkSize n + chunkSize - 1) / chunkSize)
  = S (Z.to_nat W).
Proof.
  intros HW Hr chunkSize.
  pose proof (Z.div_mod n W ltac:(lia)) as Hdm.
  subst chunkSize. set (q := (n / W)%Z) in *. set (r := (n mod W)%Z) in *.
  rewrite Z.max_l by lia. rewrite Z.min_l by nia.
  replace (n - q + q - 1)%Z with (n - 1)%Z by lia.
  assert (Hlo : (W <= (n - 1) / q)%Z)
    by (apply Z.div_le_lower_bound; nia).
  assert (Hhi : ((n - 1) / q < W + 1)%Z)
    by (apply Z.div_lt_upper_bound; nia).
  lia.
Qed.

(** C2, as the code has it.  The sequence is cut into contiguous chunks that
    concatenate to it, every chunk but the last of size
    [max (floor (n / W)) 1] and the last no larger (and not empty unless the
    sequence is); the bounds are [chunkBounds n W], computed from [n] and [W]
    alone.  There are [W] chunks when [W] divides a positive [n], and [W + 1]
    (the "one higher because of rounding" of the comment on the flag) when
    the remainder of [n] by [W] is positive and at most [floor (n / W)]. *)
Theorem chunks_have_floor_size {A} (recordsDedup : list A) (W : Z) :
  (1 <= W)%Z ->
  let n := Z.of_nat (length recordsDedup) in
  let chunkSize := Z.max (n / W) 1 in
  exists bounds cs,
    Pipeline.chunkBounds n W = Some bounds
    /\ Pipeline.chunks W recordsDedup = Some cs
    /\ cs = map (fun b => Pipeline.slice recordsDedup (fst b) (snd b)) bounds
    /\ contiguous 0 bounds n
    /\ concat cs = recordsDedup
    /\ (forall (i : nat) (chunk : list A), cs !! i = Some chunk ->
         (Z.of_nat (length chunk) <= chunkSize)%Z
         /\ ((S i < length cs)%nat -> Z.of_nat (length chunk) = chunkSize)
         /\ (recordsDedup <> [] -> chunk <> []))
    /\ ((0 < n)%Z -> (n mod W = 0)%Z -> length cs = Z.to_nat W)
    /\ ((0 < n mod W <= n / W)%Z -> length cs = S (Z.to_nat W)).
Proof.
  intros HW n chunkSize.
  assert (Hn : (0 <= n)%Z) by (subst n; lia).
  assert (Hq : Z.quot n W = (n / W)%Z) by (apply Z.quot_div_nonneg; lia).
  assert (Hcs : (1 <= chunkSize)%Z) by (subst chunkSize; lia).
  destruct (chunkLoop_spec chunkSize n ltac:(lia) (S (Z.to_nat n)) 0
              (Z.min chunkSize n)) as (bounds & Hloop & Hc & Hl & Hall);
    try lia.
  assert (Hbounds : Pipeline.chunkBounds n W = Some bounds).
  { unfold Pipeline.chunkBounds. now rewrite Hq, max_Zmax, min_Zmin. }
  exists bounds, (map (fun b => Pipeline.slice recordsDedup (fst b) (snd b)) bounds).
  split; [exact Hbounds|].
  split; [unfold Pipeline.chunks; fold n; now rewrite Hbounds|].
  split; [reflexivity|]. split; [exact Hc|]. split.
  { rewrite (concat_contiguous _ _ 0 n) by (auto; lia). apply slice_all. }
  split; [|split].
  2: { intros Hpos Hr. rewrite length_map, Hl.
       now apply chunk_count_exact. }
  2: { intros Hr. rewrite length_map, Hl.
       now apply chunk_count_one_higher. }
  intros i chunk Hi.
  rewrite list_lookup_fmap in Hi.
  destruct (bounds !! i) as [[a b]|] eqn:Hb; [|discriminate].
  simpl in Hi. inversion Hi; subst chunk; clear Hi.
  destruct (Hall i a b Hb) as (Ha & Hbn & Hsz & Hfull & Hne).
  assert (Hab : (a <= b)%Z).
  { destruct (Z.le_gt_cases a b); auto.
    assert (n = 0%Z \/ 0 < n)%Z as [Hz|Hp] by lia; [|lia].
    assert (Z.min chunkSize n = 0%Z) as Hm by lia.
    rewrite Hm, Hz in Hloop. simpl in Hloop. inversion Hloop; subst bounds.
    destruct i as [|i]; simpl in Hb; [|discriminate].
    inversion Hb; lia. }
  rewrite slice_length by (auto; lia).
  rewrite length_map. split; [lia|]. split.
  - intros Hlt. specialize (Hfull Hlt). lia.
  - intros Hne0 Hnil.
    assert (0 < n)%Z.
    { subst n. destruct recordsDedup; [contradiction|simpl; lia]. }
    assert (a < b)%Z by (apply Hne; lia).
    apply (f_equal (@length A)) in Hnil.
    rewrite slice_length in Hnil by (auto; lia). simpl in Hnil. lia.
Qed.

Lemma chunks_have_floor_size_witness :
  (1 <= 4)%Z
  /\ exists bounds cs,
       Pipeline.chunkBounds (Z.of_nat (length (seq 0 10))) 4 = Some bounds
       /\ Pipeline.chunks 4 (seq 0 10) = Some cs
       /\ concat cs = seq 0 10
       /\ length cs = 5%nat.
Proof.
  split; [lia|].
  destruct (chunks_have_floor_size (seq 0 10) 4 ltac:(lia))
    as (bounds & cs & H1 & H2 & _ & _ & H3 & _ & _ & H4).
  exists bounds, cs. repeat split; try assumption.
  apply H4. change (0 < 10 mod 4 <= 10 / 4)%Z. split; [reflexivity|discriminate].
Defined.

(** C2 as the specification words it fails on the program: ten records and
    four workers give five chunks of two records, not four chunks of three,
    three, three and one. *)
Lemma chunks_example_contradicts_spec :
  Pipeline.chunks 4 (seq 0 10)
  = Some [[0; 1]; [2; 3]; [4; 5]; [6; 7]; [8; 9]]%nat
  /\ length [[0; 1]; [2; 3]; [4; 5]; [6; 7]; [8; 9]]%nat <> 4%nat
  /\ ((10 + 4 - 1) / 4 = 3)%Z.
Proof.
  split; [reflexivity|]. split; [simpl; lia|reflexivity].
Qed.

(** ** Deduplication in [test_4] *)

Lemma fold_left_select {A} (p : A -> bool) (l acc : list A) :
  fold_left (fun output x => if p x then output ++ [x] else output) l acc
  = acc ++ List.filter p l.
Proof.
  revert acc. induction l as [|x l IH]; intros acc; simpl.
  - now rewrite app_nil_r.
  - rewrite IH. destruct (p x); [now rewrite <- app_assoc|reflexivity].
Qed.

Lemma occurrences_cons (k : Z) (rec : Pipeline.record) records :
  occurrences k (rec :: records)
  = ((if (Pipeline.id rec =? k)%Z then 1 else 0) + occurrences k records)%nat.
Proof. unfold occurrences. simpl. now destruct (Pipeline.id rec =? k)%Z. Qed.

Section Dedup.
Context {lib : GoLib}.

Lemma filterDuplicates_filter records inserts :
  Pipeline.filterDuplicates records inserts
  = List.filter
      (fun rec => (Pipeline.count inserts (Pipeline.id rec) =? 1)%Z) records.
Proof. unfold Pipeline.filterDuplicates. now rewrite fold_left_select. Qed.

Lemma loadLoop_spec (r : Reader) :
  forall records duplicates records' duplicates',
    Pipeline.loadLoop r records duplicates = Ok (records', duplicates') ->
    records' = records ++ parsedRecords r
    /\ forall k, Pipeline.count duplicates' k
                 = (Pipeline.count duplicates k
                    + Z.of_nat (occurrences k (parsedRecords r)))%Z.
Proof.
  induction r as [|[strings|] r IH]; intros records duplicates records'
    duplicates' H; simpl in H.
  - inversion H; subst. simpl. rewrite app_nil_r. split; [reflexivity|].
    intros k. unfold occurrences. simpl. lia.
  - simpl. destruct (Pipeline.NewRecordFromStrings strings) as [rec|e|].
    + apply IH in H as [-> Hc]. split; [now rewrite <- app_assoc|].
      intros k. rewrite Hc, occurrences_cons. unfold Pipeline.count at 1.
      destruct (Z.eqb_spec (Pipeline.id rec) k) as [->|Hne].
      * rewrite lookup_insert_eq. simpl. lia.
      * rewrite lookup_insert_ne by assumption. fold (Pipeline.count duplicates k).
        lia.
    + destruct e; try discriminate. now apply IH in H.
    + discriminate.
  - discriminate.
Qed.

(** C7.  When [loadAndDeduplicateRecords] returns records, the map
    [duplicates] built while reading counts, for every id, the valid records
    of the file with that id, and the result is the subsequence of the valid
    records whose id occurs exactly once, in the order of the file. *)
Theorem dedup_keeps_ids_seen_once (header : readResult) (r : Reader)
    (recordsDedup : list Pipeline.record) :
  Pipeline.loadAndDeduplicateRecords (header :: r) = Ok recordsDedup ->
  (exists duplicates,
      Pipeline.loadLoop r [] ∅ = Ok (parsedRecords r, duplicates)
      /\ forall k, Pipeline.count duplicates k
                   = Z.of_nat (occurrences k (parsedRecords r)))
  /\ recordsDedup
     = List.filter
         (fun rec => (occurrences (Pipeline.id rec) (parsedRecords r) =? 1)%nat)
         (parsedRecords r).
Proof.
  intros H. destruct header as [h|]; simpl in H; [|discriminate].
  destruct (Pipeline.loadLoop r [] ∅) as [[records duplicates]| |] eqn:E;
    simpl in H; try discriminate.
  inversion H; subst recordsDedup; clear H.
  apply loadLoop_spec in E as [-> Hc]. simpl.
  assert (Hcount : forall k, Pipeline.count duplicates k
                   = Z.of_nat (occurrences k (parsedRecords r))).
  { intros k. rewrite Hc. unfold Pipeline.count. now rewrite lookup_empty. }
  split; [exists duplicates; split; [reflexivity|exact Hcount]|].
  rewrite filterDuplicates_filter. apply filter_ext. intros rec.
  rewrite Hcount.
  destruct (Nat.eqb_spec (occurrences (Pipeline.id rec) (parsedRecords r)) 1)
    as [->|Hne]; [reflexivity|].
  apply Z.eqb_neq. lia.
Qed.
End Dedup.

Lemma dedup_keeps_ids_seen_once_witness :
  let header := Fields ["id"; "address"; "suburb"; "date"; "value"] in
  let r := [Fields ["1"; "10 Main AVE"; "Springfield"; "1/2/20"; "500000"];
            Fields ["2"; "20 Oak ST"; "Shelbyville"; "3/4/20"; "350000"];
            Fields ["1"; "10 Main AVE"; "Springfield"; "1/2/20"; "500000"]] in
  let rec2 := Pipeline.mkRecord 2 "20 Oak ST" "Shelbyville" (mkTime 2020 3 4)
                350000 in
  Pipeline.loadAndDeduplicateRecords (lib := Decimal.lib) (header :: r)
  = Ok [rec2]
  /\ [rec2]
     = List.filter
         (fun rec => (occurrences (Pipeline.id rec)
                        (parsedRecords (lib := Decimal.lib) r) =? 1)%nat)
         (parsedRecords (lib := Decimal.lib) r).
Proof.
  cbv zeta. split; [reflexivity|].
  refine (proj2 (dedup_keeps_ids_seen_once (lib := Decimal.lib)
                   (Fields ["id"; "address"; "suburb"; "date"; "value"])
                   _ _ _)).
  reflexivity.
Defined.

(** ** The business filter of [test_4] *)

Lemma succ_mod10 (n : nat) :
  ((n + 1) mod 10
   = if (n mod 10 + 1 =? 10) then 0 else n mod 10 + 1)%nat.
Proof.
  assert (Hlt : (n mod 10 < 10)%nat) by (apply Nat.mod_upper_bound; lia).
  rewrite Nat.Div0.add_mod. rewrite (Nat.mod_small 1) by lia.
  destruct (Nat.eqb_spec (n mod 10 + 1) 10) as [->|Hne]; [reflexivity|].
  apply Nat.mod_small. lia.
Qed.

Section Filter.
Context {lib : GoLib}.

Lemma rank_snoc (records : list Pipeline.record) (rec : Pipeline.record) :
  rank (records ++ [rec])
  = (rank records + if eligible rec then 1 else 0)%nat.
Proof.
  unfold rank. rewrite List.filter_app, length_app. simpl.
  now destruct (eligible rec).
Qed.

Lemma filterStep_cases (out : list Pipeline.record) (i : Z)
    (rec : Pipeline.record) :
  Pipeline.filterStep (out, i) rec
  = if eligible rec
    then if (i + 1 =? 10)%Z then (out, 0%Z) else (out ++ [rec], (i + 1)%Z)
    else (out, i).
Proof.
  unfold Pipeline.filterStep, eligible, belowThreshold, excludedStreet.
  destruct (Pipeline.value rec <? 400000)%Z; simpl; [reflexivity|].
  now destruct (_ || _ || _).
Qed.

(** The counter [i] of the loop is the rank modulo ten. *)
Lemma filter_counter (records : list Pipeline.record) :
  snd (fold_left Pipeline.filterStep records ([], 0%Z))
  = Z.of_nat (rank records mod 10).
Proof.
  induction records as [|rec records IH] using rev_ind; [reflexivity|].
  rewrite fold_left_app, rank_snoc. cbn [fold_left].
  destruct (fold_left Pipeline.filterStep records ([], 0%Z)) as [out i].
  cbn [snd] in IH. rewrite filterStep_cases.
  destruct (eligible rec).
  - rewrite succ_mod10. subst i.
    destruct (Nat.eqb_spec (rank records mod 10 + 1) 10) as [Hten|Hten].
    + destruct (Z.eqb_spec (Z.of_nat (rank records mod 10) + 1) 10);
        [reflexivity|lia].
    + destruct (Z.eqb_spec (Z.of_nat (rank records mod 10) + 1) 10);
        [lia|cbn [snd]; lia].
  - now rewrite Nat.add_0_r.
Qed.

Lemma filter_snoc (records : list Pipeline.record) (rec : Pipeline.record) :
  Pipeline.filter (records ++ [rec])
  = Pipeline.filter records
    ++ (if eligible rec && negb (rank (records ++ [rec]) mod 10 =? 0)%nat
        then [rec] else []).
Proof.
  unfold Pipeline.filter. rewrite fold_left_app. cbn [fold_left].
  pose proof (filter_counter records) as Hi.
  destruct (fold_left Pipeline.filterStep records ([], 0%Z)) as [out i].
  cbn [snd] in Hi. cbn [fst]. rewrite filterStep_cases, rank_snoc.
  destruct (eligible rec); cbn [andb negb fst];
    [|now rewrite app_nil_r].
  rewrite succ_mod10. subst i.
  destruct (Nat.eqb_spec (rank records mod 10 + 1) 10) as [Hten|Hten].
  - destruct (Z.eqb_spec (Z.of_nat (rank records mod 10) + 1) 10); [|lia].
    cbn. now rewrite app_nil_r.
  - destruct (Z.eqb_spec (Z.of_nat (rank records mod 10) + 1) 10); [lia|].
    destruct (Nat.eqb_spec (rank records mod 10 + 1) 0); [lia|reflexivity].
Qed.

Lemma filter_subset (records : list Pipeline.record) (rec : Pipeline.record) :
  In rec (Pipeline.filter records) -> In rec records.
Proof.
  induction records as [|x records IH] using rev_ind; [auto|].
  rewrite filter_snoc, !in_app_iff. intros [H|H]; [left; auto|].
  destruct (_ && _); [right; exact H|destruct H].
Qed.

(** C5.  The filter keeps nothing of the empty chunk, and a record [rec]
    that follows the records [records] in its chunk is kept, after what was
    kept of [records], exactly when its value is at least 400000, its
    trimmed address ends with none of AVE, CRES and PL, and it is not the
    tenth, twentieth, ... record of the chunk to pass these two tests.  The
    count is local to the chunk: each worker of [processFile] holds what the
    filter keeps of its own chunk. *)
Theorem filter_rejects_exactly :
  Pipeline.filter [] = []
  /\ (forall (records : list Pipeline.record) (rec : Pipeline.record),
        Pipeline.filter (records ++ [rec])
        = Pipeline.filter records
          ++ (if negb (Pipeline.value rec <? 400000)%Z
                 && negb (Pipeline.HasSuffix (TrimSpace (Pipeline.address rec)) "AVE"
                          || Pipeline.HasSuffix (TrimSpace (Pipeline.address rec)) "CRES"
                          || Pipeline.HasSuffix (TrimSpace (Pipeline.address rec)) "PL")
                 && negb (rank (records ++ [rec]) mod 10 =? 0)%nat
              then [rec] else []))
  /\ (forall g recordsDedup tx s0,
        Pipeline.start g recordsDedup tx = Some s0 ->
        exists cs, Pipeline.chunks g recordsDedup = Some cs
                   /\ pendings s0 = map Pipeline.filter cs).
Proof.
  split; [reflexivity|]. split; [intros records rec; apply filter_snoc|].
  intros g recordsDedup tx s0 H. unfold Pipeline.start in H.
  destruct (g =? 0)%Z; [discriminate|].
  destruct (Pipeline.chunks g recordsDedup) as [cs|]; [|discriminate].
  inversion H; subst s0. exists cs. split; [reflexivity|].
  unfold pendings. simpl. rewrite map_map. simpl. apply map_id.
Qed.
End Filter.

Lemma filter_rejects_exactly_witness :
  let r1 := Pipeline.mkRecord 1 "1 First ST" "Ayr" (mkTime 2020 1 2) 500000 in
  let r2 := Pipeline.mkRecord 2 "2 Second AVE" "Ayr" (mkTime 2020 1 3) 600000 in
  let r3 := Pipeline.mkRecord 3 "3 Third ST" "Ayr" (mkTime 2020 1 4) 300000 in
  let s0 := Pipeline.spawned [[r1]; []; []] (mkTx ∅ None) in
  Pipeline.start (lib := Decimal.lib) 3 [r1; r2; r3] (mkTx ∅ None) = Some s0
  /\ exists cs, Pipeline.chunks 3 [r1; r2; r3] = Some cs
                /\ pendings s0 = map (Pipeline.filter (lib := Decimal.lib)) cs.
Proof.
  cbv zeta. split; [vm_compute; reflexivity|].
  apply (proj2 (proj2 (filter_rejects_exactly (lib := Decimal.lib)))
           3%Z _ (mkTx ∅ None)).
  vm_compute; reflexivity.
Defined.

(** Eleven records that pass the two tests: the tenth is dropped. *)
Example filter_drops_the_tenth :
  let sale (k : nat) :=
    Pipeline.mkRecord (Z.of_nat k) "1 First ST" "Ayr" (mkTime 2020 1 2) 500000 in
  Pipeline.filter (lib := Decimal.lib) (map sale (seq 1 11))
  = map sale [1; 2; 3; 4; 5; 6; 7; 8; 9; 11]%nat.
Proof. vm_compute. reflexivity. Qed.

(** ** One transaction per file *)

Section MainLoop.
Context {F V : Type} (processFile : F -> Tx V -> result (Tx V)).

Lemma mainLoop_app (db db1 : gmap Z (Row V)) (pre rest : list (F * option nat)) :
  mainLoop processFile db pre = (db1, Finished) ->
  mainLoop processFile db (pre ++ rest) = mainLoop processFile db1 rest.
Proof.
  revert db. induction pre as [|[file b] pre IH]; intros db H; simpl in *.
  - now inversion H.
  - destruct (processFile file (Begin db b)); try discriminate. now apply IH.
Qed.

Lemma mainLoop_failure (db db1 : gmap Z (Row V)) (pre post : list (F * option nat))
    (file : F) (b : option nat) :
  mainLoop processFile db pre = (db1, Finished) ->
  isOk (processFile file (Begin db1 b)) = false ->
  fst (mainLoop processFile db (pre ++ (file, b) :: post)) = db1
  /\ snd (mainLoop processFile db (pre ++ (file, b) :: post)) <> Finished.
Proof.
  intros Hpre Hfail. rewrite (mainLoop_app _ _ _ _ Hpre). simpl.
  destruct (processFile file (Begin db1 b)); [discriminate| |];
    split; simpl; congruence.
Qed.
End MainLoop.

Lemma Exec_spend {V} (f : gmap Z (Row V) -> gmap Z (Row V)) m b :
  Exec f (mkTx m b) = let! b' := spend b in Ok (mkTx (f m) b').
Proof. unfold Exec, spend. simpl. now destruct b as [[|k]|]. Qed.

Section RefreshFacts.
Context {lib : GoLib}.

Lemma processRecord_parse record (tx : Tx string) :
  Refresh.processRecord record tx
  = let! p := RefreshPlan.parseRecord record in
    Refresh.insertThenUpdate (fst p) (Address (snd p)) (Suburb (snd p))
      (Date (snd p)) (Value (snd p)) tx.
Proof.
  unfold Refresh.processRecord, RefreshPlan.parseRecord.
  repeat match goal with
         | |- context [bind ?c _] =>
             lazymatch c with
             | Refresh.insertThenUpdate _ _ _ _ _ _ => fail
             | _ => destruct c; simpl; try reflexivity
             end
         end.
Qed.

Lemma insertThenUpdate_spend id a s d v m b :
  Refresh.insertThenUpdate id a s d v (mkTx m b)
  = let! b1 := spend b in
    let! b2 := spend b1 in
    Ok (mkTx (RefreshPlan.upsert m (id, mkRow a s d v)) b2).
Proof.
  unfold Refresh.insertThenUpdate, Refresh.stmtInsert_Exec,
    Refresh.stmtUpdate_Exec. rewrite Exec_spend.
  destruct (spend b) as [b1| |]; simpl; try reflexivity.
  now rewrite Exec_spend.
Qed.

(** The loop is its plan applied to the table. *)
Lemma readLoop_plan (r : Reader) :
  forall m b,
    Refresh.readLoop r (mkTx m b)
    = let! pl := RefreshPlan.plan r b in
      Ok (mkTx (fold_left RefreshPlan.upsert (fst pl) m) (snd pl)).
Proof.
  induction r as [|[record|] r IH]; intros m b; simpl; try reflexivity.
  destruct (isEmptyRecord record); [apply IH|].
  rewrite processRecord_parse.
  destruct (RefreshPlan.parseRecord record) as [[id [a s d v]]| |]; simpl;
    try reflexivity.
  rewrite insertThenUpdate_spend.
  destruct (spend b) as [b1| |]; simpl; try reflexivity.
  destruct (spend b1) as [b2| |]; simpl; try reflexivity.
  rewrite IH. now destruct (RefreshPlan.plan r b2) as [[ps b3]| |].
Qed.
End RefreshFacts.

(** ** Ingesting a file twice *)

Lemma Time_leb_true (a b : Time) : Time_leb a b = true <-> Time_le a b.
Proof.
  unfold Time_leb, Time_le.
  destruct (Z.ltb_spec (year a) (year b)); [intuition lia|].
  destruct (Z.ltb_spec (year b) (year a)); [intuition (discriminate || lia)|].
  destruct (Z.ltb_spec (month a) (month b)); [intuition lia|].
  destruct (Z.ltb_spec (month b) (month a)); [intuition (discriminate || lia)|].
  rewrite Z.leb_le. intuition lia.
Qed.

Lemma Time_leb_false (a b : Time) : Time_leb a b = false <-> ~ Time_le a b.
Proof.
  rewrite <- Time_leb_true. destruct (Time_leb a b); intuition congruence.
Qed.

Ltac order_dates :=
  repeat match goal with
         | H : Time_leb _ _ = true |- _ => apply Time_leb_true in H
         | H : Time_leb _ _ = false |- _ => apply Time_leb_false in H
         | |- Time_leb _ _ = true => apply Time_leb_true
         | |- Time_leb _ _ = false => apply Time_leb_false
         end;
  unfold Time_le in *; lia.

Lemma Time_leb_refl (a : Time) : Time_leb a a = true.
Proof. order_dates. Qed.

Lemma upsert_lookup (m : gmap Z (Row string)) (p : Z * Row string) (k : Z) :
  RefreshPlan.upsert m p !! k = RefreshPlan.upsertAt k (m !! k) p.
Proof.
  destruct p as [id row].
  unfold RefreshPlan.upsert, RefreshPlan.upsertAt, sqlUpdate, sqlInsertOrIgnore.
  cbn [fst snd].
  destruct (Z.eqb_spec id k) as [->|Hne].
  - destruct (m !! k) as [old|] eqn:Hk.
    + rewrite Hk. destruct (Time_leb (Date old) (Date row));
        [apply lookup_insert_eq|exact Hk].
    + rewrite lookup_insert_eq, Time_leb_refl. now rewrite lookup_insert_eq.
  - destruct (m !! id) as [old|] eqn:Hid.
    + rewrite Hid. destruct (Time_leb (Date old) (Date row)); [|reflexivity].
      now rewrite lookup_insert_ne.
    + rewrite lookup_insert_eq, Time_leb_refl.
      now rewrite !lookup_insert_ne.
Qed.

Lemma fold_upsert_lookup (ps : list (Z * Row string)) (k : Z) :
  forall m, fold_left RefreshPlan.upsert ps m !! k
            = fold_left (RefreshPlan.upsertAt k) ps (m !! k).
Proof.
  induction ps as [|p ps IH]; intros m; simpl; [reflexivity|].
  now rewrite IH, upsert_lookup.
Qed.

(** What a pass leaves at an id, from what it leaves there on an empty table:
    the stored row survives only if it is strictly later. *)
Lemma fold_upsertAt_stored (k : Z) (ps : list (Z * Row string)) (r : Row string) :
  fold_left (RefreshPlan.upsertAt k) ps (Some r)
  = match fold_left (RefreshPlan.upsertAt k) ps None with
    | None => Some r
    | Some best => if Time_leb (Date r) (Date best) then Some best else Some r
    end.
Proof.
  induction ps as [|[id row] ps IH] using rev_ind; [reflexivity|].
  rewrite !fold_left_app. cbn [fold_left]. rewrite IH.
  destruct (fold_left (RefreshPlan.upsertAt k) ps None) as [best|];
    unfold RefreshPlan.upsertAt; cbn [fst snd];
    destruct (id =? k)%Z; try reflexivity.
  destruct (Time_leb (Date r) (Date best)) eqn:E1;
    destruct (Time_leb (Date best) (Date row)) eqn:E2;
    destruct (Time_leb (Date r) (Date row)) eqn:E3;
    try reflexivity; try rewrite E1; try reflexivity;
    exfalso; order_dates.
Qed.

Lemma fold_upsertAt_idem (k : Z) (ps : list (Z * Row string))
    (x : option (Row string)) :
  fold_left (RefreshPlan.upsertAt k) ps (fold_left (RefreshPlan.upsertAt k) ps x)
  = fold_left (RefreshPlan.upsertAt k) ps x.
Proof.
  destruct x as [r|].
  - rewrite (fold_upsertAt_stored k ps r).
    destruct (fold_left (RefreshPlan.upsertAt k) ps None) as [best|] eqn:E.
    + destruct (Time_leb (Date r) (Date best)) eqn:E1;
        rewrite fold_upsertAt_stored, E.
      * now rewrite Time_leb_refl.
      * now rewrite E1.
    + now rewrite fold_upsertAt_stored, E.
  - destruct (fold_left (RefreshPlan.upsertAt k) ps None) as [best|] eqn:E;
      [|exact E].
    now rewrite fold_upsertAt_stored, E, Time_leb_refl.
Qed.

Lemma fold_upsert_idem (ps : list (Z * Row string)) (m : gmap Z (Row string)) :
  fold_left RefreshPlan.upsert ps (fold_left RefreshPlan.upsert ps m)
  = fold_left RefreshPlan.upsert ps m.
Proof.
  apply map_eq. intros k.
  rewrite !fold_upsert_lookup. apply fold_upsertAt_idem.
Qed.

(** A run of [src/main.go] over a file, started on the table an identical run
    over the same file has left, leaves that table unchanged; this includes
    the runs that fail and roll back. *)
Lemma refresh_ingest_twice `{lib : GoLib} (file : Reader) (b : option nat)
    (db : gmap Z (Row string)) :
  ingest Refresh.processFile file b (ingest Refresh.processFile file b db)
  = ingest Refresh.processFile file b db.
Proof.
  unfold ingest. simpl. unfold Begin, Commit.
  destruct file as [|[header|] r]; simpl; try reflexivity.
  rewrite !readLoop_plan.
  destruct (RefreshPlan.plan r b) as [[ps b']| |] eqn:E; simpl;
    rewrite ?readLoop_plan, ?E; simpl; try reflexivity.
  apply fold_upsert_idem.
Qed.

(** ** The order of reception and the writes *)

Lemma takeFrom_perm (k : nat) outs rec outs' :
  Pipeline.takeFrom k outs = Some (rec, outs') ->
  Permutation (concat outs) (rec :: concat outs').
Proof.
  unfold Pipeline.takeFrom.
  destruct (outs !! k) as [[|rec0 rest]|] eqn:Hk; try discriminate.
  intros H; inversion H; subst rec0 outs'; clear H.
  assert (Hlt : (k < length outs)%nat) by (eapply lookup_lt_Some; eauto).
  rewrite insert_take_drop by assumption.
  rewrite <- (take_drop_middle outs k (rec :: rest) Hk) at 1.
  rewrite !concat_app. simpl.
  symmetry. apply Permutation_middle.
Qed.

Lemma takeFirst_concat outs rec outs' :
  Pipeline.takeFirst outs = Some (rec, outs') ->
  concat outs = rec :: concat outs'.
Proof.
  revert rec outs'. induction outs as [|[|x rest] others IH];
    intros rec outs' H; simpl in H; try discriminate.
  - destruct (Pipeline.takeFirst others) as [[rec1 others']|]; try discriminate.
    inversion H; subst. simpl. now apply IH.
  - inversion H; subst. reflexivity.
Qed.

Lemma takeFirst_none outs :
  Pipeline.takeFirst outs = None -> concat outs = [].
Proof.
  induction outs as [|[|x rest] others IH]; simpl; intros H; auto;
    try discriminate.
  destruct (Pipeline.takeFirst others) as [[rec1 others']|]; try discriminate.
  auto.
Qed.

Lemma interleaveN_perm (n : nat) :
  forall sched outs, length (concat outs) = n ->
    Permutation (Pipeline.interleaveN n sched outs) (concat outs).
Proof.
  induction n as [|n IH]; intros sched outs Hn; simpl.
  - destruct (concat outs); [constructor|discriminate].
  - destruct (Pipeline.takeFrom (hd 0%nat sched) outs) as [[rec outs']|] eqn:E.
    + apply takeFrom_perm in E. rewrite E. constructor. apply IH.
      apply Permutation_length in E. simpl in E. lia.
    + destruct (Pipeline.takeFirst outs) as [[rec outs']|] eqn:E1.
      * apply takeFirst_concat in E1. rewrite E1. constructor. apply IH.
        rewrite E1 in Hn. simpl in Hn. lia.
      * apply takeFirst_none in E1. rewrite E1 in Hn. discriminate.
Qed.

Lemma interleave_perm sched outs :
  Permutation (Pipeline.interleave sched outs) (concat outs).
Proof. now apply interleaveN_perm. Qed.

Lemma writeAll_spend (recs : list Pipeline.record) :
  forall m b,
    Pipeline.writeAll recs (mkTx m b)
    = match b with
      | Some k =>
          if (length recs <=? k)%nat
          then Ok (mkTx (fold_left (fun m rec =>
                           sqlInsertOrReplace (Pipeline.id rec)
                             (mkRow (Pipeline.address rec) (Pipeline.suburb rec)
                                (Pipeline.date rec) (Pipeline.value rec)) m)
                         recs m) (Some (k - length recs)%nat))
          else Err storeError
      | None =>
          Ok (mkTx (fold_left (fun m rec =>
                      sqlInsertOrReplace (Pipeline.id rec)
                        (mkRow (Pipeline.address rec) (Pipeline.suburb rec)
                           (Pipeline.date rec) (Pipeline.value rec)) m)
                    recs m) None)
      end.
Proof.
  induction recs as [|rec recs IH]; intros m b; simpl.
  - destruct b as [k|]; [|reflexivity]. now rewrite Nat.sub_0_r.
  - unfold Pipeline.stmt_Exec. rewrite Exec_spend.
    destruct b as [[|k]|]; simpl; try reflexivity; rewrite IH; reflexivity.
Qed.

Lemma writeAll_untouched (recs : list Pipeline.record) (k : Z) :
  (forall rec, In rec recs -> Pipeline.id rec <> k) ->
  forall tx tx', Pipeline.writeAll recs tx = Ok tx' ->
                 rows tx' !! k = rows tx !! k.
Proof.
  induction recs as [|rec recs IH]; intros Hne tx tx' H; simpl in H.
  - now inversion H.
  - unfold Pipeline.stmt_Exec in H.
    destruct (Exec _ tx) as [tx1| |] eqn:E; simpl in H; try discriminate.
    rewrite (IH (fun r Hr => Hne r (or_intror Hr)) _ _ H).
    rewrite (Exec_Ok _ _ _ E). unfold sqlInsertOrReplace.
    apply lookup_insert_ne. apply Hne. now left.
Qed.

(** ** A failing file leaves the table as it was *)

Section Atomicity.
Context {lib : GoLib}.

Lemma Refresh_parse_malformed (strings : list string) :
  malformed ParseInt time_Parse None strings ->
  isOk (RefreshPlan.parseRecord strings) = false.
Proof.
  intros [_ [(s0 & H0 & Hp)|[(s3 & H3 & Hp)|(parse & s4 & Hnone & _)]]];
    [| |discriminate]; unfold RefreshPlan.parseRecord, index.
  - rewrite H0. cbn [bind]. now rewrite Hp.
  - rewrite H3.
    destruct (nth_error strings 0); cbn [bind]; [|reflexivity].
    destruct (ParseInt _); cbn [bind orErr]; [|reflexivity].
    now rewrite Hp.
Qed.

Lemma Refresh_malformed_fails (rows0 rows1 : Reader) (strings : list string) :
  malformed ParseInt time_Parse None strings ->
  forall tx,
    isOk (Refresh.readLoop (rows0 ++ Fields strings :: rows1) tx) = false.
Proof.
  intros Hbad. induction rows0 as [|[record|] rows0 IH]; intros tx; simpl.
  - destruct Hbad as [Hnb Hbad']. rewrite Hnb, processRecord_parse.
    pose proof (Refresh_parse_malformed strings (conj Hnb Hbad')) as Hp.
    now destruct (RefreshPlan.parseRecord strings).
  - destruct (isEmptyRecord record); [apply IH|].
    destruct (Refresh.processRecord record tx); simpl; auto.
  - reflexivity.
Qed.

Lemma plan_budget (r : Reader) :
  forall k ps b',
    RefreshPlan.plan r (Some k) = Ok (ps, b') ->
    (2 * nonBlank r <= k)%nat /\ b' = Some (k - 2 * nonBlank r)%nat.
Proof.
  induction r as [|[record|] r IH]; intros k ps b' H; simpl in *.
  - inversion H; subst. split; [lia|]. f_equal. lia.
  - destruct (isEmptyRecord record); [now apply IH in H|].
    destruct (RefreshPlan.parseRecord record); simpl in H; try discriminate.
    destruct k as [|[|k]]; simpl in H; try discriminate.
    destruct (RefreshPlan.plan r (Some k)) as [[ps1 b1]| |] eqn:E;
      simpl in H; try discriminate.
    inversion H; subst. apply IH in E as [Hle ->]. split; [lia|].
    f_equal. lia.
  - discriminate.
Qed.

Lemma Refresh_short_budget_fails (r : Reader) (k : nat) m :
  (k < 2 * nonBlank r)%nat ->
  isOk (Refresh.readLoop r (mkTx m (Some k))) = false.
Proof.
  intros Hk. rewrite readLoop_plan.
  destruct (RefreshPlan.plan r (Some k)) as [[ps b']| |] eqn:E; try reflexivity.
  apply plan_budget in E. lia.
Qed.

Lemma NewRecord_malformed (strings : list string) :
  malformed Atoi time_Parse (Some Atoi) strings ->
  match Pipeline.NewRecordFromStrings strings with
  | Ok _ => False
  | Err e => e <> emptyRecordError
  | Panic => True
  end.
Proof.
  intros [Hnb Hbad]. unfold Pipeline.NewRecordFromStrings, index.
  rewrite Hnb.
  destruct (nth_error strings 0) as [s0|] eqn:E0; cbn [bind]; [|exact I].
  destruct (Atoi s0) eqn:A0; cbn [bind orErr]; [|discriminate].
  destruct (nth_error strings 1); cbn [bind]; [|exact I].
  destruct (nth_error strings 2); cbn [bind]; [|exact I].
  destruct (nth_error strings 3) as [s3|] eqn:E3; cbn [bind]; [|exact I].
  destruct (time_Parse s3) eqn:A3; cbn [bind orErr]; [|discriminate].
  destruct (nth_error strings 4) as [s4|] eqn:E4; cbn [bind]; [|exact I].
  destruct (Atoi s4) eqn:A4; cbn [bind orErr]; [|discriminate].
  destruct Hbad as [(x & Hx & Hp)|[(x & Hx & Hp)|(parse & x & Hparse & Hx & Hp)]].
  - congruence.
  - congruence.
  - inversion Hparse; subst parse. congruence.
Qed.

Lemma Pipeline_malformed_fails (rows0 rows1 : Reader) (strings : list string) :
  malformed Atoi time_Parse (Some Atoi) strings ->
  forall records duplicates,
    isOk (Pipeline.loadLoop (rows0 ++ Fields strings :: rows1)
            records duplicates) = false.
Proof.
  intros Hbad. apply NewRecord_malformed in Hbad.
  induction rows0 as [|[record|] rows0 IH]; intros records duplicates; simpl.
  - destruct (Pipeline.NewRecordFromStrings strings) as [rec|e|];
      [contradiction| |reflexivity].
    now destruct e.
  - destruct (Pipeline.NewRecordFromStrings record) as [rec|[]|]; auto.
  - reflexivity.
Qed.

Lemma Pipeline_short_budget_fails g (file : Reader * list nat) recordsDedup cs
    (k : nat) m :
  Pipeline.loadAndDeduplicateRecords (fst file) = Ok recordsDedup ->
  Pipeline.chunks g recordsDedup = Some cs ->
  (k < length (concat (map Pipeline.filter cs)))%nat ->
  isOk (Pipeline.processFile g file (mkTx m (Some k))) = false.
Proof.
  intros Hload Hcs Hk. unfold Pipeline.processFile.
  rewrite Hload. simpl. destruct (g =? 0)%Z; [reflexivity|].
  rewrite Hcs, writeAll_spend.
  rewrite (Permutation_length (interleave_perm _ _)).
  destruct (Nat.leb_spec (length (concat (map Pipeline.filter cs))) k);
    [lia|reflexivity].
Qed.

(** C6.  In a run over several files, when the files before [file] have
    been committed, leaving the table [db1], and [processFile] does not
    return nil on [file] (in particular when one of its data rows is
    malformed, or when the store accepts fewer executions than the file
    needs), the run ends there, not finished, and the table is [db1]:
    nothing of [file] is in it, and what the earlier files wrote is. *)
Theorem failing_file_is_rolled_back :
  (forall db pre (file : Reader) b post db1,
      Refresh.main db pre = (db1, Finished) ->
      hasMalformedRow ParseInt time_Parse None file
      \/ (exists header r k,
            file = header :: r /\ b = Some k /\ (k < 2 * nonBlank r)%nat)
      \/ isOk (Refresh.processFile file (Begin db1 b)) = false ->
      fst (Refresh.main db (pre ++ (file, b) :: post)) = db1
      /\ snd (Refresh.main db (pre ++ (file, b) :: post)) <> Finished)
  /\ (forall flag_g db pre (file : Reader * list nat) b post db1,
        Pipeline.main flag_g db pre = (db1, Finished) ->
        hasMalformedRow Atoi time_Parse (Some Atoi) (fst file)
        \/ (exists recordsDedup cs k,
              Pipeline.loadAndDeduplicateRecords (fst file) = Ok recordsDedup
              /\ Pipeline.chunks (Pipeline.max flag_g 1) recordsDedup = Some cs
              /\ b = Some k
              /\ (k < length (concat (map Pipeline.filter cs)))%nat)
        \/ isOk (Pipeline.processFile (Pipeline.max flag_g 1) file (Begin db1 b))
           = false ->
        fst (Pipeline.main flag_g db (pre ++ (file, b) :: post)) = db1
        /\ snd (Pipeline.main flag_g db (pre ++ (file, b) :: post)) <> Finished).
Proof.
  split.
  - intros db pre file b post db1 Hpre Hfail.
    apply mainLoop_failure; [exact Hpre|].
    destruct Hfail as [(header & rows0 & strings & rows1 & -> & Hbad)
                      |[(header & r & k & -> & -> & Hk)|Hfail]].
    + destruct header; simpl; [|reflexivity].
      now apply Refresh_malformed_fails.
    + destruct header; simpl; [|reflexivity].
      now apply Refresh_short_budget_fails.
    + exact Hfail.
  - intros flag_g db pre file b post db1 Hpre Hfail.
    apply mainLoop_failure; [exact Hpre|].
    destruct Hfail as [(header & rows0 & strings & rows1 & Hfile & Hbad)
                      |[(recordsDedup & cs & k & Hload & Hcs & -> & Hk)|Hfail]].
    + unfold Pipeline.processFile. rewrite Hfile. simpl.
      destruct header; simpl; [|reflexivity].
      pose proof (Pipeline_malformed_fails rows0 rows1 strings Hbad [] ∅) as Hl.
      now destruct (Pipeline.loadLoop _ _ _).
    + eapply Pipeline_short_budget_fails; eauto.
    + exact Hfail.
Qed.
End Atomicity.

Lemma failing_file_is_rolled_back_witness :
  let header := Fields ["id"; "address"; "suburb"; "date"; "value"] in
  let good := [header; Fields ["1"; "1 Old ST"; "Oldtown"; "1/10/20"; "100"]] in
  let bad := [header; Fields ["2"; "2 New RD"; "Newtown"; "1/15/20"; "200"];
              Fields ["x"; "3 Bad LN"; "Newtown"; "1/16/20"; "300"]] in
  let db1 : gmap Z (Row string) :=
    {[ 1%Z := mkRow "1 Old ST" "Oldtown" (mkTime 2020 1 10) "100" ]} in
  Refresh.main (lib := Decimal.lib) ∅ [(good, None)] = (db1, Finished)
  /\ fst (Refresh.main (lib := Decimal.lib) ∅
            ([(good, None)] ++ (bad, None) :: [(good, None)])) = db1
  /\ snd (Refresh.main (lib := Decimal.lib) ∅
            ([(good, None)] ++ (bad, None) :: [(good, None)])) <> Finished.
Proof.
  cbv zeta. split; [reflexivity|].
  apply (proj1 (failing_file_is_rolled_back (lib := Decimal.lib))).
  - reflexivity.
  - left.
    exists (Fields ["id"; "address"; "suburb"; "date"; "value"]),
      [Fields ["2"; "2 New RD"; "Newtown"; "1/15/20"; "200"]],
      ["x"; "3 Bad LN"; "Newtown"; "1/16/20"; "300"], [].
    split; [reflexivity|]. split; [reflexivity|].
    left. exists "x". split; reflexivity.
Defined.

(** ** Identifiers that occur twice in a file *)

Section PurgeFacts.
Context {lib : GoLib}.

Lemma Purge_processRecord_inv record tx d tx' d' :
  Purge.processRecord record (tx, d) = Ok (tx', d') ->
  exists s0 id row,
    nth_error record 0 = Some s0 /\ ParseInt s0 = Some id
    /\ Exec (sqlInsertOrIgnore id row) tx = Ok tx'
    /\ d' = if (insertAffected id (rows tx) =? 0)%Z then {[id]} ∪ d else d.
Proof.
  unfold Purge.processRecord, Purge.stmt_Exec, index.
  destruct (nth_error record 0) as [s0|]; cbn [bind]; [|discriminate].
  destruct (ParseInt s0) as [id|] eqn:Hid; cbn [bind orErr]; [|discriminate].
  destruct (nth_error record 3) as [s3|]; cbn [bind]; [|discriminate].
  destruct (time_Parse s3) as [date|]; cbn [bind orErr]; [|discriminate].
  destruct (nth_error record 1) as [a|]; cbn [bind]; [|discriminate].
  destruct (nth_error record 2) as [sb|]; cbn [bind]; [|discriminate].
  destruct (nth_error record 4) as [v|]; cbn [bind]; [|discriminate].
  destruct (Exec _ tx) as [tx1| |] eqn:E; cbn [bind]; try discriminate.
  intros H. exists s0, id, (mkRow a sb date v).
  destruct (insertAffected id (rows tx) =? 0)%Z; inversion H; subst;
    repeat split; auto.
Qed.

Lemma insertOrIgnore_present {V} id (row : Row V) (m : gmap Z (Row V)) k :
  is_Some (m !! k) -> is_Some (sqlInsertOrIgnore id row m !! k).
Proof.
  unfold sqlInsertOrIgnore. intros Hk.
  destruct (m !! id) eqn:E; [exact Hk|].
  destruct (Z.eq_dec id k) as [->|Hne];
    [rewrite lookup_insert_eq; eauto|now rewrite lookup_insert_ne].
Qed.

Lemma insertOrIgnore_self {V} id (row : Row V) (m : gmap Z (Row V)) :
  is_Some (sqlInsertOrIgnore id row m !! id).
Proof.
  unfold sqlInsertOrIgnore. destruct (m !! id) eqn:E;
    [rewrite E; eauto|rewrite lookup_insert_eq; eauto].
Qed.

Lemma Purge_processRecord_mono record tx d tx' d' :
  Purge.processRecord record (tx, d) = Ok (tx', d') ->
  (forall k, is_Some (rows tx !! k) -> is_Some (rows tx' !! k))
  /\ d ⊆ d'.
Proof.
  intros H. apply Purge_processRecord_inv in H
    as (s0 & id & row & _ & _ & E & ->).
  apply Exec_Ok in E. rewrite E. split.
  - intros k. apply insertOrIgnore_present.
  - destruct (_ =? 0)%Z; set_solver.
Qed.

Lemma Purge_processRecord_id record tx d tx' d' k :
  hasId ParseInt k record ->
  Purge.processRecord record (tx, d) = Ok (tx', d') ->
  is_Some (rows tx' !! k) /\ (is_Some (rows tx !! k) -> k ∈ d').
Proof.
  intros [_ (s & Hs & Hk)] H. apply Purge_processRecord_inv in H
    as (s0 & id & row & H0 & Hid & E & ->).
  assert (id = k) as -> by congruence.
  apply Exec_Ok in E. rewrite E. split; [apply insertOrIgnore_self|].
  intros [old Hold]. unfold insertAffected. rewrite Hold. simpl. set_solver.
Qed.

Lemma Purge_readLoop_mono (r : Reader) :
  forall tx d tx' d',
    Purge.readLoop r (tx, d) = Ok (tx', d') ->
    (forall k, is_Some (rows tx !! k) -> is_Some (rows tx' !! k))
    /\ d ⊆ d'.
Proof.
  induction r as [|[record|] r IH]; intros tx d tx' d' H;
    cbn [Purge.readLoop] in H.
  - inversion H; subst. split; [auto|set_solver].
  - destruct (isEmptyRecord record); [now apply IH|].
    destruct (Purge.processRecord record (tx, d)) as [[tx1 d1]| |] eqn:E;
      cbn [bind] in H; try discriminate.
    apply Purge_processRecord_mono in E as [E1 E2].
    destruct (IH _ _ _ _ H) as [H1 H2]. split; [auto|now transitivity d1].
  - discriminate.
Qed.

Lemma Purge_readLoop_app (a b : Reader) :
  forall st,
    Purge.readLoop (a ++ b) st
    = let! st' := Purge.readLoop a st in Purge.readLoop b st'.
Proof.
  induction a as [|[record|] a IH]; intros st; cbn [app Purge.readLoop bind];
    try reflexivity.
  destruct (isEmptyRecord record); [apply IH|].
  destruct (Purge.processRecord record st); cbn [bind]; auto.
Qed.

Lemma Purge_readLoop_twice (r : Reader) (k : Z) tx d tx' d' :
  appearsTwice ParseInt k r ->
  Purge.readLoop r (tx, d) = Ok (tx', d') -> k ∈ d'.
Proof.
  intros (rows0 & ri & rows1 & rj & rows2 & -> & Hi & Hj) H.
  rewrite Purge_readLoop_app in H.
  destruct (Purge.readLoop rows0 (tx, d)) as [[tx0 d0]| |];
    cbn [bind Purge.readLoop] in H; try discriminate.
  rewrite (proj1 Hi) in H.
  destruct (Purge.processRecord ri (tx0, d0)) as [[tx1 d1]| |] eqn:E1;
    cbn [bind] in H; try discriminate.
  rewrite Purge_readLoop_app in H.
  destruct (Purge.readLoop rows1 (tx1, d1)) as [[tx2 d2]| |] eqn:E2;
    cbn [bind Purge.readLoop] in H; try discriminate.
  rewrite (proj1 Hj) in H.
  destruct (Purge.processRecord rj (tx2, d2)) as [[tx3 d3]| |] eqn:E3;
    cbn [bind] in H; try discriminate.
  apply (Purge_processRecord_id _ _ _ _ _ k Hi) in E1 as [Hin _].
  apply Purge_readLoop_mono in E2 as [Hdom _].
  apply (Purge_processRecord_id _ _ _ _ _ k Hj) in E3 as [_ Hdup].
  apply Purge_readLoop_mono in H as [_ Hsub].
  apply Hsub, Hdup, Hdom, Hin.
Qed.

Lemma removeLoop_keeps_absent (ids : list Z) (k : Z) :
  forall tx tx', Purge.removeLoop ids tx = Ok tx' ->
                 rows tx !! k = None -> rows tx' !! k = None.
Proof.
  induction ids as [|id ids IH]; intros tx tx' H Hk; simpl in H.
  - now inversion H; subst.
  - destruct (Exec (sqlDelete id) tx) as [tx1| |] eqn:E; simpl in H;
      try discriminate.
    apply (IH _ _ H). rewrite (Exec_Ok _ _ _ E). unfold sqlDelete.
    destruct (Z.eq_dec id k) as [->|Hne];
      [apply lookup_delete_eq|now rewrite lookup_delete_ne].
Qed.

Lemma removeLoop_removes (ids : list Z) (k : Z) :
  In k ids ->
  forall tx tx', Purge.removeLoop ids tx = Ok tx' -> rows tx' !! k = None.
Proof.
  induction ids as [|id ids IH]; intros Hin tx tx' H; [destruct Hin|].
  simpl in H.
  destruct (Exec (sqlDelete id) tx) as [tx1| |] eqn:E; simpl in H;
    try discriminate.
  destruct (Z.eq_dec id k) as [->|Hne].
  - apply (removeLoop_keeps_absent _ _ _ _ H).
    rewrite (Exec_Ok _ _ _ E). apply lookup_delete_eq.
  - destruct Hin as [Heq|Hin]; [contradiction|]. eapply IH; eauto.
Qed.

Lemma Purge_twice_absent (header : readResult) (r : Reader) (k : Z) tx tx' :
  appearsTwice ParseInt k r ->
  Purge.processFile (header :: r) tx = Ok tx' -> rows tx' !! k = None.
Proof.
  intros Htwice H. destruct header; simpl in H; [|discriminate].
  destruct (Purge.readLoop r (tx, ∅)) as [[tx1 d1]| |] eqn:E; simpl in H;
    try discriminate.
  apply (Purge_readLoop_twice _ k _ _ _ _ Htwice) in E.
  unfold Purge.removeSalesWithIds in H.
  eapply removeLoop_removes; [|exact H].
  apply list_elem_of_In. now apply elem_of_elements.
Qed.
End PurgeFacts.

(** [part_000] as a whole follows another policy, deletion on conflict: a file
    with one row, ingested into the empty table, leaves that row; ingested
    again, the insert affects nothing, the id counts as a conflict and
    [removeSalesWithIds] deletes the row. *)
Lemma purge_ingest_twice_differs :
  let file := [Fields ["id"; "address"; "suburb"; "date"; "value"];
               Fields ["1"; "1 Old ST"; "Oldtown"; "1/10/20"; "100"]] in
  let once : gmap Z (Row string) :=
    {[ 1%Z := mkRow "1 Old ST" "Oldtown" (mkTime 2020 1 10) "100" ]} in
  ingest (Purge.processFile (lib := Decimal.lib)) file None ∅ = once
  /\ ingest (Purge.processFile (lib := Decimal.lib)) file None
       (ingest (Purge.processFile (lib := Decimal.lib)) file None ∅) = ∅
  /\ ingest (Purge.processFile (lib := Decimal.lib)) file None
       (ingest (Purge.processFile (lib := Decimal.lib)) file None ∅)
     <> ingest (Purge.processFile (lib := Decimal.lib)) file None ∅.
Proof.
  cbv zeta.
  assert (H1 : ingest (Purge.processFile (lib := Decimal.lib))
                 [Fields ["id"; "address"; "suburb"; "date"; "value"];
                  Fields ["1"; "1 Old ST"; "Oldtown"; "1/10/20"; "100"]] None ∅
               = {[ 1%Z := mkRow "1 Old ST" "Oldtown" (mkTime 2020 1 10) "100" ]})
    by (vm_compute; reflexivity).
  rewrite H1.
  assert (H2 : ingest (Purge.processFile (lib := Decimal.lib))
                 [Fields ["id"; "address"; "suburb"; "date"; "value"];
                  Fields ["1"; "1 Old ST"; "Oldtown"; "1/10/20"; "100"]] None
                 {[ 1%Z := mkRow "1 Old ST" "Oldtown" (mkTime 2020 1 10) "100" ]}
               = ∅)
    by (vm_compute; reflexivity).
  rewrite H2. split; [reflexivity|]. split; [reflexivity|].
  intros H. assert (H' := f_equal (fun m : gmap Z (Row string) => m !! 1%Z) H).
  vm_compute in H'. discriminate H'.
Qed.

(** ** Inserting or ignoring the same rows again *)

Section InsertAgain.
Context {lib : GoLib}.

Lemma insertOrIgnore_stored {V} id (row : Row V) (m : gmap Z (Row V)) :
  is_Some (m !! id) -> sqlInsertOrIgnore id row m = m.
Proof. unfold sqlInsertOrIgnore. now intros [old ->]. Qed.

Lemma Purge_processRecord_again record tx d tx1 d1
    (m' : gmap Z (Row string)) (d' : gset Z) :
  Purge.processRecord record (tx, d) = Ok (tx1, d1) ->
  (forall k, is_Some (rows tx1 !! k) -> is_Some (m' !! k)) ->
  exists d2,
    Purge.processRecord record (mkTx m' (budget tx), d')
    = Ok (mkTx m' (budget tx1), d2).
Proof.
  destruct tx as [m b].
  unfold Purge.processRecord, Purge.stmt_Exec, index. cbn [budget].
  destruct (nth_error record 0) as [s0|]; cbn [bind]; [|discriminate].
  destruct (ParseInt s0) as [id|]; cbn [bind orErr]; [|discriminate].
  destruct (nth_error record 3) as [s3|]; cbn [bind]; [|discriminate].
  destruct (time_Parse s3) as [date|]; cbn [bind orErr]; [|discriminate].
  destruct (nth_error record 1) as [a|]; cbn [bind]; [|discriminate].
  destruct (nth_error record 2) as [sb|]; cbn [bind]; [|discriminate].
  destruct (nth_error record 4) as [v|]; cbn [bind]; [|discriminate].
  unfold Exec. cbn [budget rows].
  destruct b as [[|k]|]; cbn [bind]; try discriminate; intros H Hdom.
  - assert (tx1 = mkTx (sqlInsertOrIgnore id (mkRow a sb date v) m) (Some k))
      as -> by (destruct (_ =? 0)%Z; now inversion H).
    cbn [rows budget] in *.
    rewrite insertOrIgnore_stored by apply Hdom, insertOrIgnore_self.
    destruct (insertAffected id m' =? 0)%Z; eauto.
  - assert (tx1 = mkTx (sqlInsertOrIgnore id (mkRow a sb date v) m) None)
      as -> by (destruct (_ =? 0)%Z; now inversion H).
    cbn [rows budget] in *.
    rewrite insertOrIgnore_stored by apply Hdom, insertOrIgnore_self.
    destruct (insertAffected id m' =? 0)%Z; eauto.
Qed.

(** The loop of [part_000], run over rows it has already inserted or found
    present: every execution is accepted as before and none changes the
    table. *)
Lemma Purge_readLoop_again (r : Reader) :
  forall tx d tx1 d1 (m' : gmap Z (Row string)) (d' : gset Z),
    Purge.readLoop r (tx, d) = Ok (tx1, d1) ->
    (forall k, is_Some (rows tx1 !! k) -> is_Some (m' !! k)) ->
    exists d2,
      Purge.readLoop r (mkTx m' (budget tx), d') = Ok (mkTx m' (budget tx1), d2).
Proof.
  induction r as [|[record|] r IH]; intros tx d tx1 d1 m' d' H Hdom;
    cbn [Purge.readLoop] in *.
  - inversion H; subst. eauto.
  - destruct (isEmptyRecord record); [now apply (IH _ _ _ _ _ _ H)|].
    destruct (Purge.processRecord record (tx, d)) as [[tx0 d0]| |] eqn:E;
      cbn [bind] in H; try discriminate.
    destruct (Purge_readLoop_mono _ _ _ _ _ H) as [Hmono _].
    destruct (Purge_processRecord_again _ _ _ _ _ m' d' E) as [d3 ->];
      [auto|].
    cbn [bind]. apply (IH _ _ _ _ _ _ H Hdom).
  - discriminate.
Qed.
End InsertAgain.

(** C3.  Ingesting a file a second time with the insert-or-ignore policy
    leaves the table the first ingestion left.  For [src/main.go], whose
    update after the insert does not disturb this: a run over the file,
    started on the table an identical run has left, ends with that table,
    the runs that fail and roll back included.  For the [INSERT OR IGNORE]
    loop of [part_000]: over the same rows and on the table it has left, the
    loop succeeds again and leaves the table as it is.  (The deletions that
    follow the loop in [part_000] are the other policy, deletion on
    conflict.) *)
Theorem ingest_twice_insert_or_ignore `{lib : GoLib} (b : option nat)
    (db : gmap Z (Row string)) :
  (forall file : Reader,
     ingest Refresh.processFile file b (ingest Refresh.processFile file b db)
     = ingest Refresh.processFile file b db)
  /\ (forall (r : Reader) (d : gset Z) (tx1 : Tx string) (d1 : gset Z),
        Purge.readLoop r (mkTx db b, d) = Ok (tx1, d1) ->
        forall d' : gset Z, exists d2,
          Purge.readLoop r (mkTx (rows tx1) b, d')
          = Ok (mkTx (rows tx1) (budget tx1), d2)).
Proof.
  split.
  - intros file. apply refresh_ingest_twice.
  - intros r d tx1 d1 H d'.
    apply (Purge_readLoop_again r (mkTx db b) d tx1 d1 (rows tx1) d' H).
    auto.
Qed.

Lemma ingest_twice_insert_or_ignore_witness :
  let file := Sample.header :: Sample.dataRows in
  ingest (Refresh.processFile (lib := Decimal.lib)) file None Sample.before
  = Sample.afterRefresh
  /\ ingest (Refresh.processFile (lib := Decimal.lib)) file None
       Sample.afterRefresh
     = Sample.afterRefresh
  /\ exists (inserted : gmap Z (Row string)) (d2 : gset Z),
       Purge.readLoop (lib := Decimal.lib) Sample.dataRows
         (mkTx Sample.before None, ∅)
       = Ok (mkTx inserted None, {[1%Z]})
       /\ inserted !! 2%Z
          = Some (mkRow "3 Elm ST" "Newtown" (mkTime 2020 1 5) "300")
       /\ Purge.readLoop (lib := Decimal.lib) Sample.dataRows
            (mkTx inserted None, ∅)
          = Ok (mkTx inserted None, d2).
Proof.
  cbv zeta.
  destruct (ingest_twice_insert_or_ignore (lib := Decimal.lib) None
              Sample.before) as [Hmain Hloop].
  assert (E : ingest (Refresh.processFile (lib := Decimal.lib))
                (Sample.header :: Sample.dataRows) None Sample.before
              = Sample.afterRefresh) by (vm_compute; reflexivity).
  split; [exact E|]. split.
  { specialize (Hmain (Sample.header :: Sample.dataRows)).
    rewrite E in Hmain. exact Hmain. }
  exists (<[2%Z := mkRow "3 Elm ST" "Newtown" (mkTime 2020 1 5) "300"]>
            Sample.before).
  assert (E1 : Purge.readLoop (lib := Decimal.lib) Sample.dataRows
                 (mkTx Sample.before None, ∅)
               = Ok (mkTx (<[2%Z := mkRow "3 Elm ST" "Newtown"
                                       (mkTime 2020 1 5) "300"]>
                             Sample.before) None, {[1%Z]}))
    by (vm_compute; reflexivity).
  destruct (Hloop Sample.dataRows ∅ _ _ E1 ∅) as [d2 E2].
  exists d2. split; [exact E1|]. split; [reflexivity|exact E2].
Defined.

Section PipelineFacts.
Context {lib : GoLib}.

Lemma NewRecord_hasId (strings : list string) (k : Z) :
  hasId Atoi k strings ->
  match Pipeline.NewRecordFromStrings strings with
  | Ok rec => Pipeline.id rec = k
  | Err e => e <> emptyRecordError
  | Panic => True
  end.
Proof.
  intros [Hnb (s0 & H0 & Hk)]. unfold Pipeline.NewRecordFromStrings, index.
  rewrite Hnb, H0. cbn [bind]. rewrite Hk. cbn [bind orErr].
  destruct (nth_error strings 1); cbn [bind]; [|exact I].
  destruct (nth_error strings 2); cbn [bind]; [|exact I].
  destruct (nth_error strings 3) as [s3|]; cbn [bind]; [|exact I].
  destruct (time_Parse s3); cbn [bind orErr]; [|discriminate].
  destruct (nth_error strings 4) as [s4|]; cbn [bind]; [|exact I].
  destruct (Atoi s4); cbn [bind orErr]; [reflexivity|discriminate].
Qed.

Lemma parsedRecords_app (a b : Reader) :
  parsedRecords (a ++ b) = parsedRecords a ++ parsedRecords b.
Proof.
  induction a as [|[strings|] a IH]; simpl; auto.
  destruct (Pipeline.NewRecordFromStrings strings); simpl; now rewrite ?IH.
Qed.

Lemma occurrences_app (k : Z) (l1 l2 : list Pipeline.record) :
  occurrences k (l1 ++ l2) = (occurrences k l1 + occurrences k l2)%nat.
Proof. unfold occurrences. now rewrite List.filter_app, length_app. Qed.

(** When the loop succeeds, a row carrying [k] has become a record. *)
Lemma loadLoop_hasId (rows0 rows1 : Reader) (strings : list string) (k : Z) :
  hasId Atoi k strings ->
  forall records duplicates st,
    Pipeline.loadLoop (rows0 ++ Fields strings :: rows1) records duplicates
    = Ok st ->
    (1 <= occurrences k (parsedRecords [Fields strings]))%nat.
Proof.
  intros Hid. apply NewRecord_hasId in Hid.
  induction rows0 as [|[record|] rows0 IH]; intros records duplicates st H;
    cbn [app Pipeline.loadLoop] in H.
  - cbn [parsedRecords].
    destruct (Pipeline.NewRecordFromStrings strings) as [rec|e|].
    + rewrite occurrences_cons, Hid, Z.eqb_refl. lia.
    + destruct e; try discriminate. contradiction.
    + discriminate.
  - destruct (Pipeline.NewRecordFromStrings record) as [rec|[]|];
      try discriminate; eauto.
  - discriminate.
Qed.

Lemma loadLoop_app_ok (a b : Reader) :
  forall records duplicates st,
    Pipeline.loadLoop (a ++ b) records duplicates = Ok st ->
    exists records' duplicates',
      Pipeline.loadLoop b records' duplicates' = Ok st.
Proof.
  induction a as [|[record|] a IH]; intros records duplicates st H;
    cbn [app Pipeline.loadLoop] in H.
  - eauto.
  - destruct (Pipeline.NewRecordFromStrings record) as [rec|[]|];
      try discriminate; eauto.
  - discriminate.
Qed.

Lemma loadLoop_twice (r : Reader) (k : Z) records duplicates st :
  appearsTwice Atoi k r ->
  Pipeline.loadLoop r records duplicates = Ok st ->
  (2 <= occurrences k (parsedRecords r))%nat.
Proof.
  intros (rows0 & ri & rows1 & rj & rows2 & -> & Hi & Hj) H.
  pose proof (loadLoop_hasId _ _ _ _ Hi _ _ _ H) as H1.
  destruct (loadLoop_app_ok rows0 _ _ _ _ H) as (recs1 & dups1 & H').
  change (Fields ri :: rows1 ++ Fields rj :: rows2)
    with (([Fields ri] ++ rows1) ++ Fields rj :: rows2) in H'.
  pose proof (loadLoop_hasId _ _ _ _ Hj _ _ _ H') as H2.
  change (Fields ri :: rows1 ++ Fields rj :: rows2)
    with ([Fields ri] ++ rows1 ++ [Fields rj] ++ rows2).
  rewrite !parsedRecords_app, !occurrences_app. lia.
Qed.

Lemma slice_subset {A} (l : list A) (lo hi : Z) (x : A) :
  In x (Pipeline.slice l lo hi) -> In x l.
Proof.
  unfold Pipeline.slice. rewrite <- !list_elem_of_In. intros H.
  apply (subseteq_drop (Z.to_nat lo) l), (subseteq_take _ _ _ H).
Qed.

Lemma chunks_subset {A} g (l : list A) cs (x : A) :
  Pipeline.chunks g l = Some cs -> In x (concat cs) -> In x l.
Proof.
  unfold Pipeline.chunks.
  destruct (Pipeline.chunkBounds _ g) as [bounds|]; [|discriminate].
  intros H; inversion H; subst cs; clear H.
  rewrite in_concat. intros (c & Hc & Hx).
  apply in_map_iff in Hc as (b & <- & _). eapply slice_subset; eauto.
Qed.

Lemma filtered_subset (cs : list (list Pipeline.record)) rec :
  In rec (concat (map Pipeline.filter cs)) -> In rec (concat cs).
Proof.
  rewrite !in_concat. intros (c & Hc & Hx).
  apply in_map_iff in Hc as (c0 & <- & Hc0).
  exists c0. split; [exact Hc0|]. now apply filter_subset.
Qed.

(** An id that two rows carry is not written by [processFile]. *)
Lemma Pipeline_twice_untouched g (header : readResult) (r : Reader) sched
    (k : Z) tx tx' :
  appearsTwice Atoi k r ->
  Pipeline.processFile g (header :: r, sched) tx = Ok tx' ->
  rows tx' !! k = rows tx !! k.
Proof.
  intros Htwice H. unfold Pipeline.processFile in H. cbn [fst snd] in H.
  destruct (Pipeline.loadAndDeduplicateRecords (header :: r))
    as [recordsDedup| |] eqn:Hload; cbn [bind] in H; try discriminate.
  destruct (g =? 0)%Z; [discriminate|].
  destruct (Pipeline.chunks g recordsDedup) as [cs|] eqn:Hcs;
    [|discriminate].
  apply (writeAll_untouched _ k) in H; [exact H|].
  intros rec Hin Hid.
  apply (Permutation_in _ (interleave_perm _ _)) in Hin.
  apply filtered_subset in Hin. apply (chunks_subset _ _ _ _ Hcs) in Hin.
  destruct header; cbn [Pipeline.loadAndDeduplicateRecords] in Hload;
    [|discriminate].
  destruct (Pipeline.loadLoop r [] ∅) as [[records duplicates]| |] eqn:E;
    cbn [bind fst snd] in Hload; try discriminate.
  inversion Hload; subst recordsDedup; clear Hload.
  pose proof (loadLoop_twice _ k _ _ _ Htwice E) as Htwo.
  apply loadLoop_spec in E as [Hrecs Hcount]. cbn [app] in Hrecs. subst records.
  rewrite filterDuplicates_filter in Hin. apply filter_In in Hin as [_ Hone].
  rewrite Hid, Hcount in Hone. unfold Pipeline.count in Hone.
  rewrite lookup_empty in Hone. cbn [default] in Hone.
  apply Z.eqb_eq in Hone. lia.
Qed.

(** C4.  When two data rows of a file carry the same identifier, a run of
    [part_000] or of [test_4] over that file alone, from the empty table,
    leaves no row with that identifier, whether the run commits or fails. *)
Theorem duplicated_id_not_persisted :
  (forall (header : readResult) (r : Reader) (b : option nat) (k : Z),
      appearsTwice ParseInt k r ->
      ingest Purge.processFile (header :: r) b ∅ !! k = None)
  /\ (forall g (header : readResult) (r : Reader) (sched : list nat)
         (b : option nat) (k : Z),
        appearsTwice Atoi k r ->
        ingest (Pipeline.processFile g) (header :: r, sched) b ∅ !! k = None).
Proof.
  split.
  - intros header r b k Htwice. unfold ingest. cbn [mainLoop].
    destruct (Purge.processFile (header :: r) (Begin ∅ b)) as [tx| |] eqn:E;
      cbn [fst]; try apply lookup_empty.
    unfold Commit. eapply Purge_twice_absent; eauto.
  - intros g header r sched b k Htwice. unfold ingest. cbn [mainLoop].
    destruct (Pipeline.processFile g (header :: r, sched) (Begin ∅ b))
      as [tx| |] eqn:E; cbn [fst]; try apply lookup_empty.
    unfold Commit. rewrite (Pipeline_twice_untouched _ _ _ _ _ _ _ Htwice E).
    apply lookup_empty.
Qed.
End PipelineFacts.

Lemma duplicated_id_not_persisted_witness :
  let header := Fields ["id"; "address"; "suburb"; "date"; "value"] in
  let r := [Fields ["1"; "10 Main ST"; "Springfield"; "1/2/20"; "500000"];
            Fields ["2"; "20 Oak ST"; "Shelbyville"; "3/4/20"; "450000"];
            Fields ["1"; "10 Main ST"; "Springfield"; "1/2/20"; "500000"]] in
  appearsTwice Decimal.integer 1 r
  /\ ingest (Purge.processFile (lib := Decimal.lib)) (header :: r) None ∅ !! 1%Z
     = None
  /\ ingest (Pipeline.processFile (lib := Decimal.lib) 4) (header :: r, []) None ∅
       !! 1%Z = None.
Proof.
  cbv zeta.
  assert (Htwice : appearsTwice Decimal.integer 1
            [Fields ["1"; "10 Main ST"; "Springfield"; "1/2/20"; "500000"];
             Fields ["2"; "20 Oak ST"; "Shelbyville"; "3/4/20"; "450000"];
             Fields ["1"; "10 Main ST"; "Springfield"; "1/2/20"; "500000"]]).
  { exists [], ["1"; "10 Main ST"; "Springfield"; "1/2/20"; "500000"],
      [Fields ["2"; "20 Oak ST"; "Shelbyville"; "3/4/20"; "450000"]],
      ["1"; "10 Main ST"; "Springfield"; "1/2/20"; "500000"], [].
    split; [reflexivity|].
    split; (split; [reflexivity|exists "1"; split; reflexivity]). }
  split; [exact Htwice|]. split.
  - exact (proj1 (duplicated_id_not_persisted (lib := Decimal.lib))
             _ _ None 1%Z Htwice).
  - exact (proj2 (duplicated_id_not_persisted (lib := Decimal.lib))
             4%Z _ _ [] None 1%Z Htwice).
Defined.

(** ** The goroutines of [processFile] in [test_4] *)

Lemma live_insert_sending (ws : list Pipeline.worker) :
  forall k l l', ws !! k = Some (Pipeline.Sending l) ->
                 live (<[k := Pipeline.Sending l']> ws) = live ws.
Proof.
  induction ws as [|w ws IH]; intros [|k] l l' H; simpl in H; try discriminate.
  - inversion H; subst. reflexivity.
  - unfold live in *. simpl. destruct w; simpl; erewrite IH; eauto.
Qed.

Lemma live_insert_exited (ws : list Pipeline.worker) :
  forall k l, ws !! k = Some (Pipeline.Sending l) ->
              live ws = S (live (<[k := Pipeline.Exited]> ws)).
Proof.
  induction ws as [|w ws IH]; intros [|k] l H; simpl in H; try discriminate.
  - inversion H; subst. reflexivity.
  - unfold live in *. simpl. destruct w; simpl; erewrite IH; eauto.
Qed.

Lemma live_zero (ws : list Pipeline.worker) :
  live ws = O -> Forall (eq Pipeline.Exited) ws.
Proof.
  induction ws as [|[l|] ws IH]; unfold live; simpl; intros H;
    [constructor|discriminate|constructor; auto].
Qed.

Lemma exited_pending (ws : list Pipeline.worker) :
  Forall (eq Pipeline.Exited) ws -> concat (map pendingOf ws) = [].
Proof.
  induction 1 as [|w ws Hw _ IH]; [reflexivity|]. subst w. exact IH.
Qed.

Lemma pending_insert_recv (ws : list Pipeline.worker) :
  forall k rec rest,
    ws !! k = Some (Pipeline.Sending (rec :: rest)) ->
    Permutation (concat (map pendingOf ws))
      (rec :: concat (map pendingOf (<[k := Pipeline.Sending rest]> ws))).
Proof.
  induction ws as [|w ws IH]; intros [|k] rec rest H; simpl in H;
    try discriminate.
  - inversion H; subst. reflexivity.
  - simpl. rewrite (IH _ _ _ H). symmetry. apply Permutation_middle.
Qed.

Lemma pending_insert_done (ws : list Pipeline.worker) :
  forall k, ws !! k = Some (Pipeline.Sending []) ->
            map pendingOf (<[k := Pipeline.Exited]> ws) = map pendingOf ws.
Proof.
  induction ws as [|w ws IH]; intros [|k] H; simpl in H; try discriminate.
  - inversion H; subst. reflexivity.
  - simpl. now rewrite IH.
Qed.

Lemma steps_insert (ws : list Pipeline.worker) :
  forall k w w', ws !! k = Some w ->
    (list_sum (map workerSteps ws) + workerSteps w'
     = list_sum (map workerSteps (<[k := w']> ws)) + workerSteps w)%nat.
Proof.
  induction ws as [|w0 ws IH]; intros [|k] w w' H; simpl in H; try discriminate.
  - inversion H; subst. simpl. lia.
  - simpl. specialize (IH _ _ w' H). lia.
Qed.

Lemma writeAll_app (l1 l2 : list Pipeline.record) :
  forall tx, Pipeline.writeAll (l1 ++ l2) tx
             = let! tx' := Pipeline.writeAll l1 tx in Pipeline.writeAll l2 tx'.
Proof.
  induction l1 as [|rec l1 IH]; intros tx; simpl; [reflexivity|].
  destruct (Pipeline.stmt_Exec rec tx); simpl; auto.
Qed.

Lemma spawned_consistent outs tx0 :
  consistent outs tx0 (Pipeline.spawned outs tx0).
Proof.
  split; simpl.
  - unfold live. induction outs; simpl; auto.
  - unfold pendings. simpl. rewrite map_map. simpl. now rewrite map_id.
  - intros H. now contradiction H.
  - split; [discriminate|]. intros [tx H]. discriminate.
  - reflexivity.
Qed.

Lemma step_consistent outs tx0 (l : Pipeline.label) (s s' : Pipeline.state) :
  consistent outs tx0 s -> Pipeline.step l s = Some s' -> consistent outs tx0 s'.
Proof.
  intros [I1 I2 I3 I4 I5] H. destruct s as [ws n wt wr recvd].
  unfold pendings, writerResult in *. simpl in *.
  destruct l as [k|k| |]; simpl in H.
  - destruct (ws !! k) as [[[|rec rest]|]|] eqn:Hk; try discriminate.
    destruct wr as [tx|res]; try discriminate.
    inversion H; subst s'; clear H. split; unfold pendings, writerResult; simpl.
    + now rewrite (live_insert_sending _ _ _ _ Hk).
    + rewrite <- I2. rewrite <- app_assoc. apply Permutation_app_head. simpl.
      symmetry. now apply pending_insert_recv.
    + exact I3.
    + rewrite I4. split; intros [tx1 Htx]; [discriminate|].
      now destruct (Pipeline.stmt_Exec rec tx).
    + rewrite writeAll_app, I5. simpl.
      now destruct (Pipeline.stmt_Exec rec tx).
  - destruct (ws !! k) as [[[|rec rest]|]|] eqn:Hk; try discriminate.
    inversion H; subst s'; clear H. split; unfold pendings, writerResult; simpl.
    + rewrite I1, (live_insert_exited _ _ _ Hk). reflexivity.
    + now rewrite (pending_insert_done _ _ Hk).
    + intros Hw. rewrite (I3 Hw). reflexivity.
    + exact I4.
    + exact I5.
  - destruct wt; try discriminate. destruct n; try discriminate.
    inversion H; subst s'; clear H. split; unfold pendings, writerResult; simpl.
    + exact I1.
    + exact I2.
    + reflexivity.
    + split; [discriminate|]. intros Hr. apply I4 in Hr. discriminate.
    + exact I5.
  - destruct wt; try discriminate. destruct wr as [tx|res]; try discriminate.
    inversion H; subst s'; clear H. split; unfold pendings, writerResult; simpl.
    + exact I1.
    + exact I2.
    + intros _. apply I3. discriminate.
    + split; eauto.
    + exact I5.
Qed.

Lemma run_consistent outs tx0 (trace : list Pipeline.label) :
  forall s s', consistent outs tx0 s -> Pipeline.run trace s = Some s' ->
               consistent outs tx0 s'.
Proof.
  induction trace as [|l trace IH]; intros s s' Hs H; simpl in H.
  - now inversion H; subst.
  - destruct (Pipeline.step l s) as [s1|] eqn:E; [|discriminate].
    eapply IH; [|exact H]. eapply step_consistent; eauto.
Qed.

Lemma step_counts (l : Pipeline.label) (s s' : Pipeline.state) :
  Pipeline.step l s = Some s' -> stepsLeft s = S (stepsLeft s').
Proof.
  destruct s as [ws n wt wr recvd]. unfold stepsLeft.
  destruct l as [k|k| |]; simpl; intros H.
  - destruct (ws !! k) as [[[|rec rest]|]|] eqn:Hk; try discriminate.
    destruct wr as [tx|res]; try discriminate.
    inversion H; subst s'; clear H. simpl.
    pose proof (steps_insert _ _ _ (Pipeline.Sending rest) Hk) as Hs.
    simpl in Hs. lia.
  - destruct (ws !! k) as [[[|rec rest]|]|] eqn:Hk; try discriminate.
    inversion H; subst s'; clear H. simpl.
    pose proof (steps_insert _ _ _ Pipeline.Exited Hk) as Hs.
    simpl in Hs. lia.
  - destruct wt; try discriminate. destruct n; try discriminate.
    inversion H; subst s'; clear H. simpl. lia.
  - destruct wt; try discriminate. destruct wr as [tx|res]; try discriminate.
    inversion H; subst s'; clear H. simpl. lia.
Qed.

Lemma run_counts (trace : list Pipeline.label) :
  forall s s', Pipeline.run trace s = Some s' ->
               stepsLeft s = (length trace + stepsLeft s')%nat.
Proof.
  induction trace as [|l trace IH]; intros s s' H; simpl in H.
  - now inversion H; subst.
  - destruct (Pipeline.step l s) as [s1|] eqn:E; [|discriminate].
    apply step_counts in E. apply IH in H. simpl. lia.
Qed.

Lemma spawned_steps outs tx0 :
  stepsLeft (Pipeline.spawned outs tx0)
  = (length (concat outs) + length outs + 2)%nat.
Proof.
  unfold stepsLeft. simpl.
  induction outs as [|o outs IH]; simpl; [reflexivity|].
  rewrite length_app. simpl in IH. lia.
Qed.

Lemma worker_cases (ws : list Pipeline.worker) :
  (exists k rec rest, ws !! k = Some (Pipeline.Sending (rec :: rest)))
  \/ (exists k, ws !! k = Some (Pipeline.Sending []))
  \/ live ws = O.
Proof.
  induction ws as [|[[|rec rest]|] ws IH].
  - right; right; reflexivity.
  - right; left. now exists O.
  - left. now exists O, rec, rest.
  - destruct IH as [(k & rec & rest & H)|[(k & H)|H]].
    + left. now exists (S k), rec, rest.
    + right; left. now exists (S k).
    + right; right. exact H.
Qed.

Lemma selecting_can_step outs tx0 (s : Pipeline.state) tx :
  consistent outs tx0 s -> Pipeline.writerSt s = Pipeline.Selecting tx ->
  exists l s', Pipeline.step l s = Some s'.
Proof.
  intros [I1 I2 I3 I4 I5] Hw. destruct s as [ws n wt wr recvd]. simpl in *.
  subst wr.
  destruct (worker_cases ws) as [(k & rec & rest & H)|[(k & H)|H]].
  - exists (Pipeline.Recv k). simpl. rewrite H. eauto.
  - exists (Pipeline.WgDone k). simpl. rewrite H. eauto.
  - rewrite H in I1. subst n. destruct wt.
    + exists Pipeline.WaitReturns. simpl. eauto.
    + exists Pipeline.RecvDone. simpl. eauto.
    + destruct (proj1 I4 eq_refl) as [tx1 Htx]. discriminate.
Qed.

Lemma map_pendingOf_insert (ws : list Pipeline.worker) :
  forall k w, map pendingOf (<[k := w]> ws) = <[k := pendingOf w]> (map pendingOf ws).
Proof.
  induction ws as [|w0 ws IH]; intros [|k] w; simpl; auto. now rewrite IH.
Qed.

Lemma map_pendingOf_lookup (ws : list Pipeline.worker) :
  forall k w, ws !! k = Some w -> map pendingOf ws !! k = Some (pendingOf w).
Proof.
  induction ws as [|w0 ws IH]; intros [|k] w H; simpl in *; try discriminate.
  - now inversion H.
  - now apply IH.
Qed.

(** A step either hands the head of one worker's pending records to the
    select, or leaves pending and received records alone. *)
Lemma step_pendings (l : Pipeline.label) (s s' : Pipeline.state) :
  Pipeline.step l s = Some s' ->
  (exists k rec rest,
      Pipeline.takeFrom k (pendings s) = Some (rec, pendings s')
      /\ l = Pipeline.Recv k
      /\ pendings s !! k = Some (rec :: rest)
      /\ Pipeline.received s' = Pipeline.received s ++ [rec])
  \/ (pendings s' = pendings s /\ Pipeline.received s' = Pipeline.received s).
Proof.
  destruct s as [ws n wt wr recvd]. unfold pendings.
  destruct l as [k|k| |]; simpl; intros H.
  - destruct (ws !! k) as [[[|rec rest]|]|] eqn:Hk; try discriminate.
    destruct wr as [tx|res]; try discriminate.
    inversion H; subst s'; clear H. simpl. left. exists k, rec, rest.
    pose proof (map_pendingOf_lookup _ _ _ Hk) as Hp. simpl in Hp.
    unfold Pipeline.takeFrom. rewrite Hp, map_pendingOf_insert. auto.
  - destruct (ws !! k) as [[[|rec rest]|]|] eqn:Hk; try discriminate.
    inversion H; subst s'; clear H. simpl. right.
    split; [now apply pending_insert_done|reflexivity].
  - destruct wt; try discriminate. destruct n; try discriminate.
    inversion H; subst s'; clear H. simpl. auto.
  - destruct wt; try discriminate. destruct wr as [tx|res]; try discriminate.
    inversion H; subst s'; clear H. simpl. auto.
Qed.

Lemma run_interleave (trace : list Pipeline.label) :
  forall s s', Pipeline.run trace s = Some s' ->
    exists delta sched,
      Pipeline.received s' = Pipeline.received s ++ delta
      /\ forall n sched',
          Pipeline.interleaveN (length delta + n) (sched ++ sched') (pendings s)
          = delta ++ Pipeline.interleaveN n sched' (pendings s').
Proof.
  induction trace as [|l trace IH]; intros s s' H; simpl in H.
  - inversion H; subst. exists [], []. split; [now rewrite app_nil_r|auto].
  - destruct (Pipeline.step l s) as [s1|] eqn:E; [|discriminate].
    destruct (IH _ _ H) as (delta & sched & Hr & Hi).
    destruct (step_pendings _ _ _ E)
      as [(k & rec & rest & Htake & _ & _ & Hrecv)|[Hp Hrecv]].
    + exists (rec :: delta), (k :: sched). split.
      * rewrite Hr, Hrecv, <- app_assoc. reflexivity.
      * intros n sched'. simpl. rewrite Htake. now rewrite Hi.
    + exists delta, sched. split; [now rewrite Hr, Hrecv|].
      intros n sched'. rewrite <- Hp. apply Hi.
Qed.

Lemma pendings_spawned outs tx0 : pendings (Pipeline.spawned outs tx0) = outs.
Proof. unfold pendings. simpl. rewrite map_map. simpl. apply map_id. Qed.

(** What the select loop returns after any run from [spawned outs tx0] is
    what writing the records in some order of reception returns. *)
Lemma machine_result outs tx0 (trace : list Pipeline.label)
    (s : Pipeline.state) (res : result (Tx Z)) :
  Pipeline.run trace (Pipeline.spawned outs tx0) = Some s ->
  Pipeline.writerSt s = Pipeline.Returned res ->
  exists sched, Pipeline.writeAll (Pipeline.interleave sched outs) tx0 = res.
Proof.
  intros Hrun Hw.
  pose proof (run_consistent _ _ _ _ _ (spawned_consistent outs tx0) Hrun)
    as [I1 I2 I3 I4 I5].
  destruct (run_interleave _ _ _ Hrun) as (delta & sched & Hr & Hi).
  simpl in Hr. exists (sched ++ []).
  rewrite pendings_spawned in Hi. unfold Pipeline.interleave.
  rewrite <- (Permutation_length I2), length_app, Hr, Hi, writeAll_app.
  rewrite <- Hr, I5. unfold writerResult. rewrite Hw.
  destruct res as [tx| |]; simpl; try reflexivity.
  assert (Hwt : Pipeline.waiterSt s = Pipeline.WaiterExited)
    by (apply I4; eauto).
  assert (Hwg : Pipeline.wg s = O) by (apply I3; rewrite Hwt; discriminate).
  rewrite I1 in Hwg. apply live_zero, exited_pending in Hwg.
  unfold pendings. rewrite Hwg. reflexivity.
Qed.

(** Whatever the goroutines do, what [processFile] returns is what the
    function [Pipeline.processFile] returns for some order of reception. *)
Lemma machine_refines_processFile `{lib : GoLib} g (r : Reader) recordsDedup
    tx0 s0 (trace : list Pipeline.label) (s : Pipeline.state)
    (res : result (Tx Z)) :
  Pipeline.loadAndDeduplicateRecords r = Ok recordsDedup ->
  Pipeline.start g recordsDedup tx0 = Some s0 ->
  Pipeline.run trace s0 = Some s ->
  Pipeline.writerSt s = Pipeline.Returned res ->
  exists sched, Pipeline.processFile g (r, sched) tx0 = res.
Proof.
  intros Hload Hstart Hrun Hw. unfold Pipeline.start in Hstart.
  destruct (g =? 0)%Z eqn:Hg; [discriminate|].
  destruct (Pipeline.chunks g recordsDedup) as [cs|] eqn:Hcs; [|discriminate].
  inversion Hstart; subst s0; clear Hstart.
  destruct (machine_result _ _ _ _ _ Hrun Hw) as [sched Hres].
  exists sched. unfold Pipeline.processFile. cbn [fst snd].
  rewrite Hload. cbn [bind]. now rewrite Hg, Hcs.
Qed.

(** C8.  In every state the goroutines of [processFile] can reach from the
    start [s0] of the select loop: the records received and those still to be
    sent are together the records the filter accepted, each once; if
    [processFile] has returned nil, every worker has sent all its records and
    ended, the records received are the accepted records, each once, and
    every one was written; as long as the select loop has not returned some
    goroutine can take a step; and the steps taken and the steps left add up
    to the steps left at the start, so that no run goes on forever.  Hence the
    loop cannot wait forever, and it ends through the signal on [doneCh] only
    when nothing is left to receive. *)
Theorem writer_drains_and_stops `{lib : GoLib} (g : Z)
    (recordsDedup : list Pipeline.record) (tx0 : Tx Z)
    (s0 : Pipeline.state) (trace : list Pipeline.label) (s : Pipeline.state) :
  Pipeline.start g recordsDedup tx0 = Some s0 ->
  Pipeline.run trace s0 = Some s ->
  Permutation (Pipeline.received s ++ concat (pendings s)) (concat (pendings s0))
  /\ (forall tx, Pipeline.writerSt s = Pipeline.Returned (Ok tx) ->
       Forall (eq Pipeline.Exited) (Pipeline.workers s)
       /\ Permutation (Pipeline.received s) (concat (pendings s0))
       /\ Pipeline.writeAll (Pipeline.received s) tx0 = Ok tx)
  /\ (forall tx, Pipeline.writerSt s = Pipeline.Selecting tx ->
       exists l s', Pipeline.step l s = Some s')
  /\ (length trace + stepsLeft s = stepsLeft s0)%nat.
Proof.
  intros Hstart Hrun. unfold Pipeline.start in Hstart.
  destruct (g =? 0)%Z; [discriminate|].
  destruct (Pipeline.chunks g recordsDedup) as [cs|]; [|discriminate].
  inversion Hstart; subst s0; clear Hstart.
  rewrite pendings_spawned.
  pose proof (run_consistent _ _ _ _ _
                (spawned_consistent (map Pipeline.filter cs) tx0) Hrun) as Hs.
  split; [apply Hs|]. split; [|split].
  - intros tx Hw. destruct Hs as [I1 I2 I3 I4 I5].
    assert (Hwt : Pipeline.waiterSt s = Pipeline.WaiterExited)
      by (apply I4; eauto).
    assert (Hwg : Pipeline.wg s = O) by (apply I3; rewrite Hwt; discriminate).
    rewrite I1 in Hwg. apply live_zero in Hwg. split; [exact Hwg|].
    unfold pendings in I2. rewrite (exited_pending _ Hwg), app_nil_r in I2.
    split; [exact I2|]. rewrite I5. unfold writerResult. now rewrite Hw.
  - intros tx Hw. eapply selecting_can_step; eauto.
  - symmetry. now apply run_counts.
Qed.

Lemma writer_drains_and_stops_witness :
  let r1 := Pipeline.mkRecord 1 "1 First ST" "Ayr" (mkTime 2020 1 2) 500000 in
  let r2 := Pipeline.mkRecord 2 "2 Second ST" "Ayr" (mkTime 2020 1 3) 600000 in
  let r3 := Pipeline.mkRecord 3 "3 Third ST" "Ayr" (mkTime 2020 1 4) 700000 in
  let trace := [Pipeline.Recv 0; Pipeline.Recv 2; Pipeline.WgDone 0;
                Pipeline.Recv 1; Pipeline.WgDone 2; Pipeline.WgDone 1;
                Pipeline.WaitReturns; Pipeline.RecvDone] in
  let s0 := Pipeline.spawned [[r1]; [r2]; [r3]] (mkTx ∅ None) in
  let s := Pipeline.mkState [Pipeline.Exited; Pipeline.Exited; Pipeline.Exited]
             0 Pipeline.WaiterExited
             (Pipeline.Returned
                (Ok (mkTx (<[2%Z := mkRow "2 Second ST" "Ayr" (mkTime 2020 1 3) 600000%Z]>
                           (<[3%Z := mkRow "3 Third ST" "Ayr" (mkTime 2020 1 4) 700000%Z]>
                            {[1%Z := mkRow "1 First ST" "Ayr" (mkTime 2020 1 2) 500000%Z]}))
                       None)))
             [r1; r3; r2] in
  Pipeline.start (lib := Decimal.lib) 2 [r1; r2; r3] (mkTx ∅ None) = Some s0
  /\ Pipeline.run trace s0 = Some s
  /\ Permutation (Pipeline.received s ++ concat (pendings s))
       (concat (pendings s0)).
Proof.
  cbv zeta. split; [vm_compute; reflexivity|].
  split; [vm_compute; reflexivity|].
  apply (writer_drains_and_stops (lib := Decimal.lib) 2
           [Pipeline.mkRecord 1 "1 First ST" "Ayr" (mkTime 2020 1 2) 500000;
            Pipeline.mkRecord 2 "2 Second ST" "Ayr" (mkTime 2020 1 3) 600000;
            Pipeline.mkRecord 3 "3 Third ST" "Ayr" (mkTime 2020 1 4) 700000]
           (mkTx ∅ None) _
           [Pipeline.Recv 0; Pipeline.Recv 2; Pipeline.WgDone 0;
            Pipeline.Recv 1; Pipeline.WgDone 2; Pipeline.WgDone 1;
            Pipeline.WaitReturns; Pipeline.RecvDone]).
  - vm_compute; reflexivity.
  - vm_compute; reflexivity.
Defined.

(** ** Every order of reception is a run of the goroutines *)

Lemma pendingOf_sending (ws : list Pipeline.worker) (k : nat) rec rest :
  map pendingOf ws !! k = Some (rec :: rest) ->
  ws !! k = Some (Pipeline.Sending (rec :: rest)).
Proof.
  revert k. induction ws as [|w ws IH]; intros [|k] H; simpl in *;
    try discriminate.
  - destruct w as [l|]; simpl in H; inversion H; reflexivity.
  - now apply IH.
Qed.

Lemma takeFirst_takeFrom outs rec outs' :
  Pipeline.takeFirst outs = Some (rec, outs') ->
  exists k, Pipeline.takeFrom k outs = Some (rec, outs').
Proof.
  revert rec outs'. induction outs as [|[|x rest] others IH];
    intros rec outs' H; simpl in H; try discriminate.
  - destruct (Pipeline.takeFirst others) as [[rec1 others']|] eqn:E;
      try discriminate.
    inversion H; subst rec1 outs'; clear H.
    destruct (IH _ _ eq_refl) as [k Hk]. exists (S k).
    unfold Pipeline.takeFrom in *. simpl.
    destruct (others !! k) as [[|y l]|]; try discriminate.
    now inversion Hk; subst.
  - inversion H; subst. now exists O.
Qed.

Lemma takeFrom_step (s : Pipeline.state) (k : nat) rec outs' tx :
  Pipeline.takeFrom k (pendings s) = Some (rec, outs') ->
  Pipeline.writerSt s = Pipeline.Selecting tx ->
  exists s',
    Pipeline.step (Pipeline.Recv k) s = Some s'
    /\ pendings s' = outs'
    /\ Pipeline.waiterSt s' = Pipeline.waiterSt s
    /\ Pipeline.wg s' = Pipeline.wg s
    /\ live (Pipeline.workers s') = live (Pipeline.workers s)
    /\ Pipeline.writerSt s'
       = match Pipeline.stmt_Exec rec tx with
         | Ok tx' => Pipeline.Selecting tx'
         | Err e => Pipeline.Returned (Err e)
         | Panic => Pipeline.Returned Panic
         end.
Proof.
  destruct s as [ws n wt wr recvd]. unfold pendings, Pipeline.takeFrom.
  simpl. intros H ->.
  destruct (map pendingOf ws !! k) as [[|rec0 rest]|] eqn:Hk; try discriminate.
  inversion H; subst rec0 outs'; clear H.
  apply pendingOf_sending in Hk. rewrite Hk.
  eexists. split; [reflexivity|]. simpl.
  rewrite map_pendingOf_insert, (live_insert_sending _ _ _ _ Hk). auto.
Qed.

(** With nothing left to send, the workers end one by one, the group is
    released and the signal ends the loop. *)
Lemma drained_run (n : nat) :
  forall s tx,
    live (Pipeline.workers s) = n ->
    concat (pendings s) = [] ->
    Pipeline.wg s = live (Pipeline.workers s) ->
    Pipeline.waiterSt s = Pipeline.Waiting ->
    Pipeline.writerSt s = Pipeline.Selecting tx ->
    exists trace s',
      Pipeline.run trace s = Some s'
      /\ Pipeline.writerSt s' = Pipeline.Returned (Ok tx).
Proof.
  induction n as [|n IH]; intros s tx Hlive Hpend Hwg Hwt Hwr.
  - destruct s as [ws m wt wr recvd]. simpl in *. subst wt wr. rewrite Hlive in Hwg.
    subst m.
    exists [Pipeline.WaitReturns; Pipeline.RecvDone]. eexists.
    split; reflexivity.
  - destruct (worker_cases (Pipeline.workers s))
      as [(k & rec & rest & H)|[(k & H)|H]].
    + apply map_pendingOf_lookup in H. simpl in H.
      apply list_elem_of_lookup_2 in H.
      assert (Hin : In rec (concat (pendings s))).
      { apply in_concat. exists (rec :: rest). split; [|now left].
        now apply list_elem_of_In. }
      rewrite Hpend in Hin. destruct Hin.
    + destruct s as [ws m wt wr recvd]. simpl in *. subst wt wr.
      pose proof (live_insert_exited _ _ _ H) as Hl.
      destruct (IH (Pipeline.mkState (<[k := Pipeline.Exited]> ws) (pred m)
                      Pipeline.Waiting (Pipeline.Selecting tx) recvd) tx)
        as (trace & s' & Hrun & Hres); simpl; try reflexivity; try lia.
      * unfold pendings in *. simpl in *.
        now rewrite (pending_insert_done _ _ H).
      * exists (Pipeline.WgDone k :: trace), s'. simpl. rewrite H.
        split; assumption.
    + rewrite H in Hlive. discriminate.
Qed.

Lemma interleave_run (n : nat) :
  forall sched s tx,
    length (concat (pendings s)) = n ->
    Pipeline.wg s = live (Pipeline.workers s) ->
    Pipeline.waiterSt s = Pipeline.Waiting ->
    Pipeline.writerSt s = Pipeline.Selecting tx ->
    exists trace s',
      Pipeline.run trace s = Some s'
      /\ Pipeline.writerSt s'
         = Pipeline.Returned
             (Pipeline.writeAll (Pipeline.interleaveN n sched (pendings s)) tx).
Proof.
  induction n as [|n IH]; intros sched s tx Hlen Hwg Hwt Hwr.
  - simpl. eapply drained_run; eauto.
    now destruct (concat (pendings s)).
  - simpl.
    assert (Htake : exists k rec outs',
               Pipeline.takeFrom k (pendings s) = Some (rec, outs')
               /\ match Pipeline.takeFrom (hd O sched) (pendings s) with
                  | Some (rec, outs') =>
                      rec :: Pipeline.interleaveN n (tl sched) outs'
                  | None =>
                      match Pipeline.takeFirst (pendings s) with
                      | Some (rec, outs') =>
                          rec :: Pipeline.interleaveN n (tl sched) outs'
                      | None => []
                      end
                  end = rec :: Pipeline.interleaveN n (tl sched) outs').
    { destruct (Pipeline.takeFrom (hd O sched) (pendings s))
        as [[rec outs']|] eqn:E; [now exists (hd O sched), rec, outs'|].
      destruct (Pipeline.takeFirst (pendings s)) as [[rec outs']|] eqn:E1.
      - destruct (takeFirst_takeFrom _ _ _ E1) as [k Hk].
        now exists k, rec, outs'.
      - apply takeFirst_none in E1. rewrite E1 in Hlen. discriminate. }
    destruct Htake as (k & rec & outs' & Hk & ->).
    destruct (takeFrom_step _ _ _ _ _ Hk Hwr)
      as (s1 & Hstep & Hp & Hwt1 & Hwg1 & Hlive1 & Hwr1).
    simpl. destruct (Pipeline.stmt_Exec rec tx) as [tx'|e|] eqn:E; simpl.
    + destruct (IH (tl sched) s1 tx') as (trace & s' & Hrun & Hres); auto.
      * apply takeFrom_perm, Permutation_length in Hk. rewrite Hp.
        simpl in Hk. lia.
      * congruence.
      * congruence.
      * exists (Pipeline.Recv k :: trace), s'. cbn [Pipeline.run].
        rewrite Hstep. split; [exact Hrun|]. now rewrite Hres, Hp.
    + exists [Pipeline.Recv k], s1. cbn [Pipeline.run]. now rewrite Hstep.
    + exists [Pipeline.Recv k], s1. cbn [Pipeline.run]. now rewrite Hstep.
Qed.

(** The goroutines can return exactly what the function [Pipeline.processFile]
    returns for the possible orders of reception. *)
Lemma processFile_realised `{lib : GoLib} g (r : Reader) recordsDedup tx0 s0
    (sched : list nat) :
  Pipeline.loadAndDeduplicateRecords r = Ok recordsDedup ->
  Pipeline.start g recordsDedup tx0 = Some s0 ->
  exists trace s,
    Pipeline.run trace s0 = Some s
    /\ Pipeline.writerSt s
       = Pipeline.Returned (Pipeline.processFile g (r, sched) tx0).
Proof.
  intros Hload Hstart. unfold Pipeline.processFile. cbn [fst snd].
  rewrite Hload. cbn [bind]. unfold Pipeline.start in Hstart.
  destruct (g =? 0)%Z; [discriminate|].
  destruct (Pipeline.chunks g recordsDedup) as [cs|]; [|discriminate].
  inversion Hstart; subst s0; clear Hstart.
  unfold Pipeline.interleave.
  pose proof (interleave_run (length (concat (map Pipeline.filter cs))) sched
                (Pipeline.spawned (map Pipeline.filter cs) tx0) tx0) as H.
  rewrite pendings_spawned in H. apply H; try reflexivity.
  simpl. unfold live. clear H.
  induction (map Pipeline.filter cs); simpl; auto.
Qed.

(** ** The order of the deletions in [part_000]

    A Go [range] over a map yields the keys in an unspecified order;
    [removeSalesWithIds] returns the same for every order. *)

Lemma removeLoop_spend (ids : list Z) :
  forall m b,
    Purge.removeLoop ids (mkTx m b)
    = match b with
      | Some k =>
          if (length ids <=? k)%nat
          then Ok (mkTx (fold_left (fun m id => sqlDelete id m) ids m)
                     (Some (k - length ids)%nat))
          else Err storeError
      | None => Ok (mkTx (fold_left (fun m id => sqlDelete id m) ids m) None)
      end.
Proof.
  induction ids as [|id ids IH]; intros m b; simpl.
  - destruct b as [k|]; [|reflexivity]. now rewrite Nat.sub_0_r.
  - rewrite Exec_spend.
    destruct b as [[|k]|]; simpl; try reflexivity; rewrite IH; reflexivity.
Qed.

Lemma fold_delete_lookup (ids : list Z) (k : Z) :
  forall m : gmap Z (Row string),
    fold_left (fun m id => sqlDelete id m) ids m !! k
    = if decide (k ∈ ids) then None else m !! k.
Proof.
  induction ids as [|id ids IH]; intros m; simpl.
  - destruct (decide (k ∈ [])) as [H|H]; [|reflexivity].
    now apply not_elem_of_nil in H.
  - rewrite IH. unfold sqlDelete.
    destruct (decide (k ∈ ids)) as [Hin|Hin];
      destruct (decide (k ∈ id :: ids)) as [Hin'|Hin']; try reflexivity.
    + contradiction Hin'. now right.
    + apply elem_of_cons in Hin' as [->|Hin']; [|contradiction].
      apply lookup_delete_eq.
    + apply lookup_delete_ne. intros ->. apply Hin'. now left.
Qed.

Lemma removeLoop_order (ids ids' : list Z) (tx : Tx string) :
  Permutation ids ids' ->
  Purge.removeLoop ids tx = Purge.removeLoop ids' tx.
Proof.
  intros Hperm. destruct tx as [m b]. rewrite !removeLoop_spend.
  rewrite (Permutation_length Hperm).
  assert (Hm : fold_left (fun m id => sqlDelete id m) ids m
               = fold_left (fun m id => sqlDelete id m) ids' m).
  { apply map_eq. intros k. rewrite !fold_delete_lookup.
    destruct (decide (k ∈ ids)) as [Hin|Hin];
      destruct (decide (k ∈ ids')) as [Hin'|Hin']; try reflexivity.
    - contradiction Hin'. now rewrite <- Hperm.
    - contradiction Hin. now rewrite Hperm. }
  now rewrite Hm.
Qed.

(** ** A run of [test_4] on a small file

    The id 1 occurs twice and is dropped, the value of id 2 is below the
    threshold: nothing is written. *)
Example test_4_small_file :
  let file :=
    [Fields ["id"; "address"; "suburb"; "date"; "value"];
     Fields ["1"; "10 Main AVE"; "Springfield"; "1/2/20"; "500000"];
     Fields ["2"; "20 Oak ST"; "Shelbyville"; "3/4/20"; "350000"];
     Fields ["1"; "10 Main AVE"; "Springfield"; "1/2/20"; "500000"]] in
  Pipeline.main (lib := Decimal.lib) 4 ∅ [((file, []), Some 0%nat)]
  = (∅, Finished).
Proof. vm_compute. reflexivity. Qed.

(** * Further properties of the three programs *)

(** ** Records and the parser of [test_4] *)

(** X1.  [isEmptyRecord] answers true exactly for the records all of whose
    fields are the empty string; the record without fields is one of them. *)
Theorem isEmptyRecord_all_empty (record : list string) :
  isEmptyRecord record = true <-> Forall (fun val => val = "") record.
Proof.
  induction record as [|val rest IH]; simpl.
  - split; [constructor|reflexivity].
  - destruct (String.eqb_spec val "") as [->|Hne].
    + rewrite IH. split; [now constructor|now inversion 1].
    + split; [discriminate|]. inversion 1; contradiction.
Qed.

Section Parser.
Context {lib : GoLib}.

(** X2.  [NewRecordFromStrings] returns a record exactly when the row is not
    blank, has the five fields, and the first, fourth and fifth parse; the
    record holds the parsed id, date and value and the second and third
    fields as they are.  Fields beyond the fifth are ignored. *)
Theorem NewRecordFromStrings_Ok (strings : list string) (rec : Pipeline.record) :
  Pipeline.NewRecordFromStrings strings = Ok rec
  <-> isEmptyRecord strings = false
      /\ exists s0 s3 s4,
          nth_error strings 0 = Some s0
          /\ Atoi s0 = Some (Pipeline.id rec)
          /\ nth_error strings 1 = Some (Pipeline.address rec)
          /\ nth_error strings 2 = Some (Pipeline.suburb rec)
          /\ nth_error strings 3 = Some s3
          /\ time_Parse s3 = Some (Pipeline.date rec)
          /\ nth_error strings 4 = Some s4
          /\ Atoi s4 = Some (Pipeline.value rec).
Proof.
  unfold Pipeline.NewRecordFromStrings, index. split.
  - destruct (isEmptyRecord strings); [discriminate|].
    destruct (nth_error strings 0) as [s0|]; cbn [bind]; [|discriminate].
    destruct (Atoi s0) as [i|] eqn:A0; cbn [bind orErr]; [|discriminate].
    destruct (nth_error strings 1) as [a|]; cbn [bind]; [|discriminate].
    destruct (nth_error strings 2) as [sb|]; cbn [bind]; [|discriminate].
    destruct (nth_error strings 3) as [s3|]; cbn [bind]; [|discriminate].
    destruct (time_Parse s3) as [d|] eqn:A3; cbn [bind orErr]; [|discriminate].
    destruct (nth_error strings 4) as [s4|]; cbn [bind]; [|discriminate].
    destruct (Atoi s4) as [v|] eqn:A4; cbn [bind orErr]; [|discriminate].
    intros H; inversion H; subst rec; clear H. simpl.
    split; [reflexivity|]. exists s0, s3, s4. auto 10.
  - intros [Hnb (s0 & s3 & s4 & E0 & A0 & E1 & E2 & E3 & A3 & E4 & A4)].
    rewrite Hnb, E0, E1, E2, E3, E4. cbn [bind]. rewrite A0. cbn [bind orErr].
    rewrite A3. cbn [bind orErr]. rewrite A4. cbn [bind orErr].
    now destruct rec.
Qed.

Lemma NewRecord_errors (strings : list string) (e : error) :
  Pipeline.NewRecordFromStrings strings = Err e ->
  (e = emptyRecordError /\ isEmptyRecord strings = true)
  \/ (isEmptyRecord strings = false /\ (e = numError \/ e = timeError)).
Proof.
  unfold Pipeline.NewRecordFromStrings, index.
  destruct (isEmptyRecord strings).
  - intros H; inversion H. now left.
  - right. split; [reflexivity|]. revert H.
    destruct (nth_error strings 0) as [s0|]; cbn [bind]; [|discriminate].
    destruct (Atoi s0); cbn [bind orErr]; [|intros H; inversion H; auto].
    destruct (nth_error strings 1); cbn [bind]; [|discriminate].
    destruct (nth_error strings 2); cbn [bind]; [|discriminate].
    destruct (nth_error strings 3) as [s3|]; cbn [bind]; [|discriminate].
    destruct (time_Parse s3); cbn [bind orErr]; [|intros H; inversion H; auto].
    destruct (nth_error strings 4) as [s4|]; cbn [bind]; [|discriminate].
    destruct (Atoi s4); cbn [bind orErr]; [discriminate|].
    intros H; inversion H; auto.
Qed.

Lemma loadLoop_errors (r : Reader) :
  forall records duplicates e,
    Pipeline.loadLoop r records duplicates = Err e ->
    e = csvError \/ e = numError \/ e = timeError.
Proof.
  induction r as [|[strings|] r IH]; intros records duplicates e H;
    cbn [Pipeline.loadLoop] in H.
  - discriminate.
  - destruct (Pipeline.NewRecordFromStrings strings) as [rec|e0|] eqn:E.
    + eauto.
    + apply NewRecord_errors in E as [[-> _]|[_ [ -> | -> ]]];
        [eauto|inversion H; auto|inversion H; auto].
    + discriminate.
  - inversion H; auto.
Qed.

Lemma writeAll_errors (recs : list Pipeline.record) (tx : Tx Z) (e : error) :
  Pipeline.writeAll recs tx = Err e -> e = storeError.
Proof.
  destruct tx as [m b]. rewrite writeAll_spend.
  destruct b as [k|]; [|discriminate].
  destruct (length recs <=? k)%nat; [discriminate|]. now inversion 1.
Qed.

(** X3.  The errors of [test_4]: loading a file fails only with an error of
    the CSV reader or of parsing a number or a date, and [processFile] only
    with one of these or with an error of the store.  The sentinel
    [emptyRecordError] of the parser does not leave the reading loop. *)
Theorem Pipeline_error_kinds (e : error) :
  (forall r, Pipeline.loadAndDeduplicateRecords r = Err e ->
             e = csvError \/ e = numError \/ e = timeError)
  /\ (forall g file tx,
        Pipeline.processFile g file tx = Err e ->
        e = csvError \/ e = numError \/ e = timeError \/ e = storeError).
Proof.
  assert (Hload : forall r, Pipeline.loadAndDeduplicateRecords r = Err e ->
                            e = csvError \/ e = numError \/ e = timeError).
  { intros [|[h|] r] H; simpl in H; try discriminate.
    - destruct (Pipeline.loadLoop r [] ∅) as [st|e0|] eqn:E; simpl in H;
        try discriminate.
      inversion H; subst e0. eapply loadLoop_errors; eauto.
    - inversion H; auto. }
  split; [exact Hload|].
  intros g file tx H. unfold Pipeline.processFile in H.
  destruct (Pipeline.loadAndDeduplicateRecords (fst file)) as [dedup|e0|] eqn:E;
    cbn [bind] in H; try discriminate.
  - destruct (g =? 0)%Z; [discriminate|].
    destruct (Pipeline.chunks g dedup); [|discriminate].
    apply writeAll_errors in H. auto.
  - inversion H; subst e0. destruct (Hload _ E) as [ -> | [ -> | -> ]]; auto.
Qed.
End Parser.

Lemma Pipeline_error_kinds_witness :
  let file := [Fields ["id"; "address"; "suburb"; "date"; "value"];
               Fields ["1"; "10 Main ST"; "Springfield"; "2020-01-02"; "500000"]] in
  Pipeline.loadAndDeduplicateRecords (lib := Decimal.lib) file = Err timeError
  /\ (timeError = csvError \/ timeError = numError \/ timeError = timeError).
Proof.
  cbv zeta. split; [reflexivity|].
  apply (proj1 (Pipeline_error_kinds (lib := Decimal.lib) timeError)
           [Fields ["id"; "address"; "suburb"; "date"; "value"];
            Fields ["1"; "10 Main ST"; "Springfield"; "2020-01-02"; "500000"]]).
  reflexivity.
Defined.

(** ** What deduplication and the filter keep *)

Lemma occurrences_filter (q : Z -> bool) (k : Z) (l : list Pipeline.record) :
  occurrences k (List.filter (fun rec => q (Pipeline.id rec)) l)
  = if q k then occurrences k l else O.
Proof.
  induction l as [|x l IH]; simpl.
  - now destruct (q k).
  - destruct (q (Pipeline.id x)) eqn:Hq.
    + rewrite !occurrences_cons, IH.
      destruct (Z.eqb_spec (Pipeline.id x) k) as [<-|Hne];
        [now rewrite Hq|now destruct (q k)].
    + rewrite occurrences_cons, IH.
      destruct (Z.eqb_spec (Pipeline.id x) k) as [<-|Hne];
        [now rewrite Hq|now destruct (q k)].
Qed.

Lemma occurrences_zero (k : Z) (l : list Pipeline.record) :
  occurrences k l = O -> ~ In k (map Pipeline.id l).
Proof.
  induction l as [|x l IH]; simpl; [tauto|].
  rewrite occurrences_cons.
  destruct (Z.eqb_spec (Pipeline.id x) k); [discriminate|].
  intros H [Heq|Hin]; [contradiction|]. now apply IH.
Qed.

Lemma occurrences_NoDup (l : list Pipeline.record) :
  (forall k, occurrences k l <= 1)%nat -> NoDup (map Pipeline.id l).
Proof.
  induction l as [|x l IH]; intros H; simpl; constructor.
  - rewrite list_elem_of_In. apply occurrences_zero.
    specialize (H (Pipeline.id x)). rewrite occurrences_cons, Z.eqb_refl in H.
    lia.
  - apply IH. intros k. specialize (H k). rewrite occurrences_cons in H. lia.
Qed.

Section Kept.
Context {lib : GoLib}.

Lemma dedup_NoDup (r : Reader) (recordsDedup : list Pipeline.record) :
  Pipeline.loadAndDeduplicateRecords r = Ok recordsDedup ->
  NoDup (map Pipeline.id recordsDedup).
Proof.
  destruct r as [|[h|] r]; simpl; intros H; try discriminate.
  - inversion H. constructor.
  - destruct (Pipeline.loadLoop r [] ∅) as [[records duplicates]| |] eqn:E;
      simpl in H; try discriminate.
    inversion H; subst recordsDedup; clear H.
    rewrite filterDuplicates_filter. apply occurrences_NoDup. intros k.
    rewrite (occurrences_filter (fun i => (Pipeline.count duplicates i =? 1)%Z)).
    destruct (Z.eqb_spec (Pipeline.count duplicates k) 1) as [Hone|]; [|lia].
    apply loadLoop_spec in E as [-> Hc]. rewrite Hc in Hone.
    unfold Pipeline.count in Hone. rewrite lookup_empty in Hone.
    simpl in Hone |- *. lia.
Qed.

(** X4.  The records [loadAndDeduplicateRecords] returns have pairwise
    distinct ids. *)
Theorem dedup_ids_distinct (r : Reader) (recordsDedup : list Pipeline.record) :
  Pipeline.loadAndDeduplicateRecords r = Ok recordsDedup ->
  NoDup (map Pipeline.id recordsDedup).
Proof. apply dedup_NoDup. Qed.

Lemma filter_sublist (records : list Pipeline.record) :
  Pipeline.filter records `sublist_of` records.
Proof.
  induction records as [|x records IH] using rev_ind; [constructor|].
  rewrite filter_snoc. apply sublist_app; [exact IH|].
  destruct (_ && _); [reflexivity|apply sublist_nil_l].
Qed.

(** X5.  What [filter] returns is a subsequence of its argument, in the same
    order, and every record of it has a value of at least 400000 and an
    address that, trimmed, ends with none of AVE, CRES and PL. *)
Theorem filter_keeps_order_and_tests (records : list Pipeline.record) :
  Pipeline.filter records `sublist_of` records
  /\ Forall (fun rec =>
              (400000 <= Pipeline.value rec)%Z
              /\ Pipeline.HasSuffix (TrimSpace (Pipeline.address rec)) "AVE" = false
              /\ Pipeline.HasSuffix (TrimSpace (Pipeline.address rec)) "CRES" = false
              /\ Pipeline.HasSuffix (TrimSpace (Pipeline.address rec)) "PL" = false)
       (Pipeline.filter records).
Proof.
  split; [apply filter_sublist|].
  induction records as [|x records IH] using rev_ind; [constructor|].
  rewrite filter_snoc. apply Forall_app. split; [exact IH|].
  destruct (eligible x) eqn:E; simpl; [|constructor].
  destruct (negb _); constructor; [|constructor].
  unfold eligible, belowThreshold, excludedStreet in E.
  apply andb_prop in E as [E1 E2].
  apply negb_true_iff in E1, E2.
  apply Z.ltb_ge in E1.
  apply orb_false_elim in E2 as [E2 E4].
  apply orb_false_elim in E2 as [E2 E3]. auto.
Qed.

Lemma periodic_arith (n : nat) :
  (S n - S n / 10 = (n - n / 10) + if (S n mod 10 =? 0) then 0 else 1)%nat.
Proof.
  pose proof (Nat.div_mod_eq n 10) as H1.
  pose proof (Nat.div_mod_eq (S n) 10) as H2.
  pose proof (Nat.mod_upper_bound n 10 ltac:(lia)) as H3.
  pose proof (Nat.mod_upper_bound (S n) 10 ltac:(lia)) as H4.
  generalize dependent (n / 10)%nat. generalize dependent (n mod 10)%nat.
  generalize dependent (S n / 10)%nat. generalize dependent (S n mod 10)%nat.
  intros m' Hm' q' H2 m Hm q H1.
  destruct (Nat.eqb_spec m' 0).
  - subst m'. assert (q' = S q) by lia. lia.
  - assert (q' = q) by lia. lia.
Qed.

(** X6.  Of the records of a chunk that pass the value and the address test,
    [filter] drops one in ten: it returns as many records as pass the two
    tests, less the tenth of that number, rounded down. *)
Theorem filter_drops_one_in_ten (records : list Pipeline.record) :
  length (Pipeline.filter records) = (rank records - rank records / 10)%nat.
Proof.
  induction records as [|x records IH] using rev_ind; [reflexivity|].
  rewrite filter_snoc, length_app, IH, rank_snoc.
  destruct (eligible x); cbn [andb].
  - replace (rank records + 1)%nat with (S (rank records)) by lia.
    rewrite periodic_arith.
    now destruct (S (rank records) mod 10 =? 0)%nat.
  - cbn [length]. now rewrite !Nat.add_0_r.
Qed.

Lemma filter_short (records : list Pipeline.record) :
  (rank records < 10)%nat ->
  Pipeline.filter records = List.filter eligible records.
Proof.
  induction records as [|x records IH] using rev_ind; [reflexivity|].
  rewrite rank_snoc. intros Hlt.
  rewrite filter_snoc, List.filter_app, IH by lia. f_equal.
  rewrite rank_snoc. cbn [List.filter]. destruct (eligible x); [|reflexivity].
  cbn [andb]. rewrite Nat.mod_small by lia.
  now replace (rank records + 1)%nat with (S (rank records)) by lia.
Qed.

(** X7.  On a chunk in which fewer than ten records pass the value and the
    address test, the periodic rule drops nothing: [filter] returns exactly
    the records that pass the two tests. *)
Theorem filter_below_ten (records : list Pipeline.record) :
  (rank records < 10)%nat ->
  Pipeline.filter records = List.filter eligible records.
Proof. apply filter_short. Qed.
End Kept.

Lemma dedup_ids_distinct_witness :
  let file := [Fields ["id"; "address"; "suburb"; "date"; "value"];
               Fields ["1"; "10 Main ST"; "Springfield"; "1/2/20"; "500000"];
               Fields ["2"; "20 Oak ST"; "Shelbyville"; "3/4/20"; "350000"];
               Fields ["1"; "10 Main ST"; "Springfield"; "1/2/20"; "500000"];
               Fields ["3"; "30 Elm ST"; "Shelbyville"; "3/5/20"; "450000"]] in
  let kept := [Pipeline.mkRecord 2 "20 Oak ST" "Shelbyville" (mkTime 2020 3 4) 350000;
               Pipeline.mkRecord 3 "30 Elm ST" "Shelbyville" (mkTime 2020 3 5) 450000] in
  Pipeline.loadAndDeduplicateRecords (lib := Decimal.lib) file = Ok kept
  /\ NoDup (map Pipeline.id kept).
Proof.
  cbv zeta. split; [reflexivity|].
  apply (dedup_ids_distinct (lib := Decimal.lib)
           [Fields ["id"; "address"; "suburb"; "date"; "value"];
            Fields ["1"; "10 Main ST"; "Springfield"; "1/2/20"; "500000"];
            Fields ["2"; "20 Oak ST"; "Shelbyville"; "3/4/20"; "350000"];
            Fields ["1"; "10 Main ST"; "Springfield"; "1/2/20"; "500000"];
            Fields ["3"; "30 Elm ST"; "Shelbyville"; "3/5/20"; "450000"]]).
  reflexivity.
Defined.

Lemma filter_below_ten_witness :
  let records :=
    [Pipeline.mkRecord 1 "10 Main ST" "Springfield" (mkTime 2020 1 2) 500000;
     Pipeline.mkRecord 2 "20 Oak AVE" "Shelbyville" (mkTime 2020 3 4) 450000;
     Pipeline.mkRecord 3 "30 Elm ST" "Shelbyville" (mkTime 2020 3 5) 350000] in
  (rank (lib := Decimal.lib) records < 10)%nat
  /\ Pipeline.filter (lib := Decimal.lib) records
     = List.filter (eligible (lib := Decimal.lib)) records.
Proof.
  cbv zeta. split; [vm_compute; lia|].
  apply (filter_below_ten (lib := Decimal.lib)). vm_compute; lia.
Defined.

(** ** The chunks, for every value of the flag *)

Lemma chunks_inv {A} (g : Z) (recordsDedup : list A) (cs : list (list A)) :
  Pipeline.chunks g recordsDedup = Some cs ->
  let n := Z.of_nat (length recordsDedup) in
  let chunkSize := Z.max (Z.quot n g) 1 in
  concat cs = recordsDedup
  /\ Forall (fun c => (Z.of_nat (length c) <= chunkSize)%Z) cs
  /\ length cs
     = Z.to_nat (1 + (n - Z.min chunkSize n + chunkSize - 1) / chunkSize).
Proof.
  intros H n chunkSize. unfold Pipeline.chunks, Pipeline.chunkBounds in H.
  fold n in H. rewrite max_Zmax, min_Zmin in H. fold chunkSize in H.
  destruct (chunkLoop_spec chunkSize n ltac:(lia) (S (Z.to_nat n)) 0
              (Z.min chunkSize n)) as (bounds & Hb & Hc & Hl & Hall); try lia.
  rewrite Hb in H. inversion H; subst cs; clear H. split; [|split].
  - rewrite (concat_contiguous _ _ 0 n) by (auto; lia). apply slice_all.
  - apply List.Forall_forall. intros c Hin. apply in_map_iff in Hin as ([a b] & <- & Hin).
    apply list_elem_of_In, list_elem_of_lookup_1 in Hin as [i Hi].
    destruct (Hall i a b Hi) as (Ha & Hbn & Hsz & _).
    unfold Pipeline.slice. simpl. rewrite length_firstn. lia.
  - now rewrite length_map.
Qed.

(** X8.  For [n] records and a flag [W] of at least one, [processFile] starts
    [max n 1] goroutines when [n] is below [W], and otherwise at least [W]
    and at most [2 W - 1] of them. *)
Theorem goroutines_started {A} (recordsDedup : list A) (W : Z)
    (cs : list (list A)) :
  (1 <= W)%Z ->
  Pipeline.chunks W recordsDedup = Some cs ->
  let n := Z.of_nat (length recordsDedup) in
  ((n < W)%Z -> Z.of_nat (length cs) = Z.max n 1)
  /\ ((W <= n)%Z -> (W <= Z.of_nat (length cs) <= 2 * W - 1)%Z).
Proof.
  intros HW H n. destruct (chunks_inv _ _ _ H) as (_ & _ & Hl).
  fold n in Hl. rewrite Hl. clear Hl H.
  assert (Hn : (0 <= n)%Z) by (subst n; lia).
  rewrite Z.quot_div_nonneg by lia.
  pose proof (Z.div_mod n W ltac:(lia)) as Hdm.
  pose proof (Z.mod_pos_bound n W ltac:(lia)) as Hm.
  set (q := (n / W)%Z) in *. set (r := (n mod W)%Z) in *.
  split.
  - intros Hlt. assert (q = 0%Z) as -> by (subst q; apply Z.div_small; lia).
    rewrite Z.max_r by lia.
    destruct (Z.eq_dec n 0%Z) as [Hz|Hne]; [rewrite Hz|].
    + reflexivity.
    + rewrite Z.min_l by lia.
      replace (n - 1 + 1 - 1)%Z with (n - 1)%Z by lia.
      rewrite Z.div_1_r. lia.
  - intros Hle. assert (Hq : (1 <= q)%Z).
    { subst q. apply Z.div_le_lower_bound; lia. }
    rewrite Z.max_l by lia. rewrite Z.min_l by nia.
    replace (n - q + q - 1)%Z with (n - 1)%Z by lia.
    assert (Hlo : (W - 1 <= (n - 1) / q)%Z)
      by (apply Z.div_le_lower_bound; nia).
    assert (Hhi : ((n - 1) / q < 2 * W - 1)%Z)
      by (apply Z.div_lt_upper_bound; nia).
    lia.
Qed.

Lemma goroutines_started_witness :
  (1 <= 4)%Z
  /\ Pipeline.chunks 4 (seq 0 7)
     = Some [[0]; [1]; [2]; [3]; [4]; [5]; [6]]%nat
  /\ (4 <= Z.of_nat (length [[0]; [1]; [2]; [3]; [4]; [5]; [6]]%nat) <= 2 * 4 - 1)%Z.
Proof.
  split; [lia|]. split; [reflexivity|].
  apply (goroutines_started (seq 0 7) 4
           [[0]; [1]; [2]; [3]; [4]; [5]; [6]]%nat); [lia|reflexivity|].
  simpl. lia.
Defined.

Lemma filter_concat {A} (p : A -> bool) (ls : list (list A)) :
  concat (map (List.filter p) ls) = List.filter p (concat ls).
Proof.
  induction ls as [|l ls IH]; simpl; [reflexivity|].
  now rewrite List.filter_app, IH.
Qed.

Lemma rank_le_length `{lib : GoLib} (records : list Pipeline.record) :
  (rank records <= length records)%nat.
Proof. unfold rank. apply List.filter_length_le. Qed.

(** X9.  When there are fewer than ten records per worker ([n < 10 W]), no
    chunk reaches the tenth record and the periodic rule drops nothing: the
    workers together send exactly the deduplicated records that pass the
    value and the address test. *)
Theorem no_periodic_drop_below_ten_per_worker `{lib : GoLib}
    (recordsDedup : list Pipeline.record) (W : Z)
    (cs : list (list Pipeline.record)) :
  (1 <= W)%Z ->
  (Z.of_nat (length recordsDedup) < 10 * W)%Z ->
  Pipeline.chunks W recordsDedup = Some cs ->
  concat (map Pipeline.filter cs) = List.filter eligible recordsDedup.
Proof.
  intros HW Hn H. destruct (chunks_inv _ _ _ H) as (Hcat & Hsz & _).
  rewrite <- Hcat. rewrite <- filter_concat. f_equal.
  apply map_ext_in. intros c Hin. apply filter_short.
  rewrite List.Forall_forall in Hsz. specialize (Hsz c Hin).
  pose proof (rank_le_length c) as Hr.
  rewrite Z.quot_div_nonneg in Hsz by lia.
  assert (Z.of_nat (length recordsDedup) / W < 10)%Z
    by (apply Z.div_lt_upper_bound; lia).
  lia.
Qed.

Lemma no_periodic_drop_below_ten_per_worker_witness :
  let sale (k : nat) :=
    Pipeline.mkRecord (Z.of_nat k) "1 First ST" "Ayr" (mkTime 2020 1 2) 500000 in
  (1 <= 2)%Z
  /\ (Z.of_nat (length (map sale (seq 1 11))) < 10 * 2)%Z
  /\ exists cs,
      Pipeline.chunks 2 (map sale (seq 1 11)) = Some cs
      /\ concat (map (Pipeline.filter (lib := Decimal.lib)) cs)
         = List.filter (eligible (lib := Decimal.lib)) (map sale (seq 1 11)).
Proof.
  cbv zeta. split; [lia|]. split; [simpl; lia|].
  destruct (chunks_total 2
              (map (fun k : nat =>
                      Pipeline.mkRecord (Z.of_nat k) "1 First ST" "Ayr"
                        (mkTime 2020 1 2) 500000) (seq 1 11))) as [cs Hcs].
  exists cs. split; [exact Hcs|].
  apply (no_periodic_drop_below_ten_per_worker (lib := Decimal.lib) _ 2 cs);
    [lia|simpl; lia|exact Hcs].
Defined.

(** ** The table [test_4] leaves, whatever the order of reception *)

Lemma writeAll_putAll (recs : list Pipeline.record) (m : gmap Z (Row Z))
    (b : option nat) :
  Pipeline.writeAll recs (mkTx m b)
  = match b with
    | Some k =>
        if (length recs <=? k)%nat
        then Ok (mkTx (putAll recs m) (Some (k - length recs)%nat))
        else Err storeError
    | None => Ok (mkTx (putAll recs m) None)
    end.
Proof. exact (writeAll_spend recs m b). Qed.

Lemma putAll_other (recs : list Pipeline.record) (k : Z) :
  forall m, ~ In k (map Pipeline.id recs) -> putAll recs m !! k = m !! k.
Proof.
  induction recs as [|x recs IH]; intros m Hk; simpl in *; [reflexivity|].
  unfold putAll in *. simpl. rewrite IH by tauto.
  unfold sqlInsertOrReplace. apply lookup_insert_ne. tauto.
Qed.

Lemma putAll_member (recs : list Pipeline.record) (rec : Pipeline.record) :
  forall m, NoDup (map Pipeline.id recs) -> In rec recs ->
            putAll recs m !! Pipeline.id rec = Some (rowOf rec).
Proof.
  induction recs as [|x recs IH]; intros m Hnd Hin; [destruct Hin|].
  simpl in Hnd. apply NoDup_cons in Hnd as [Hx Hnd].
  unfold putAll in *. simpl. destruct Hin as [->|Hin].
  - fold (putAll recs (sqlInsertOrReplace (Pipeline.id rec) (rowOf rec) m)).
    rewrite putAll_other by (now rewrite <- list_elem_of_In).
    apply lookup_insert_eq.
  - now apply IH.
Qed.

Lemma putAll_perm (l1 l2 : list Pipeline.record) (m : gmap Z (Row Z)) :
  Permutation l1 l2 -> NoDup (map Pipeline.id l1) -> putAll l1 m = putAll l2 m.
Proof.
  intros Hperm Hnd.
  assert (Hnd2 : NoDup (map Pipeline.id l2)).
  { eapply NoDup_Permutation_proper; [|exact Hnd].
    symmetry. now apply Permutation_map. }
  apply map_eq. intros k.
  destruct (in_dec Z.eq_dec k (map Pipeline.id l1)) as [Hin|Hin].
  - apply in_map_iff in Hin as (rec & <- & Hrec).
    rewrite (putAll_member l1) by assumption.
    rewrite (putAll_member l2); auto. eapply Permutation_in; eauto.
  - rewrite !putAll_other; auto.
    intros Hin2. apply Hin. eapply Permutation_in; [|exact Hin2].
    symmetry. now apply Permutation_map.
Qed.

Lemma putAll_idem (recs : list Pipeline.record) (m : gmap Z (Row Z)) :
  NoDup (map Pipeline.id recs) -> putAll recs (putAll recs m) = putAll recs m.
Proof.
  intros Hnd. apply map_eq. intros k.
  destruct (in_dec Z.eq_dec k (map Pipeline.id recs)) as [Hin|Hin].
  - apply in_map_iff in Hin as (rec & <- & Hrec).
    now rewrite !putAll_member.
  - now rewrite (putAll_other recs k (putAll recs m)).
Qed.

Lemma sublist_map {A B} (f : A -> B) (l1 l2 : list A) :
  l1 `sublist_of` l2 -> map f l1 `sublist_of` map f l2.
Proof. induction 1; simpl; now constructor. Qed.

Section Writes.
Context {lib : GoLib}.

Lemma filtered_sublist (cs : list (list Pipeline.record)) :
  concat (map Pipeline.filter cs) `sublist_of` concat cs.
Proof.
  induction cs as [|c cs IH]; simpl; [constructor|].
  apply sublist_app; [apply filter_sublist|exact IH].
Qed.

Lemma accepted_NoDup g (r : Reader) recordsDedup cs :
  Pipeline.loadAndDeduplicateRecords r = Ok recordsDedup ->
  Pipeline.chunks g recordsDedup = Some cs ->
  NoDup (map Pipeline.id (concat (map Pipeline.filter cs))).
Proof.
  intros Hload Hcs. apply dedup_NoDup in Hload.
  destruct (chunks_inv _ _ _ Hcs) as (Hcat & _).
  eapply sublist_NoDup; [exact Hload|].
  apply sublist_map. rewrite <- Hcat. apply filtered_sublist.
Qed.

Lemma received_NoDup g (r : Reader) recordsDedup cs sched :
  Pipeline.loadAndDeduplicateRecords r = Ok recordsDedup ->
  Pipeline.chunks g recordsDedup = Some cs ->
  NoDup (map Pipeline.id (Pipeline.interleave sched (map Pipeline.filter cs))).
Proof.
  intros Hload Hcs.
  eapply NoDup_Permutation_proper; [|eapply accepted_NoDup; eauto].
  apply Permutation_map, interleave_perm.
Qed.

Lemma processFile_any_order g (r : Reader) (sched1 sched2 : list nat)
    (tx : Tx Z) :
  Pipeline.processFile g (r, sched1) tx = Pipeline.processFile g (r, sched2) tx.
Proof.
  unfold Pipeline.processFile. cbn [fst snd].
  destruct (Pipeline.loadAndDeduplicateRecords r) as [dedup| |] eqn:Hload;
    cbn [bind]; try reflexivity.
  destruct (g =? 0)%Z; [reflexivity|].
  destruct (Pipeline.chunks g dedup) as [cs|] eqn:Hcs; [|reflexivity].
  destruct tx as [m b]. rewrite !writeAll_putAll.
  assert (Hperm : Permutation
                    (Pipeline.interleave sched1 (map Pipeline.filter cs))
                    (Pipeline.interleave sched2 (map Pipeline.filter cs))).
  { rewrite !interleave_perm. reflexivity. }
  rewrite (Permutation_length Hperm).
  rewrite (putAll_perm _ _ m Hperm) by (eapply received_NoDup; eauto).
  reflexivity.
Qed.

(** X10.  What [processFile] of [test_4] returns, table and error alike,
    does not depend on the order in which the select loop receives the
    records of the workers. *)
Theorem processFile_order_irrelevant g (r : Reader) (sched1 sched2 : list nat)
    (tx : Tx Z) :
  Pipeline.processFile g (r, sched1) tx = Pipeline.processFile g (r, sched2) tx.
Proof. apply processFile_any_order. Qed.

(** X11.  Every run of the goroutines of [processFile] that ends returns the
    same: if after some steps the select loop has returned [res], then [res]
    is what [processFile] returns for the order of reception in which the
    workers are served one after the other. *)
Theorem goroutines_return_one_result g (r : Reader) recordsDedup tx0 s0
    (trace : list Pipeline.label) (s : Pipeline.state) (res : result (Tx Z)) :
  Pipeline.loadAndDeduplicateRecords r = Ok recordsDedup ->
  Pipeline.start g recordsDedup tx0 = Some s0 ->
  Pipeline.run trace s0 = Some s ->
  Pipeline.writerSt s = Pipeline.Returned res ->
  res = Pipeline.processFile g (r, []) tx0.
Proof.
  intros Hload Hstart Hrun Hw.
  destruct (machine_refines_processFile _ _ _ _ _ _ _ _ Hload Hstart Hrun Hw)
    as [sched <-].
  apply processFile_any_order.
Qed.

(** X12.  After a successful [processFile] of [test_4], every record the
    filter accepted is in the table, with its own address, suburb, date and
    value, whatever row the table held for its id before; every other id has
    the row, or no row, it had before. *)
Theorem processFile_table g (file : Reader * list nat) recordsDedup cs
    (tx tx' : Tx Z) :
  Pipeline.loadAndDeduplicateRecords (fst file) = Ok recordsDedup ->
  Pipeline.chunks g recordsDedup = Some cs ->
  Pipeline.processFile g file tx = Ok tx' ->
  (forall rec, In rec (concat (map Pipeline.filter cs)) ->
               rows tx' !! Pipeline.id rec = Some (rowOf rec))
  /\ (forall k, ~ In k (map Pipeline.id (concat (map Pipeline.filter cs))) ->
                rows tx' !! k = rows tx !! k).
Proof.
  intros Hload Hcs H. unfold Pipeline.processFile in H.
  rewrite Hload in H. cbn [bind] in H.
  destruct (g =? 0)%Z; [discriminate|]. rewrite Hcs in H.
  destruct tx as [m b]. rewrite writeAll_putAll in H.
  assert (Hrows : rows tx'
                  = putAll (Pipeline.interleave (snd file) (map Pipeline.filter cs)) m).
  { destruct b as [k|]; [destruct (_ <=? k)%nat; [|discriminate]|];
      now inversion H. }
  rewrite Hrows. simpl. split.
  - intros rec Hin. apply putAll_member.
    + destruct file as [r sched]. eapply received_NoDup; eauto.
    + eapply Permutation_in; [|exact Hin]. symmetry. apply interleave_perm.
  - intros k Hk. apply putAll_other. intros Hin. apply Hk.
    eapply Permutation_in; [|exact Hin].
    apply Permutation_map, interleave_perm.
Qed.

(** X13.  Ingesting a file twice with [test_4] leaves the table as ingesting
    it once, whatever the two orders of reception (the store accepting the
    same number of executions in both runs). *)
Theorem Pipeline_ingest_twice g (r : Reader) (sched1 sched2 : list nat)
    (b : option nat) (db : gmap Z (Row Z)) :
  ingest (Pipeline.processFile g) (r, sched2) b
    (ingest (Pipeline.processFile g) (r, sched1) b db)
  = ingest (Pipeline.processFile g) (r, sched1) b db.
Proof.
  unfold ingest. cbn [mainLoop fst]. unfold Begin, Commit.
  rewrite (processFile_any_order g r sched2 sched1).
  unfold Pipeline.processFile. cbn [fst snd].
  destruct (Pipeline.loadAndDeduplicateRecords r) as [dedup| |] eqn:Hload;
    cbn [bind]; try reflexivity.
  destruct (g =? 0)%Z; [reflexivity|].
  destruct (Pipeline.chunks g dedup) as [cs|] eqn:Hcs; [|reflexivity].
  rewrite !writeAll_putAll.
  pose proof (received_NoDup g r dedup cs sched1 Hload Hcs) as Hnd.
  destruct b as [k|];
    [destruct (length (Pipeline.interleave sched1 (map Pipeline.filter cs))
               <=? k)%nat eqn:E|];
    cbn [fst rows]; rewrite ?E; cbn [fst rows]; try reflexivity;
    now apply putAll_idem.
Qed.
End Writes.

Lemma goroutines_return_one_result_witness :
  let file := [Fields ["id"; "address"; "suburb"; "date"; "value"];
               Fields ["1"; "1 First ST"; "Ayr"; "1/2/20"; "500000"];
               Fields ["2"; "2 Second ST"; "Ayr"; "1/3/20"; "600000"];
               Fields ["3"; "3 Third ST"; "Ayr"; "1/4/20"; "700000"]] in
  let r1 := Pipeline.mkRecord 1 "1 First ST" "Ayr" (mkTime 2020 1 2) 500000 in
  let r2 := Pipeline.mkRecord 2 "2 Second ST" "Ayr" (mkTime 2020 1 3) 600000 in
  let r3 := Pipeline.mkRecord 3 "3 Third ST" "Ayr" (mkTime 2020 1 4) 700000 in
  let trace := [Pipeline.Recv 0; Pipeline.Recv 2; Pipeline.WgDone 0;
                Pipeline.Recv 1; Pipeline.WgDone 2; Pipeline.WgDone 1;
                Pipeline.WaitReturns; Pipeline.RecvDone] in
  let s0 := Pipeline.spawned [[r1]; [r2]; [r3]] (mkTx ∅ None) in
  let res : result (Tx Z) :=
    Ok (mkTx (<[2%Z := rowOf r2]> (<[3%Z := rowOf r3]> {[1%Z := rowOf r1]})) None) in
  let s := Pipeline.mkState [Pipeline.Exited; Pipeline.Exited; Pipeline.Exited]
             0 Pipeline.WaiterExited (Pipeline.Returned res) [r1; r3; r2] in
  Pipeline.loadAndDeduplicateRecords (lib := Decimal.lib) file = Ok [r1; r2; r3]
  /\ Pipeline.start (lib := Decimal.lib) 2 [r1; r2; r3] (mkTx ∅ None) = Some s0
  /\ Pipeline.run trace s0 = Some s
  /\ res = Pipeline.processFile (lib := Decimal.lib) 2 (file, []) (mkTx ∅ None).
Proof.
  cbv zeta. split; [vm_compute; reflexivity|].
  split; [vm_compute; reflexivity|].
  split; [vm_compute; reflexivity|].
  apply (goroutines_return_one_result (lib := Decimal.lib) 2
           [Fields ["id"; "address"; "suburb"; "date"; "value"];
            Fields ["1"; "1 First ST"; "Ayr"; "1/2/20"; "500000"];
            Fields ["2"; "2 Second ST"; "Ayr"; "1/3/20"; "600000"];
            Fields ["3"; "3 Third ST"; "Ayr"; "1/4/20"; "700000"]]
           [Pipeline.mkRecord 1 "1 First ST" "Ayr" (mkTime 2020 1 2) 500000;
            Pipeline.mkRecord 2 "2 Second ST" "Ayr" (mkTime 2020 1 3) 600000;
            Pipeline.mkRecord 3 "3 Third ST" "Ayr" (mkTime 2020 1 4) 700000]
           (mkTx ∅ None)
           (Pipeline.spawned
              [[Pipeline.mkRecord 1 "1 First ST" "Ayr" (mkTime 2020 1 2) 500000];
               [Pipeline.mkRecord 2 "2 Second ST" "Ayr" (mkTime 2020 1 3) 600000];
               [Pipeline.mkRecord 3 "3 Third ST" "Ayr" (mkTime 2020 1 4) 700000]]
              (mkTx ∅ None))
           [Pipeline.Recv 0; Pipeline.Recv 2; Pipeline.WgDone 0;
            Pipeline.Recv 1; Pipeline.WgDone 2; Pipeline.WgDone 1;
            Pipeline.WaitReturns; Pipeline.RecvDone]
           (Pipeline.mkState [Pipeline.Exited; Pipeline.Exited; Pipeline.Exited]
              0 Pipeline.WaiterExited
              (Pipeline.Returned
                 (Ok (mkTx (<[2%Z := mkRow "2 Second ST" "Ayr" (mkTime 2020 1 3) 600000%Z]>
                            (<[3%Z := mkRow "3 Third ST" "Ayr" (mkTime 2020 1 4) 700000%Z]>
                             {[1%Z := mkRow "1 First ST" "Ayr" (mkTime 2020 1 2) 500000%Z]}))
                        None)))
              [Pipeline.mkRecord 1 "1 First ST" "Ayr" (mkTime 2020 1 2) 500000;
               Pipeline.mkRecord 3 "3 Third ST" "Ayr" (mkTime 2020 1 4) 700000;
               Pipeline.mkRecord 2 "2 Second ST" "Ayr" (mkTime 2020 1 3) 600000]));
    vm_compute; reflexivity.
Defined.

Lemma processFile_table_witness :
  let file := [Fields ["id"; "address"; "suburb"; "date"; "value"];
               Fields ["1"; "1 First ST"; "Ayr"; "1/2/20"; "500000"];
               Fields ["2"; "2 Second AVE"; "Ayr"; "1/3/20"; "600000"]] in
  let r1 := Pipeline.mkRecord 1 "1 First ST" "Ayr" (mkTime 2020 1 2) 500000 in
  let r2 := Pipeline.mkRecord 2 "2 Second AVE" "Ayr" (mkTime 2020 1 3) 600000 in
  let old := mkRow "9 Old RD" "Bowen" (mkTime 2019 5 6) 1%Z in
  let tx := mkTx ({[1%Z := old]} : gmap Z (Row Z)) None in
  let tx' := mkTx ({[1%Z := rowOf r1]} : gmap Z (Row Z)) None in
  Pipeline.loadAndDeduplicateRecords (lib := Decimal.lib) file = Ok [r1; r2]
  /\ Pipeline.chunks 1 [r1; r2] = Some [[r1; r2]]
  /\ Pipeline.processFile (lib := Decimal.lib) 1 (file, []) tx = Ok tx'
  /\ rows tx' !! 1%Z = Some (rowOf r1).
Proof.
  cbv zeta. split; [vm_compute; reflexivity|].
  split; [vm_compute; reflexivity|].
  split; [vm_compute; reflexivity|].
  refine (proj1 (processFile_table (lib := Decimal.lib) 1
                   ([Fields ["id"; "address"; "suburb"; "date"; "value"];
                     Fields ["1"; "1 First ST"; "Ayr"; "1/2/20"; "500000"];
                     Fields ["2"; "2 Second AVE"; "Ayr"; "1/3/20"; "600000"]], [])
                   [Pipeline.mkRecord 1 "1 First ST" "Ayr" (mkTime 2020 1 2) 500000;
                    Pipeline.mkRecord 2 "2 Second AVE" "Ayr" (mkTime 2020 1 3) 600000]
                   [[Pipeline.mkRecord 1 "1 First ST" "Ayr" (mkTime 2020 1 2) 500000;
                     Pipeline.mkRecord 2 "2 Second AVE" "Ayr" (mkTime 2020 1 3) 600000]]
                   (mkTx {[1%Z := mkRow "9 Old RD" "Bowen" (mkTime 2019 5 6) 1%Z]} None)
                   (mkTx {[1%Z := mkRow "1 First ST" "Ayr" (mkTime 2020 1 2) 500000%Z]} None)
                   _ _ _)
            (Pipeline.mkRecord 1 "1 First ST" "Ayr" (mkTime 2020 1 2) 500000) _);
    vm_compute; auto.
Defined.

(** ** The select loop and the workers *)

Lemma exited_no_send (ws : list Pipeline.worker) (k : nat) :
  Forall (eq Pipeline.Exited) ws ->
  match ws !! k with
  | Some (Pipeline.Sending _) => False
  | _ => True
  end.
Proof.
  intros H. destruct (ws !! k) as [w|] eqn:E; [|exact I].
  apply list_elem_of_lookup_2, list_elem_of_In in E.
  rewrite List.Forall_forall in H. now rewrite <- (H w E).
Qed.

(** X14.  The select never has to choose between a record and the end
    signal: in a state the goroutines can reach, when the send on [doneCh] can
    be received no worker has a record to send. *)
Theorem done_signal_excludes_records `{lib : GoLib} g recordsDedup tx0 s0
    (trace : list Pipeline.label) (s s' : Pipeline.state) (k : nat) :
  Pipeline.start g recordsDedup tx0 = Some s0 ->
  Pipeline.run trace s0 = Some s ->
  Pipeline.step Pipeline.RecvDone s = Some s' ->
  Pipeline.step (Pipeline.Recv k) s = None /\ concat (pendings s) = [].
Proof.
  intros Hstart Hrun Hdone. unfold Pipeline.start in Hstart.
  destruct (g =? 0)%Z; [discriminate|].
  destruct (Pipeline.chunks g recordsDedup) as [cs|]; [|discriminate].
  inversion Hstart; subst s0; clear Hstart.
  pose proof (run_consistent _ _ _ _ _
                (spawned_consistent (map Pipeline.filter cs) tx0) Hrun)
    as [I1 I2 I3 I4 I5].
  destruct s as [ws n wt wr recvd]. simpl in *.
  destruct wt; try discriminate.
  assert (Hn : n = O) by (apply I3; discriminate).
  rewrite Hn in I1. symmetry in I1. apply live_zero in I1.
  split.
  - pose proof (exited_no_send ws k I1) as Hk.
    destruct (ws !! k) as [[[|rec rest]|]|]; try reflexivity; contradiction.
  - unfold pendings. simpl. now apply exited_pending.
Qed.

Lemma returned_step (l : Pipeline.label) (s s' : Pipeline.state)
    (res : result (Tx Z)) :
  Pipeline.writerSt s = Pipeline.Returned res ->
  Pipeline.step l s = Some s' ->
  Pipeline.writerSt s' = Pipeline.Returned res
  /\ Pipeline.received s' = Pipeline.received s
  /\ pendings s' = pendings s.
Proof.
  destruct s as [ws n wt wr recvd]. unfold pendings. simpl. intros ->.
  destruct l as [k|k| |]; simpl; intros H.
  - destruct (ws !! k) as [[[|rec rest]|]|]; discriminate.
  - destruct (ws !! k) as [[[|rec rest]|]|] eqn:Hk; try discriminate.
    inversion H; subst s'; simpl.
    now rewrite (pending_insert_done _ _ Hk).
  - destruct wt; try discriminate. destruct n; try discriminate.
    now inversion H; subst s'.
  - destruct wt; discriminate.
Qed.

(** X15.  Once [processFile] has returned, with nil or with an error,
    nothing more is received or written, whatever the other goroutines do:
    the records a worker had not sent yet when a write failed are never
    sent, and the worker stays at its send. *)
Theorem nothing_after_return (trace : list Pipeline.label)
    (s s' : Pipeline.state) (res : result (Tx Z)) :
  Pipeline.writerSt s = Pipeline.Returned res ->
  Pipeline.run trace s = Some s' ->
  Pipeline.writerSt s' = Pipeline.Returned res
  /\ Pipeline.received s' = Pipeline.received s
  /\ pendings s' = pendings s.
Proof.
  revert s. induction trace as [|l trace IH]; intros s Hw H; simpl in H.
  - inversion H; subst. auto.
  - destruct (Pipeline.step l s) as [s1|] eqn:E; [|discriminate].
    destruct (returned_step _ _ _ _ Hw E) as (Hw1 & Hr1 & Hp1).
    destruct (IH _ Hw1 H) as (Hw' & Hr' & Hp').
    rewrite Hw', Hr', Hp', Hr1, Hp1. auto.
Qed.

Lemma done_signal_excludes_records_witness :
  let r1 := Pipeline.mkRecord 1 "1 First ST" "Ayr" (mkTime 2020 1 2) 500000 in
  let s0 := Pipeline.spawned [[r1]] (mkTx ∅ None) in
  let tx := mkTx ({[1%Z := rowOf r1]} : gmap Z (Row Z)) None in
  let s := Pipeline.mkState [Pipeline.Exited] 0 Pipeline.Signalling
             (Pipeline.Selecting tx) [r1] in
  let s' := Pipeline.mkState [Pipeline.Exited] 0 Pipeline.WaiterExited
              (Pipeline.Returned (Ok tx)) [r1] in
  Pipeline.start (lib := Decimal.lib) 1 [r1] (mkTx ∅ None) = Some s0
  /\ Pipeline.run [Pipeline.Recv 0; Pipeline.WgDone 0; Pipeline.WaitReturns] s0
     = Some s
  /\ Pipeline.step Pipeline.RecvDone s = Some s'
  /\ Pipeline.step (Pipeline.Recv 0) s = None.
Proof.
  cbv zeta. split; [vm_compute; reflexivity|].
  split; [vm_compute; reflexivity|].
  split; [vm_compute; reflexivity|].
  refine (proj1 (done_signal_excludes_records (lib := Decimal.lib) 1
                   [Pipeline.mkRecord 1 "1 First ST" "Ayr" (mkTime 2020 1 2) 500000]
                   (mkTx ∅ None) _
                   [Pipeline.Recv 0; Pipeline.WgDone 0; Pipeline.WaitReturns]
                   _
                   (Pipeline.mkState [Pipeline.Exited] 0 Pipeline.WaiterExited
                      (Pipeline.Returned
                         (Ok (mkTx {[1%Z := mkRow "1 First ST" "Ayr"
                                               (mkTime 2020 1 2) 500000%Z]} None)))
                      [Pipeline.mkRecord 1 "1 First ST" "Ayr" (mkTime 2020 1 2) 500000])
                   0%nat _ _ _));
    vm_compute; reflexivity.
Defined.

Lemma nothing_after_return_witness :
  let r1 := Pipeline.mkRecord 1 "1 First ST" "Ayr" (mkTime 2020 1 2) 500000 in
  let r2 := Pipeline.mkRecord 2 "2 Second ST" "Ayr" (mkTime 2020 1 3) 600000 in
  let r3 := Pipeline.mkRecord 3 "3 Third ST" "Ayr" (mkTime 2020 1 4) 700000 in
  let s1 := Pipeline.mkState [Pipeline.Sending [r3]; Pipeline.Sending []] 2
              Pipeline.Waiting (Pipeline.Returned (Err storeError)) [r1; r2] in
  let s2 := Pipeline.mkState [Pipeline.Sending [r3]; Pipeline.Exited] 1
              Pipeline.Waiting (Pipeline.Returned (Err storeError)) [r1; r2] in
  Pipeline.run [Pipeline.Recv 0; Pipeline.Recv 0]
    (Pipeline.spawned [[r1; r2; r3]; []] (mkTx ∅ (Some 1%nat))) = Some s1
  /\ Pipeline.run [Pipeline.WgDone 1] s1 = Some s2
  /\ pendings s2 = [[r3]; []].
Proof.
  cbv zeta. split; [vm_compute; reflexivity|].
  split; [vm_compute; reflexivity|].
  refine (eq_trans
            (proj2 (proj2 (nothing_after_return [Pipeline.WgDone 1]
                             (Pipeline.mkState
                                [Pipeline.Sending
                                   [Pipeline.mkRecord 3 "3 Third ST" "Ayr"
                                      (mkTime 2020 1 4) 700000];
                                 Pipeline.Sending []] 2
                                Pipeline.Waiting
                                (Pipeline.Returned (Err storeError))
                                [Pipeline.mkRecord 1 "1 First ST" "Ayr"
                                   (mkTime 2020 1 2) 500000;
                                 Pipeline.mkRecord 2 "2 Second ST" "Ayr"
                                   (mkTime 2020 1 3) 600000])
                             (Pipeline.mkState
                                [Pipeline.Sending
                                   [Pipeline.mkRecord 3 "3 Third ST" "Ayr"
                                      (mkTime 2020 1 4) 700000];
                                 Pipeline.Exited] 1
                                Pipeline.Waiting
                                (Pipeline.Returned (Err storeError))
                                [Pipeline.mkRecord 1 "1 First ST" "Ayr"
                                   (mkTime 2020 1 2) 500000;
                                 Pipeline.mkRecord 2 "2 Second ST" "Ayr"
                                   (mkTime 2020 1 3) 600000])
                             (Err storeError) _ _))) _);
    vm_compute; reflexivity.
Defined.

(** ** What [src/main.go] does to the table *)

Lemma Time_le_refl (a : Time) : Time_le a a.
Proof. unfold Time_le. lia. Qed.

Lemma Time_le_trans (a b c : Time) : Time_le a b -> Time_le b c -> Time_le a c.
Proof. unfold Time_le. lia. Qed.

Lemma fold_upsertAt_other (k : Z) (ps : list (Z * Row string)) :
  (forall p, In p ps -> fst p <> k) ->
  forall x, fold_left (RefreshPlan.upsertAt k) ps x = x.
Proof.
  induction ps as [|p ps IH]; intros Hne x; simpl; [reflexivity|].
  rewrite IH by (intros q Hq; apply Hne; now right).
  unfold RefreshPlan.upsertAt.
  destruct (Z.eqb_spec (fst p) k) as [Heq|]; [|reflexivity].
  exfalso. apply (Hne p); [now left|exact Heq].
Qed.

Lemma upsertAt_grows (k : Z) (p : Z * Row string) (old : Row string) :
  exists new, RefreshPlan.upsertAt k (Some old) p = Some new
              /\ Time_le (Date old) (Date new).
Proof.
  unfold RefreshPlan.upsertAt. destruct (fst p =? k)%Z.
  - destruct (Time_leb (Date old) (Date (snd p))) eqn:E.
    + exists (snd p). split; [reflexivity|now apply Time_leb_true].
    + exists old. split; [reflexivity|apply Time_le_refl].
  - exists old. split; [reflexivity|apply Time_le_refl].
Qed.

Lemma fold_upsertAt_grows (k : Z) (ps : list (Z * Row string)) :
  forall old, exists new,
    fold_left (RefreshPlan.upsertAt k) ps (Some old) = Some new
    /\ Time_le (Date old) (Date new).
Proof.
  induction ps as [|p ps IH]; intros old; simpl.
  - exists old. split; [reflexivity|apply Time_le_refl].
  - destruct (upsertAt_grows k p old) as (mid & -> & H1).
    destruct (IH mid) as (new & -> & H2).
    exists new. split; [reflexivity|eapply Time_le_trans; eauto].
Qed.

Lemma upsertAt_covers (k : Z) (p : Z * Row string) (x : option (Row string)) :
  fst p = k ->
  exists new, RefreshPlan.upsertAt k x p = Some new
              /\ Time_le (Date (snd p)) (Date new).
Proof.
  intros Hk. unfold RefreshPlan.upsertAt. rewrite Hk, Z.eqb_refl.
  destruct x as [old|].
  - destruct (Time_leb (Date old) (Date (snd p))) eqn:E.
    + exists (snd p). split; [reflexivity|apply Time_le_refl].
    + exists old. split; [reflexivity|]. apply Time_leb_false in E.
      unfold Time_le in *. lia.
  - exists (snd p). split; [reflexivity|apply Time_le_refl].
Qed.

Lemma fold_upsertAt_covers (k : Z) (ps : list (Z * Row string))
    (p : Z * Row string) :
  In p ps -> fst p = k ->
  forall x, exists new,
    fold_left (RefreshPlan.upsertAt k) ps x = Some new
    /\ Time_le (Date (snd p)) (Date new).
Proof.
  induction ps as [|q ps IH]; intros Hin Hk x; [destruct Hin|]. simpl.
  destruct Hin as [->|Hin].
  - destruct (upsertAt_covers k p x Hk) as (mid & -> & H1).
    destruct (fold_upsertAt_grows k ps mid) as (new & -> & H2).
    exists new. split; [reflexivity|eapply Time_le_trans; eauto].
  - now apply IH.
Qed.

Section RefreshTable.
Context {lib : GoLib}.

Lemma parseRecord_inv (record : list string) (p : Z * Row string) :
  RefreshPlan.parseRecord record = Ok p ->
  exists s0 s3,
    nth_error record 0 = Some s0 /\ ParseInt s0 = Some (fst p)
    /\ nth_error record 3 = Some s3 /\ time_Parse s3 = Some (Date (snd p))
    /\ nth_error record 1 = Some (Address (snd p))
    /\ nth_error record 2 = Some (Suburb (snd p))
    /\ nth_error record 4 = Some (Value (snd p)).
Proof.
  unfold RefreshPlan.parseRecord, index.
  destruct (nth_error record 0) as [s0|]; cbn [bind]; [|discriminate].
  destruct (ParseInt s0) as [id|] eqn:A0; cbn [bind orErr]; [|discriminate].
  destruct (nth_error record 3) as [s3|]; cbn [bind]; [|discriminate].
  destruct (time_Parse s3) as [d|] eqn:A3; cbn [bind orErr]; [|discriminate].
  destruct (nth_error record 1) as [a|]; cbn [bind]; [|discriminate].
  destruct (nth_error record 2) as [sb|]; cbn [bind]; [|discriminate].
  destruct (nth_error record 4) as [v|]; cbn [bind]; [|discriminate].
  intros H; inversion H; subst p. exists s0, s3. simpl. auto 10.
Qed.

Lemma plan_members (r : Reader) :
  forall b ps b',
    RefreshPlan.plan r b = Ok (ps, b') ->
    (forall p, In p ps ->
       exists record, In (Fields record) r /\ isEmptyRecord record = false
                      /\ RefreshPlan.parseRecord record = Ok p)
    /\ (forall record, In (Fields record) r -> isEmptyRecord record = false ->
          exists p, RefreshPlan.parseRecord record = Ok p /\ In p ps).
Proof.
  induction r as [|[record|] r IH]; intros b ps b' H;
    cbn [RefreshPlan.plan] in H.
  - inversion H; subst. split; [intros p []|intros record []].
  - destruct (isEmptyRecord record) eqn:Hnb.
    + destruct (IH _ _ _ H) as [H1 H2]. split.
      * intros p Hp. destruct (H1 p Hp) as (rc & Hin & Hrest).
        exists rc. split; [now right|exact Hrest].
      * intros rc [Heq|Hin] Hrc; [|now apply H2].
        inversion Heq; subst rc. congruence.
    + destruct (RefreshPlan.parseRecord record) as [p0| |] eqn:Hp0;
        cbn [bind] in H; try discriminate.
      destruct (spend b) as [b1| |]; cbn [bind] in H; try discriminate.
      destruct (spend b1) as [b2| |]; cbn [bind] in H; try discriminate.
      destruct (RefreshPlan.plan r b2) as [[ps1 b3]| |] eqn:E;
        cbn [bind fst snd] in H; try discriminate.
      inversion H; subst ps b'; clear H.
      destruct (IH _ _ _ E) as [H1 H2]. split.
      * intros p [<-|Hp].
        -- exists record. split; [now left|auto].
        -- destruct (H1 p Hp) as (rc & Hin & Hrest).
           exists rc. split; [now right|exact Hrest].
      * intros rc [Heq|Hin] Hrc.
        -- inversion Heq; subst rc. exists p0. split; [exact Hp0|now left].
        -- destruct (H2 rc Hin Hrc) as (p & Hp & Hin').
           exists p. split; [exact Hp|now right].
  - discriminate.
Qed.

Lemma Refresh_processFile_plan (header : readResult) (r : Reader)
    (tx tx' : Tx string) :
  Refresh.processFile (header :: r) tx = Ok tx' ->
  exists ps, RefreshPlan.plan r (budget tx) = Ok (ps, budget tx')
             /\ rows tx' = fold_left RefreshPlan.upsert ps (rows tx).
Proof.
  destruct tx as [m b]. destruct header; simpl; [|discriminate].
  rewrite readLoop_plan.
  destruct (RefreshPlan.plan r b) as [[ps b']| |]; simpl; try discriminate.
  intros H; inversion H; subst tx'. exists ps. split; reflexivity.
Qed.

Lemma plan_not_mentioned (r : Reader) b ps b' (k : Z) :
  RefreshPlan.plan r b = Ok (ps, b') ->
  ~ mentions ParseInt k r ->
  forall p, In p ps -> fst p <> k.
Proof.
  intros Hplan Hno p Hp Hk.
  destruct (proj1 (plan_members _ _ _ _ Hplan) p Hp) as (rc & Hin & Hnb & Hparse).
  apply parseRecord_inv in Hparse as (s0 & s3 & H0 & Hid & _).
  apply Hno. exists rc. split; [exact Hin|]. split; [exact Hnb|].
  exists s0. split; [exact H0|]. now rewrite Hid, Hk.
Qed.

(** X16.  A successful run of [src/main.go] over a file leaves every id that
    no data row of the file carries as it was: the same row, or no row. *)
Theorem Refresh_other_ids_untouched (header : readResult) (r : Reader)
    (tx tx' : Tx string) (k : Z) :
  Refresh.processFile (header :: r) tx = Ok tx' ->
  ~ mentions ParseInt k r ->
  rows tx' !! k = rows tx !! k.
Proof.
  intros H Hno. apply Refresh_processFile_plan in H as (ps & Hplan & ->).
  rewrite fold_upsert_lookup. apply fold_upsertAt_other.
  eapply plan_not_mentioned; eauto.
Qed.

(** X17.  A successful run of [src/main.go] deletes nothing and leaves a row
    for every id of the file: an id that had a row before has one after, and
    so has every id that a data row of the file carries. *)
Theorem Refresh_rows_stay_and_arrive (header : readResult) (r : Reader)
    (tx tx' : Tx string) :
  Refresh.processFile (header :: r) tx = Ok tx' ->
  (forall k, is_Some (rows tx !! k) -> is_Some (rows tx' !! k))
  /\ (forall k, mentions ParseInt k r -> is_Some (rows tx' !! k)).
Proof.
  intros H. apply Refresh_processFile_plan in H as (ps & Hplan & ->). split.
  - intros k [old Hold]. rewrite fold_upsert_lookup, Hold.
    destruct (fold_upsertAt_grows k ps old) as (new & -> & _). eauto.
  - intros k (rc & Hin & Hnb & s0 & H0 & Hid).
    destruct (proj2 (plan_members _ _ _ _ Hplan) rc Hin Hnb) as (p & Hp & Hps).
    apply parseRecord_inv in Hp as (s0' & s3 & H0' & Hid' & _).
    assert (Hk : fst p = k) by congruence.
    rewrite fold_upsert_lookup.
    destruct (fold_upsertAt_covers k ps p Hps Hk (rows tx !! k)) as (new & -> & _).
    eauto.
Qed.

(** X18.  In [src/main.go] the date stored for an id never goes back: after a
    successful run the row of an id is dated no earlier than the row the
    table held for it before, and no earlier than any data row of the file
    with that id. *)
Theorem Refresh_dates_never_go_back (header : readResult) (r : Reader)
    (tx tx' : Tx string) (k : Z) :
  Refresh.processFile (header :: r) tx = Ok tx' ->
  (forall old, rows tx !! k = Some old ->
     exists new, rows tx' !! k = Some new /\ Time_le (Date old) (Date new))
  /\ (forall record s3 d,
        In (Fields record) r -> hasId ParseInt k record ->
        nth_error record 3 = Some s3 -> time_Parse s3 = Some d ->
        exists new, rows tx' !! k = Some new /\ Time_le d (Date new)).
Proof.
  intros H. apply Refresh_processFile_plan in H as (ps & Hplan & ->). split.
  - intros old Hold. rewrite fold_upsert_lookup, Hold.
    apply fold_upsertAt_grows.
  - intros rc s3 d Hin [Hnb (s0 & H0 & Hid)] H3 Hd.
    destruct (proj2 (plan_members _ _ _ _ Hplan) rc Hin Hnb) as (p & Hp & Hps).
    apply parseRecord_inv in Hp as (s0' & s3' & H0' & Hid' & H3' & Hd' & _).
    assert (Hk : fst p = k) by congruence.
    assert (Hdate : Date (snd p) = d) by congruence.
    rewrite fold_upsert_lookup, <- Hdate.
    now apply fold_upsertAt_covers.
Qed.

(** X19.  A successful run of [src/main.go] executes exactly two statements
    for every data row that is not blank, and none for a blank one: a store
    that accepts [n] more executions accepts [n] less twice the number of
    non-blank rows afterwards. *)
Theorem Refresh_two_executions_per_row (header : readResult) (r : Reader)
    (m : gmap Z (Row string)) (n : nat) (tx' : Tx string) :
  Refresh.processFile (header :: r) (mkTx m (Some n)) = Ok tx' ->
  (2 * nonBlank r <= n)%nat /\ budget tx' = Some (n - 2 * nonBlank r)%nat.
Proof.
  intros H. apply Refresh_processFile_plan in H as (ps & Hplan & _).
  simpl in Hplan. now apply plan_budget in Hplan.
Qed.

Lemma Refresh_readLoop_app (a b : Reader) :
  forall tx,
    Refresh.readLoop (a ++ b) tx
    = let! tx1 := Refresh.readLoop a tx in Refresh.readLoop b tx1.
Proof.
  induction a as [|[record|] a IH]; intros tx; cbn [app Refresh.readLoop bind];
    try reflexivity.
  destruct (isEmptyRecord record); [apply IH|].
  destruct (Refresh.processRecord record tx); cbn [bind]; auto.
Qed.

(** X20.  In [src/main.go], processing a file whose data rows are [a]
    followed by [b] is processing, in the same transaction, a file with the
    rows [a] and then a file with the rows [b]; an error in the first part
    is the error of the whole. *)
Theorem Refresh_processFile_splits (header header' : list string)
    (a b : Reader) (tx : Tx string) :
  Refresh.processFile (Fields header :: a ++ b) tx
  = let! tx1 := Refresh.processFile (Fields header :: a) tx in
    Refresh.processFile (Fields header' :: b) tx1.
Proof. simpl. apply Refresh_readLoop_app. Qed.
End RefreshTable.

(** ** What [part_000] does to the table *)

Lemma not_mentions_cons (parseId : string -> option Z) (k : Z)
    (x : readResult) (r : Reader) :
  ~ mentions parseId k (x :: r) -> ~ mentions parseId k r.
Proof.
  intros H (rc & Hin & Hid). apply H. exists rc. split; [now right|exact Hid].
Qed.

Lemma not_mentions_app (parseId : string -> option Z) (k : Z) (a b : Reader) :
  ~ mentions parseId k (a ++ b) ->
  ~ mentions parseId k a /\ ~ mentions parseId k b.
Proof.
  intros H. split; intros (rc & Hin & Hid); apply H; exists rc;
    (split; [apply in_or_app; auto|exact Hid]).
Qed.

Section PurgeTable.
Context {lib : GoLib}.

Lemma Purge_processRecord_other record tx d tx' d' (k : Z) :
  isEmptyRecord record = false ->
  ~ hasId ParseInt k record ->
  Purge.processRecord record (tx, d) = Ok (tx', d') ->
  rows tx' !! k = rows tx !! k /\ (k ∈ d' <-> k ∈ d).
Proof.
  intros Hnb Hno H. apply Purge_processRecord_inv in H
    as (s0 & id & row & H0 & Hid & E & ->).
  assert (Hne : id <> k).
  { intros ->. apply Hno. split; [exact Hnb|]. eauto. }
  apply Exec_Ok in E. rewrite E. split.
  - unfold sqlInsertOrIgnore. destruct (rows tx !! id); [reflexivity|].
    now apply lookup_insert_ne.
  - destruct (_ =? 0)%Z; [|reflexivity].
    rewrite elem_of_union, elem_of_singleton.
    split; [intros [Heq|Hin]; [congruence|exact Hin]|auto].
Qed.

Lemma Purge_readLoop_other (r : Reader) (k : Z) :
  ~ mentions ParseInt k r ->
  forall tx d tx' d',
    Purge.readLoop r (tx, d) = Ok (tx', d') ->
    rows tx' !! k = rows tx !! k /\ (k ∈ d' <-> k ∈ d).
Proof.
  induction r as [|[record|] r IH]; intros Hno tx d tx' d' H;
    cbn [Purge.readLoop] in H.
  - inversion H; subst. tauto.
  - pose proof (not_mentions_cons _ _ _ _ Hno) as Hno'.
    destruct (isEmptyRecord record) eqn:Hnb; [now apply IH|].
    destruct (Purge.processRecord record (tx, d)) as [[tx1 d1]| |] eqn:E;
      cbn [bind] in H; try discriminate.
    apply (Purge_processRecord_other _ _ _ _ _ k Hnb) in E as [E1 E2].
    + destruct (IH Hno' _ _ _ _ H) as [H1 H2]. rewrite H1, H2. tauto.
    + intros Hid. apply Hno. exists record. split; [now left|exact Hid].
  - discriminate.
Qed.

Lemma removeLoop_lookup (ids : list Z) (tx tx' : Tx string) (k : Z) :
  Purge.removeLoop ids tx = Ok tx' ->
  rows tx' !! k = if decide (k ∈ ids) then None else rows tx !! k.
Proof.
  destruct tx as [m b]. rewrite removeLoop_spend. intros H.
  assert (Hrows : rows tx' = fold_left (fun m id => sqlDelete id m) ids m).
  { destruct b as [n|]; [destruct (_ <=? n)%nat; [|discriminate]|];
      now inversion H. }
  rewrite Hrows. apply fold_delete_lookup.
Qed.

(** X21.  A successful [removeSalesWithIds] leaves no row for the ids it was
    given and every other row as it was, and executes one statement per id. *)
Theorem removeSalesWithIds_removes (ids : gset Z) (m : gmap Z (Row string))
    (n : nat) (tx' : Tx string) :
  Purge.removeSalesWithIds ids (mkTx m (Some n)) = Ok tx' ->
  (forall k, rows tx' !! k = if decide (k ∈ ids) then None else m !! k)
  /\ budget tx' = Some (n - size ids)%nat.
Proof.
  unfold Purge.removeSalesWithIds. intros H. split.
  - intros k. rewrite (removeLoop_lookup _ _ _ k H). simpl.
    destruct (decide (k ∈ elements ids)) as [Hin|Hin];
      destruct (decide (k ∈ ids)) as [Hin'|Hin']; try reflexivity;
      rewrite elem_of_elements in Hin; contradiction.
  - rewrite removeLoop_spend in H.
    destruct (_ <=? n)%nat; [|discriminate]. now inversion H.
Qed.

(** X22.  The order in which the range over the map of conflicting ids
    yields them does not matter: [removeSalesWithIds] returns the same, table
    and error alike, for every order of the same ids. *)
Theorem removal_order_irrelevant (ids : gset Z) (order : list Z)
    (tx : Tx string) :
  Permutation (elements ids) order ->
  Purge.removeSalesWithIds ids tx = Purge.removeLoop order tx.
Proof. intros H. now apply removeLoop_order. Qed.

Lemma Purge_processFile_inv (header : readResult) (r : Reader)
    (tx tx' : Tx string) :
  Purge.processFile (header :: r) tx = Ok tx' ->
  exists tx1 d,
    Purge.readLoop r (tx, ∅) = Ok (tx1, d)
    /\ Purge.removeLoop (elements d) tx1 = Ok tx'.
Proof.
  destruct header; simpl; [|discriminate].
  destruct (Purge.readLoop r (tx, ∅)) as [[tx1 d]| |]; simpl;
    try discriminate.
  intros H. exists tx1, d. auto.
Qed.

(** X23.  A successful run of [part_000] leaves every id that no data row of
    the file carries as it was. *)
Theorem Purge_other_ids_untouched (header : readResult) (r : Reader)
    (tx tx' : Tx string) (k : Z) :
  Purge.processFile (header :: r) tx = Ok tx' ->
  ~ mentions ParseInt k r ->
  rows tx' !! k = rows tx !! k.
Proof.
  intros H Hno. apply Purge_processFile_inv in H as (tx1 & d & Hloop & Hrem).
  destruct (Purge_readLoop_other r k Hno _ _ _ _ Hloop) as [Hrows Hd].
  rewrite (removeLoop_lookup _ _ _ k Hrem).
  destruct (decide (k ∈ elements d)) as [Hin|Hin]; [|exact Hrows].
  rewrite elem_of_elements, Hd in Hin. set_solver.
Qed.

(** X24.  In [part_000] an id that is already in the table is purged by any
    file that carries it: after a successful run over a file with a data row
    for an id that had a row before, the table has no row for that id. *)
Theorem Purge_stored_id_is_deleted (header : readResult) (r : Reader)
    (tx tx' : Tx string) (k : Z) :
  Purge.processFile (header :: r) tx = Ok tx' ->
  is_Some (rows tx !! k) ->
  mentions ParseInt k r ->
  rows tx' !! k = None.
Proof.
  intros H Hold (rc & Hin & Hid).
  apply Purge_processFile_inv in H as (tx1 & d & Hloop & Hrem).
  apply in_split in Hin as (rows0 & rows1 & ->).
  rewrite Purge_readLoop_app in Hloop.
  destruct (Purge.readLoop rows0 (tx, ∅)) as [[tx0 d0]| |] eqn:E0;
    cbn [bind Purge.readLoop] in Hloop; try discriminate.
  rewrite (proj1 Hid) in Hloop.
  destruct (Purge.processRecord rc (tx0, d0)) as [[tx2 d2]| |] eqn:E1;
    cbn [bind] in Hloop; try discriminate.
  apply Purge_readLoop_mono in E0 as [Hdom _].
  apply (Purge_processRecord_id _ _ _ _ _ k Hid) in E1 as [_ Hdup].
  apply Purge_readLoop_mono in Hloop as [_ Hsub].
  eapply removeLoop_removes; [|exact Hrem].
  apply list_elem_of_In, elem_of_elements. auto.
Qed.

(** X25.  In [part_000] an id that is new to the table and that exactly one
    data row of the file carries is inserted: after a successful run the
    table holds, for that id, the address, suburb, date and value of that
    row. *)
Theorem Purge_new_single_id_is_inserted (header : readResult)
    (rows0 rows1 : Reader) (record : list string) (tx tx' : Tx string) (k : Z) :
  Purge.processFile (header :: rows0 ++ Fields record :: rows1) tx = Ok tx' ->
  rows tx !! k = None ->
  hasId ParseInt k record ->
  ~ mentions ParseInt k rows0 ->
  ~ mentions ParseInt k rows1 ->
  exists row, RefreshPlan.parseRecord record = Ok (k, row)
              /\ rows tx' !! k = Some row.
Proof.
  intros H Hnew Hid Hno0 Hno1.
  apply Purge_processFile_inv in H as (tx1 & d & Hloop & Hrem).
  rewrite Purge_readLoop_app in Hloop.
  destruct (Purge.readLoop rows0 (tx, ∅)) as [[tx0 d0]| |] eqn:E0;
    cbn [bind Purge.readLoop] in Hloop; try discriminate.
  rewrite (proj1 Hid) in Hloop.
  destruct (Purge.processRecord record (tx0, d0)) as [[tx2 d2]| |] eqn:E1;
    cbn [bind] in Hloop; try discriminate.
  destruct (Purge_readLoop_other _ k Hno0 _ _ _ _ E0) as [Hr0 Hd0].
  destruct (Purge_readLoop_other _ k Hno1 _ _ _ _ Hloop) as [Hr1 Hd1].
  rewrite Hnew in Hr0.
  unfold Purge.processRecord, Purge.stmt_Exec, RefreshPlan.parseRecord, index
    in *.
  destruct Hid as [_ (s0 & H0 & Hk)]. rewrite H0 in *. cbn [bind] in *.
  rewrite Hk in *. cbn [bind orErr] in *.
  destruct (nth_error record 3) as [s3|]; cbn [bind] in *; [|discriminate].
  destruct (time_Parse s3) as [date|]; cbn [bind orErr] in *; [|discriminate].
  destruct (nth_error record 1) as [a|]; cbn [bind] in *; [|discriminate].
  destruct (nth_error record 2) as [sb|]; cbn [bind] in *; [|discriminate].
  destruct (nth_error record 4) as [v|]; cbn [bind] in *; [|discriminate].
  destruct (Exec _ tx0) as [tx3| |] eqn:E; cbn [bind] in E1; try discriminate.
  apply Exec_Ok in E. unfold insertAffected in E1. rewrite Hr0 in E1.
  simpl in E1. inversion E1; subst tx3 d2; clear E1.
  exists (mkRow a sb date v). split; [reflexivity|].
  rewrite (removeLoop_lookup _ _ _ k Hrem).
  destruct (decide (k ∈ elements d)) as [Hin|Hin].
  - rewrite elem_of_elements, Hd1, Hd0 in Hin. set_solver.
  - rewrite Hr1, E. unfold sqlInsertOrIgnore. rewrite Hr0.
    apply lookup_insert_eq.
Qed.
End PurgeTable.

(** ** The errors of [src/main.go] and [part_000] *)

Lemma spend_errors (b : option nat) (e : error) :
  spend b = Err e -> e = storeError.
Proof. destruct b as [[|n]|]; simpl; intros H; now inversion H. Qed.

Lemma Exec_errors {V} (f : gmap Z (Row V) -> gmap Z (Row V)) (tx : Tx V)
    (e : error) :
  Exec f tx = Err e -> e = storeError.
Proof.
  unfold Exec. destruct (budget tx) as [[|n]|]; intros H; now inversion H.
Qed.

Section ErrorKinds.
Context {lib : GoLib}.

Lemma parseRecord_errors (record : list string) (e : error) :
  RefreshPlan.parseRecord record = Err e -> e = numError \/ e = timeError.
Proof.
  unfold RefreshPlan.parseRecord, index.
  destruct (nth_error record 0) as [s0|]; cbn [bind]; [|discriminate].
  destruct (ParseInt s0); cbn [bind orErr]; [|intros H; inversion H; auto].
  destruct (nth_error record 3) as [s3|]; cbn [bind]; [|discriminate].
  destruct (time_Parse s3); cbn [bind orErr]; [|intros H; inversion H; auto].
  destruct (nth_error record 1); cbn [bind]; [|discriminate].
  destruct (nth_error record 2); cbn [bind]; [|discriminate].
  destruct (nth_error record 4); cbn [bind]; discriminate.
Qed.

Lemma plan_errors (r : Reader) :
  forall b e, RefreshPlan.plan r b = Err e ->
              e = csvError \/ e = numError \/ e = timeError \/ e = storeError.
Proof.
  induction r as [|[record|] r IH]; intros b e H; cbn [RefreshPlan.plan] in H.
  - discriminate.
  - destruct (isEmptyRecord record); [eauto|].
    destruct (RefreshPlan.parseRecord record) as [p|e0|] eqn:Hp;
      cbn [bind] in H; try discriminate.
    + destruct (spend b) as [b1|e1|] eqn:E1; cbn [bind] in H;
        try discriminate.
      * destruct (spend b1) as [b2|e2|] eqn:E2; cbn [bind] in H;
          try discriminate.
        -- destruct (RefreshPlan.plan r b2) as [pl|e3|] eqn:E3;
             cbn [bind] in H; try discriminate.
           inversion H; subst e3. eauto.
        -- inversion H; subst e2. apply spend_errors in E2. auto.
      * inversion H; subst e1. apply spend_errors in E1. auto.
    + inversion H; subst e0.
      apply parseRecord_errors in Hp as [ -> | -> ]; auto.
  - inversion H; auto.
Qed.

Lemma Purge_processRecord_errors record st (e : error) :
  Purge.processRecord record st = Err e ->
  e = numError \/ e = timeError \/ e = storeError.
Proof.
  destruct st as [tx d]. unfold Purge.processRecord, Purge.stmt_Exec, index.
  destruct (nth_error record 0) as [s0|]; cbn [bind]; [|discriminate].
  destruct (ParseInt s0); cbn [bind orErr]; [|intros H; inversion H; auto].
  destruct (nth_error record 3) as [s3|]; cbn [bind]; [|discriminate].
  destruct (time_Parse s3); cbn [bind orErr]; [|intros H; inversion H; auto].
  destruct (nth_error record 1); cbn [bind]; [|discriminate].
  destruct (nth_error record 2); cbn [bind]; [|discriminate].
  destruct (nth_error record 4); cbn [bind]; [|discriminate].
  destruct (Exec _ tx) as [tx1|e1|] eqn:E; cbn [bind]; try discriminate.
  - destruct (_ =? 0)%Z; discriminate.
  - intros H; inversion H; subst e1. apply Exec_errors in E. auto.
Qed.

Lemma Purge_readLoop_errors (r : Reader) :
  forall st e, Purge.readLoop r st = Err e ->
               e = csvError \/ e = numError \/ e = timeError \/ e = storeError.
Proof.
  induction r as [|[record|] r IH]; intros st e H; cbn [Purge.readLoop] in H.
  - discriminate.
  - destruct (isEmptyRecord record); [eauto|].
    destruct (Purge.processRecord record st) as [st1|e1|] eqn:E;
      cbn [bind] in H; try discriminate; [eauto|].
    inversion H; subst e1.
    apply Purge_processRecord_errors in E as [ -> | [ -> | -> ]]; auto.
  - inversion H; auto.
Qed.

(** X26.  The errors of [src/main.go] and of [part_000]: [processFile]
    returns no other error than one of the CSV reader, of parsing the id or
    the date, or of the store. *)
Theorem Refresh_Purge_error_kinds (e : error) :
  (forall r tx, Refresh.processFile r tx = Err e ->
                e = csvError \/ e = numError \/ e = timeError \/ e = storeError)
  /\ (forall r tx, Purge.processFile r tx = Err e ->
                   e = csvError \/ e = numError \/ e = timeError \/ e = storeError).
Proof.
  split; intros [|[h|] r] tx H; simpl in H; try discriminate;
    try (inversion H; now auto).
  - destruct tx as [m b]. rewrite readLoop_plan in H.
    destruct (RefreshPlan.plan r b) as [pl|e0|] eqn:E; cbn [bind] in H;
      try discriminate.
    inversion H; subst e0. eapply plan_errors; eauto.
  - destruct (Purge.readLoop r (tx, ∅)) as [st|e0|] eqn:E; cbn [bind] in H;
      try discriminate.
    + unfold Purge.removeSalesWithIds in H. destruct st as [[m b] d].
      cbn [fst snd] in H. rewrite removeLoop_spend in H.
      destruct b as [n|]; [|discriminate].
      destruct (_ <=? n)%nat; [discriminate|]. inversion H; auto.
    + inversion H; subst e0. eapply Purge_readLoop_errors; eauto.
Qed.
End ErrorKinds.

(** ** Runs over several files *)

(** X27.  One run over the files [pre] and then [rest], when it gets through
    [pre], ends as a run over [rest] started on the table a run over [pre]
    alone has left: the files of one invocation can as well be given to
    successive invocations. *)
Theorem run_splits_at_committed_files `{lib : GoLib} :
  (forall db db1 pre rest,
      Refresh.main db pre = (db1, Finished) ->
      Refresh.main db (pre ++ rest) = Refresh.main db1 rest)
  /\ (forall db db1 pre rest,
        Purge.main db pre = (db1, Finished) ->
        Purge.main db (pre ++ rest) = Purge.main db1 rest)
  /\ (forall flag_g db db1 pre rest,
        Pipeline.main flag_g db pre = (db1, Finished) ->
        Pipeline.main flag_g db (pre ++ rest) = Pipeline.main flag_g db1 rest).
Proof.
  repeat split; intros; now apply mainLoop_app.
Qed.

(** ** The properties above on a small file *)

Ltac no_mention :=
  let rc := fresh "rc" in
  let Hin := fresh "Hin" in
  let Hnb := fresh "Hnb" in
  let s0 := fresh "s0" in
  let H0 := fresh "H0" in
  let Hid := fresh "Hid" in
  intros (rc & Hin & Hnb & s0 & H0 & Hid); simpl in Hin;
  repeat (destruct Hin as [Hin|Hin];
          [inversion Hin; subst rc;
           first [ discriminate Hnb
                 | simpl in H0; inversion H0; subst s0;
                   vm_compute in Hid; discriminate Hid ]
          |]);
  destruct Hin.

Lemma Refresh_other_ids_untouched_witness :
  Refresh.processFile (lib := Decimal.lib) (Sample.header :: Sample.dataRows)
    (mkTx Sample.before (Some 10%nat))
  = Ok (mkTx Sample.afterRefresh (Some 6%nat))
  /\ rows (mkTx Sample.afterRefresh (Some 6%nat)) !! 9%Z
     = rows (mkTx Sample.before (Some 10%nat)) !! 9%Z.
Proof.
  split; [vm_compute; reflexivity|].
  apply (Refresh_other_ids_untouched (lib := Decimal.lib)
           Sample.header Sample.dataRows); [vm_compute; reflexivity|].
  no_mention.
Defined.

Lemma Refresh_rows_stay_and_arrive_witness :
  Refresh.processFile (lib := Decimal.lib) (Sample.header :: Sample.dataRows)
    (mkTx Sample.before (Some 10%nat))
  = Ok (mkTx Sample.afterRefresh (Some 6%nat))
  /\ is_Some (rows (mkTx Sample.afterRefresh (Some 6%nat)) !! 2%Z).
Proof.
  split; [vm_compute; reflexivity|].
  apply (proj2 (Refresh_rows_stay_and_arrive (lib := Decimal.lib)
                  Sample.header Sample.dataRows
                  (mkTx Sample.before (Some 10%nat)) _ eq_refl)).
  exists ["2"; "3 Elm ST"; "Newtown"; "1/5/20"; "300"].
  split; [simpl; auto|]. split; [reflexivity|].
  exists "2". split; reflexivity.
Defined.

Lemma Refresh_dates_never_go_back_witness :
  Refresh.processFile (lib := Decimal.lib) (Sample.header :: Sample.dataRows)
    (mkTx Sample.before (Some 10%nat))
  = Ok (mkTx Sample.afterRefresh (Some 6%nat))
  /\ rows (mkTx Sample.before (Some 10%nat)) !! 1%Z = Some Sample.oldRow
  /\ exists new, rows (mkTx Sample.afterRefresh (Some 6%nat)) !! 1%Z = Some new
                 /\ Time_le (Date Sample.oldRow) (Date new).
Proof.
  split; [vm_compute; reflexivity|]. split; [reflexivity|].
  apply (proj1 (Refresh_dates_never_go_back (lib := Decimal.lib)
                  Sample.header Sample.dataRows
                  (mkTx Sample.before (Some 10%nat)) _ 1%Z eq_refl)).
  reflexivity.
Defined.

Lemma Refresh_two_executions_per_row_witness :
  Refresh.processFile (lib := Decimal.lib) (Sample.header :: Sample.dataRows)
    (mkTx Sample.before (Some 10%nat))
  = Ok (mkTx Sample.afterRefresh (Some 6%nat))
  /\ (2 * nonBlank Sample.dataRows <= 10)%nat
  /\ budget (mkTx Sample.afterRefresh (Some 6%nat))
     = Some (10 - 2 * nonBlank Sample.dataRows)%nat.
Proof.
  split; [vm_compute; reflexivity|].
  apply (Refresh_two_executions_per_row (lib := Decimal.lib) Sample.header
           Sample.dataRows Sample.before 10
           (mkTx Sample.afterRefresh (Some 6%nat))).
  vm_compute; reflexivity.
Defined.

Lemma removeSalesWithIds_removes_witness :
  Purge.removeSalesWithIds {[1%Z; 9%Z]} (mkTx Sample.before (Some 5%nat))
  = Ok (mkTx ∅ (Some 3%nat))
  /\ budget (mkTx (∅ : gmap Z (Row string)) (Some 3%nat))
     = Some (5 - size ({[1%Z; 9%Z]} : gset Z))%nat.
Proof.
  split; [vm_compute; reflexivity|].
  apply (removeSalesWithIds_removes {[1%Z; 9%Z]} Sample.before 5).
  vm_compute; reflexivity.
Defined.

Lemma removal_order_irrelevant_witness :
  Permutation (elements ({[3%Z; 5%Z]} : gset Z)) [3%Z; 5%Z]
  /\ Purge.removeSalesWithIds {[3%Z; 5%Z]} (mkTx Sample.before (Some 1%nat))
     = Purge.removeLoop [3%Z; 5%Z] (mkTx Sample.before (Some 1%nat)).
Proof.
  assert (H : Permutation (elements ({[3%Z; 5%Z]} : gset Z)) [3%Z; 5%Z]).
  { vm_compute. apply perm_swap. }
  split; [exact H|]. apply removal_order_irrelevant. exact H.
Defined.

Lemma Purge_other_ids_untouched_witness :
  Purge.processFile (lib := Decimal.lib) (Sample.header :: Sample.dataRows)
    (mkTx Sample.before (Some 10%nat))
  = Ok (mkTx Sample.afterPurge (Some 7%nat))
  /\ rows (mkTx Sample.afterPurge (Some 7%nat)) !! 9%Z
     = rows (mkTx Sample.before (Some 10%nat)) !! 9%Z.
Proof.
  split; [vm_compute; reflexivity|].
  apply (Purge_other_ids_untouched (lib := Decimal.lib)
           Sample.header Sample.dataRows); [vm_compute; reflexivity|].
  no_mention.
Defined.

Lemma Purge_stored_id_is_deleted_witness :
  Purge.processFile (lib := Decimal.lib) (Sample.header :: Sample.dataRows)
    (mkTx Sample.before (Some 10%nat))
  = Ok (mkTx Sample.afterPurge (Some 7%nat))
  /\ is_Some (rows (mkTx Sample.before (Some 10%nat)) !! 1%Z)
  /\ rows (mkTx Sample.afterPurge (Some 7%nat)) !! 1%Z = None.
Proof.
  split; [vm_compute; reflexivity|].
  assert (Hold : is_Some (rows (mkTx Sample.before (Some 10%nat)) !! 1%Z))
    by (exists Sample.oldRow; reflexivity).
  split; [exact Hold|].
  apply (Purge_stored_id_is_deleted (lib := Decimal.lib)
           Sample.header Sample.dataRows
           (mkTx Sample.before (Some 10%nat)) _ 1%Z);
    [vm_compute; reflexivity|exact Hold|].
  exists ["1"; "2 New RD"; "Newtown"; "1/10/20"; "200"].
  split; [simpl; auto|]. split; [reflexivity|].
  exists "1". split; reflexivity.
Defined.

Lemma Purge_new_single_id_is_inserted_witness :
  let rows0 := [Fields ["1"; "2 New RD"; "Newtown"; "1/10/20"; "200"];
                Fields [""; ""; ""; ""; ""]] in
  let record := ["2"; "3 Elm ST"; "Newtown"; "1/5/20"; "300"] in
  Purge.processFile (lib := Decimal.lib)
    (Sample.header :: rows0 ++ Fields record :: [])
    (mkTx Sample.before (Some 10%nat))
  = Ok (mkTx Sample.afterPurge (Some 7%nat))
  /\ exists row,
      RefreshPlan.parseRecord (lib := Decimal.lib) record = Ok (2%Z, row)
      /\ rows (mkTx Sample.afterPurge (Some 7%nat)) !! 2%Z = Some row.
Proof.
  cbv zeta. split; [vm_compute; reflexivity|].
  apply (Purge_new_single_id_is_inserted (lib := Decimal.lib) Sample.header
           [Fields ["1"; "2 New RD"; "Newtown"; "1/10/20"; "200"];
            Fields [""; ""; ""; ""; ""]]
           [] ["2"; "3 Elm ST"; "Newtown"; "1/5/20"; "300"]
           (mkTx Sample.before (Some 10%nat))).
  - vm_compute; reflexivity.
  - reflexivity.
  - split; [reflexivity|]. exists "2". split; reflexivity.
  - no_mention.
  - no_mention.
Defined.

Lemma Refresh_Purge_error_kinds_witness :
  let file := [Sample.header;
               Fields ["x"; "2 New RD"; "Newtown"; "1/10/20"; "200"]] in
  Refresh.processFile (lib := Decimal.lib) file (mkTx ∅ None) = Err numError
  /\ (numError = csvError \/ numError = numError \/ numError = timeError
      \/ numError = storeError).
Proof.
  cbv zeta. split; [reflexivity|].
  apply (proj1 (Refresh_Purge_error_kinds (lib := Decimal.lib) numError)
           [Sample.header; Fields ["x"; "2 New RD"; "Newtown"; "1/10/20"; "200"]]
           (mkTx ∅ None)).
  reflexivity.
Defined.

Lemma run_splits_at_committed_files_witness :
  let file := Sample.header :: Sample.dataRows in
  Refresh.main (lib := Decimal.lib) Sample.before [(file, None)]
  = (Sample.afterRefresh, Finished)
  /\ Refresh.main (lib := Decimal.lib) Sample.before
       ([(file, None)] ++ [(file, Some 1%nat)])
     = Refresh.main (lib := Decimal.lib) Sample.afterRefresh
         [(file, Some 1%nat)].
Proof.
  cbv zeta. split; [vm_compute; reflexivity|].
  apply (proj1 (run_splits_at_committed_files (lib := Decimal.lib))).
  vm_compute; reflexivity.
Defined.
